(** * mcp-interactive-feedback: session broker and port negotiator

    A shallow embedding of the TypeScript classes

      - [SessionStorage]  (session storage manager,
                           [src/utils/session-storage.ts])
      - [WebServer]       ([src/server/web-server.ts])
      - [ProcessManager]  (cross-platform process management tool, the
                           module imported as [./process-manager.js])
      - [PortManager]     (port management tool, the module imported as
                           [../utils/port-manager.js])
      - [validateConfig]  (configuration module, imported as
                           [./config/index.js])
      - [Logger]          ([src/utils/logger.ts])
      - [ImageProcessor]  (image processing tool, the module imported as
                           [../utils/image-processor.js])
      - [PerformanceMonitor] (performance monitoring tool, the module
                           imported as [../utils/performance-monitor.js])
      - [MCPServer.formatFeedbackForMCP] (MCP server implementation)

    and of the types they share ([../types/index.js]).

    Conventions of the embedding.

    - JavaScript numbers that hold millisecond clocks, second counts, ports
      and process ids are integers in every call site of the sources; they
      are modelled as [Z].  [Date.now()] is an explicit argument [now].
    - A JavaScript [Map] iterates in insertion order, keeps the position of
      a key that is overwritten and holds each key once: it is an
      association list ([JsMap.t]) together with the well-formedness
      predicate [JsMap.wf].
    - The [resolve]/[reject] members of a session are the two callables of
      the promise built by [collectFeedback].  A callable is modelled by
      the handle of its promise; calling it is recorded as a [Call], so
      that invocations can be counted.  Calling a callable of a settled
      promise is still a call.
    - Handlers run to completion, as on the event loop; a handler that
      awaits an external collaborator ([processImages]) is taken with the
      collaborator's answer as one step.
    - Strings are strings of bytes; [toLowerCase] is the ASCII one, which
      is what it does on the names and command lines that [ps], [lsof] and
      [tasklist] print for the processes of the lists.
    - Operating-system facilities (bind a port, list the owner of a port,
      send a signal, [Math.random]) are oracles threaded through a state,
      with a transcript of the calls made and of their answers.
    - [Date.now()] inside the waiting loop of the port manager is an
      oracle of the machine as well ([Timed.Clock]).
    - Calls of [logger] inside the other classes are left out. *)

From Stdlib Require Import List ZArith QArith Qround String Ascii Bool Lia.
From Stdlib Require Import DecimalString.
Import ListNotations.

Local Open Scope Z_scope.
Local Open Scope list_scope.

(* ------------------------------------------------------------------ *)
(** * JavaScript [Map<string, V>] *)

Module JsMap.

Section Ops.
Context {V : Type}.

Definition t := list (string * V).

Definition empty : t := [].

(** [m.get(k)] *)
Fixpoint get (k : string) (m : t) : option V :=
  match m with
  | [] => None
  | (k', v) :: m' => if String.eqb k k' then Some v else get k m'
  end.

(** [m.has(k)] *)
Definition has (k : string) (m : t) : bool :=
  match get k m with Some _ => true | None => false end.

(** [m.set(k, v)]: an existing key keeps its place in the iteration
    order, a new key goes last. *)
Fixpoint set (k : string) (v : V) (m : t) : t :=
  match m with
  | [] => [(k, v)]
  | (k', v') :: m' =>
      if String.eqb k k' then (k, v) :: m' else (k', v') :: set k v m'
  end.

(** [m.delete(k)]: the table without [k], and whether [k] was there. *)
Definition remove (k : string) (m : t) : t :=
  filter (fun e => negb (String.eqb k (fst e))) m.

Definition delete (k : string) (m : t) : bool * t :=
  (has k m, remove k m).

(** [m.size] *)
Definition size (m : t) : Z := Z.of_nat (List.length m).

Definition keys (m : t) : list string := map fst m.

(** Each key occurs once. *)
Definition wf (m : t) : Prop := NoDup (keys m).

End Ops.

Arguments t V : clear implicits.

End JsMap.

(* ------------------------------------------------------------------ *)
(** * Shared types ([src/types/index.ts]) *)

Record ImageData := {
  img_name : string;
  img_data : string;
  img_size : Z;
  img_type : string
}.

Record FeedbackData := {
  text : option string;
  images : option (list ImageData);
  timestamp : Z;
  sessionId : string
}.

(** The texts of the errors the core raises.  A template literal that
    interpolates a number keeps the number as an argument. *)
Inductive ErrorMessage :=
| SessionTimeoutAfter (timeout_ms : Z)
    (* `Session timeout after ${session.timeout / 1000} seconds` *)
| ServerIsShuttingDown
    (* 'Server is shutting down' *)
| FeedbackCollectionTimeoutAfter (timeoutSeconds : Z)
    (* `Feedback collection timeout after ${timeoutSeconds} seconds` *)
| NoAvailablePortsFound
    (* 'No available ports found' *)
| PortOccupiedKillDisabled (port : Z)
    (* `Port ${port} is occupied and killProcess is disabled` *)
| FailedToForceRelease (port : Z)
    (* `Failed to force release port ${port}` *)
| PortStillOccupied (port : Z)
    (* `Port ${port} is still occupied after force release` *)
| UnsafeProcess (name : string) (pid : Z)
    (* `Unsafe process, refuse to terminate: ${name} (PID: ${pid})` *)
| InvalidPortNumber (port : Z)
    (* `Invalid port number: ${config.webPort}. Must be between ...` *)
| InvalidTimeout (timeoutSeconds : Z)
    (* `Invalid timeout: ${config.dialogTimeout}. Must be between ...` *)
| InvalidMaxFileSize (bytes : Z)
| InvalidApiBaseUrl (url : string)
| InvalidLogLevel (level : string)
| OtherMessage (msg : string).

(** [class MCPError extends Error]: a message and a code. *)
Record MCPError := {
  message : ErrorMessage;
  code : string
}.

(** The callables stored in a session belong to one promise each. *)
Definition Promise := nat.

(** One invocation of a continuation. *)
Inductive Call :=
| CallResolve (p : Promise) (feedback : list FeedbackData)
| CallReject (p : Promise) (error : MCPError).

Definition call_promise (c : Call) : Promise :=
  match c with CallResolve p _ => p | CallReject p _ => p end.

(** [interface SessionData] *)
Record SessionData := {
  workSummary : string;
  feedback : list FeedbackData;
  startTime : Z;
  timeout : Z;
  resolve : option Promise;
  reject : option Promise
}.

(** [Partial<SessionData>]: the own properties of an update object. *)
Record PartialSessionData := {
  upd_workSummary : option string;
  upd_feedback : option (list FeedbackData);
  upd_startTime : option Z;
  upd_timeout : option Z;
  upd_resolve : option (option Promise);
  upd_reject : option (option Promise)
}.

Definition orElse {A : Type} (o : option A) (d : A) : A :=
  match o with Some a => a | None => d end.

(** [Object.assign(session, updates)] *)
Definition assign (session : SessionData) (updates : PartialSessionData)
  : SessionData :=
  {| workSummary := orElse (upd_workSummary updates) (workSummary session);
     feedback := orElse (upd_feedback updates) (feedback session);
     startTime := orElse (upd_startTime updates) (startTime session);
     timeout := orElse (upd_timeout updates) (timeout session);
     resolve := orElse (upd_resolve updates) (resolve session);
     reject := orElse (upd_reject updates) (reject session) |}.

(* ------------------------------------------------------------------ *)
(** * Configuration ([src/config/index.ts]) *)

Module Config.

Record t := {
  webPort : Z;
  dialogTimeout : Z;
  maxFileSize : Z;
  apiBaseUrl : string;
  logLevel : string
}.

Definition validLogLevels : list string :=
  ["error"; "warn"; "info"; "debug"]%string.

Section Validate.
(** [new URL(s)] does not throw. *)
Variable parsesAsURL : string -> bool.

(** [validateConfig]: [None] when the function returns, [Some e] when it
    throws [e]. *)
Definition validateConfig (config : t) : option MCPError :=
  if (webPort config <? 1024) || (webPort config >? 65535) then
    Some {| message := InvalidPortNumber (webPort config);
            code := "INVALID_PORT" |}
  else if (dialogTimeout config <? 10) || (dialogTimeout config >? 60000) then
    Some {| message := InvalidTimeout (dialogTimeout config);
            code := "INVALID_TIMEOUT" |}
  else if (maxFileSize config <? 1024) || (maxFileSize config >? 104857600) then
    Some {| message := InvalidMaxFileSize (maxFileSize config);
            code := "INVALID_FILE_SIZE" |}
  else if negb (parsesAsURL (apiBaseUrl config)) then
    Some {| message := InvalidApiBaseUrl (apiBaseUrl config);
            code := "INVALID_API_URL" |}
  else if negb (existsb (String.eqb (logLevel config)) validLogLevels) then
    Some {| message := InvalidLogLevel (logLevel config);
            code := "INVALID_LOG_LEVEL" |}
  else None.

End Validate.

End Config.

(* ------------------------------------------------------------------ *)
(** * [class SessionStorage] ([src/utils/session-storage.ts]) *)

Module SessionStorage.

Record t := mk {
  sessions : JsMap.t SessionData;
  cleanupInterval : bool;       (* the [setInterval] handle is live *)
  cleanupIntervalMs : Z
}.

Definition with_sessions (this : t) (m : JsMap.t SessionData) : t :=
  mk m (cleanupInterval this) (cleanupIntervalMs this).

(** [constructor(cleanupIntervalMs = 60000)], which starts the timer. *)
Definition new (cleanupIntervalMs : Z) : t :=
  mk JsMap.empty true cleanupIntervalMs.

Definition createSession (sessionId : string) (data : SessionData) (this : t)
  : t :=
  with_sessions this (JsMap.set sessionId data (sessions this)).

Definition deleteSession (sessionId : string) (this : t) : bool * t :=
  let '(deleted, m) := JsMap.delete sessionId (sessions this) in
  (deleted, with_sessions this m).

Definition getSession (now : Z) (sessionId : string) (this : t)
  : option SessionData * t :=
  match JsMap.get sessionId (sessions this) with
  | Some session =>
      let elapsed := now - startTime session in
      if elapsed >? timeout session
      then (None, snd (deleteSession sessionId this))
      else (Some session, this)
  | None => (None, this)
  end.

Definition updateSession (sessionId : string) (updates : PartialSessionData)
  (this : t) : bool * t :=
  match JsMap.get sessionId (sessions this) with
  | None => (false, this)
  | Some session =>
      (true,
       with_sessions this
         (JsMap.set sessionId (assign session updates) (sessions this)))
  end.

(** [getAllSessions]: a copy of the whole table. *)
Definition getAllSessions (this : t) : JsMap.t SessionData := sessions this.

Definition getSessionCount (this : t) : Z := JsMap.size (sessions this).

Definition timeoutError (session : SessionData) : MCPError :=
  {| message := SessionTimeoutAfter (timeout session);
     code := "SESSION_TIMEOUT" |}.

(** The [for (const [sessionId, session] of this.sessions)] loop of
    [cleanupExpiredSessions].  [entries] are the entries still to visit,
    [live] is the table, [cleanedCount] the counter, [calls] the
    invocations of [reject] made so far. *)
Fixpoint cleanupLoop (now : Z) (entries : list (string * SessionData))
  (live : JsMap.t SessionData) (cleanedCount : Z) (calls : list Call)
  : Z * list Call * JsMap.t SessionData :=
  match entries with
  | [] => (cleanedCount, calls, live)
  | (sessionId, session) :: rest =>
      let elapsed := now - startTime session in
      if elapsed >? timeout session then
        let calls' :=
          match reject session with
          | Some k => calls ++ [CallReject k (timeoutError session)]
          | None => calls
          end in
        cleanupLoop now rest (JsMap.remove sessionId live)
          (cleanedCount + 1) calls'
      else cleanupLoop now rest live cleanedCount calls
  end.

Definition cleanupExpiredSessions (now : Z) (this : t) : Z * list Call * t :=
  let '(cleanedCount, calls, live) :=
    cleanupLoop now (sessions this) (sessions this) 0 [] in
  (cleanedCount, calls, with_sessions this live).

Definition stopCleanupTimer (this : t) : t :=
  if cleanupInterval this
  then mk (sessions this) false (cleanupIntervalMs this)
  else this.

Definition shutdownError : MCPError :=
  {| message := ServerIsShuttingDown; code := "SERVER_SHUTDOWN" |}.

(** The loop of [clear]. *)
Fixpoint clearLoop (entries : list (string * SessionData)) (calls : list Call)
  : list Call :=
  match entries with
  | [] => calls
  | (_, session) :: rest =>
      match reject session with
      | Some k => clearLoop rest (calls ++ [CallReject k shutdownError])
      | None => clearLoop rest calls
      end
  end.

Definition clear (this : t) : list Call * t :=
  (clearLoop (sessions this) [], with_sessions this JsMap.empty).

Record Stats := {
  totalSessions : Z;
  activeSessions : Z;
  expiredSessions : Z
}.

Fixpoint statsLoop (now : Z) (values : list SessionData)
  (active expired : Z) : Z * Z :=
  match values with
  | [] => (active, expired)
  | session :: rest =>
      let elapsed := now - startTime session in
      if elapsed >? timeout session
      then statsLoop now rest active (expired + 1)
      else statsLoop now rest (active + 1) expired
  end.

Definition getStats (now : Z) (this : t) : Stats :=
  let '(active, expired) :=
    statsLoop now (map snd (sessions this)) 0 0 in
  {| totalSessions := JsMap.size (sessions this);
     activeSessions := active;
     expiredSessions := expired |}.

End SessionStorage.

(* ------------------------------------------------------------------ *)
(** * [class WebServer] ([src/server/web-server.ts]) *)

Module WebServer.

(** Messages sent to a respondent with [socket.emit]. *)
Inductive SocketEvent :=
| session_assigned (session_id work_summary : string)
| no_active_session
| work_summary_data (work_summary : string)
| feedback_error (error : string)
| feedback_submitted.

(** What a handler does, in program order: the calls of continuations,
    the messages to sockets, and the operations on the table, on the
    sockets and on the listener that the properties below speak of. *)
Inductive Effect :=
| Invoke (c : Call)            (* session.resolve(..), reject(..) *)
| Emit (e : SocketEvent)       (* socket.emit(..) *)
| ClearSessions                (* this.sessions.clear() *)
| OpenFeedbackPage (sessionId : string)
| DisconnectSockets            (* this.io.disconnectSockets(true) *)
| IoClose                      (* this.io.close() *)
| ServerClose                  (* this.server.close(..) *)
| WaitForPortRelease (port timeoutMs : Z).

(** The closure that one call of [collectFeedback] leaves behind: the
    scheduled [setTimeout] callback and the [catch] handler of
    [openFeedbackPage]. *)
Record Pending := {
  pend_sessionId : string;
  pend_timeoutSeconds : Z;
  pend_timer : bool;           (* [timeoutId] is still scheduled *)
  pend_open : bool             (* [openFeedbackPage] has not settled *)
}.

Record t := mk {
  sessionStorage : SessionStorage.t;
  isServerRunning : bool;
  port : Z;
  pending : list Pending       (* position = handle of the promise *)
}.

Definition with_storage (this : t) (s : SessionStorage.t) : t :=
  mk s (isServerRunning this) (port this) (pending this).

Definition with_pending (this : t) (ps : list Pending) : t :=
  mk (sessionStorage this) (isServerRunning this) (port this) ps.

Fixpoint setNth {A : Type} (n : nat) (a : A) (l : list A) : list A :=
  match l, n with
  | [], _ => []
  | _ :: l', O => a :: l'
  | x :: l', S n' => x :: setNth n' a l'
  end.

(** The route [POST /api/test-session]: a session without continuation
    and without timer.  The route answers 400 when [work_summary] is
    missing. *)
Definition testSession (work_summary : string) (timeout_seconds now : Z)
  (sessionId : string) (this : t) : t :=
  if String.eqb work_summary "" then this
  else
    let session :=
      {| workSummary := work_summary; feedback := [];
         startTime := now; timeout := timeout_seconds * 1000;
         resolve := None; reject := None |} in
    with_storage this
      (SessionStorage.createSession sessionId session (sessionStorage this)).

(** [collectFeedback(workSummary, timeoutSeconds)].  [now] is the value of
    [Date.now()] and [sessionId] the result of [generateSessionId()]. *)
Definition collectFeedback (workSummary : string) (timeoutSeconds now : Z)
  (sessionId : string) (this : t) : Promise * t * list Effect :=
  let p : Promise := List.length (pending this) in
  let session :=
    {| workSummary := workSummary; feedback := [];
       startTime := now; timeout := timeoutSeconds * 1000;
       resolve := Some p; reject := Some p |} in
  let storage :=
    SessionStorage.createSession sessionId session (sessionStorage this) in
  let closure :=
    {| pend_sessionId := sessionId; pend_timeoutSeconds := timeoutSeconds;
       pend_timer := true; pend_open := true |} in
  (p,
   mk storage (isServerRunning this) (port this) (pending this ++ [closure]),
   [OpenFeedbackPage sessionId]).

Definition feedbackTimeoutError (timeoutSeconds : Z) : MCPError :=
  {| message := FeedbackCollectionTimeoutAfter timeoutSeconds;
     code := "FEEDBACK_TIMEOUT" |}.

(** The callback given to [setTimeout] in [collectFeedback]. *)
Definition onTimeout (p : Promise) (this : t) : t * list Effect :=
  match nth_error (pending this) p with
  | Some c =>
      if pend_timer c then
        let c' := {| pend_sessionId := pend_sessionId c;
                     pend_timeoutSeconds := pend_timeoutSeconds c;
                     pend_timer := false; pend_open := pend_open c |} in
        let storage :=
          snd (SessionStorage.deleteSession (pend_sessionId c)
                 (sessionStorage this)) in
        (mk storage (isServerRunning this) (port this)
            (setNth p c' (pending this)),
         [Invoke (CallReject p
                    (feedbackTimeoutError (pend_timeoutSeconds c)))])
      else (this, [])
  | None => (this, [])
  end.

(** [openFeedbackPage(sessionId)] settles: with [None] it succeeded, with
    [Some error] the [catch] handler of [collectFeedback] runs. *)
Definition onOpenSettled (p : Promise) (outcome : option MCPError) (this : t)
  : t * list Effect :=
  match nth_error (pending this) p with
  | Some c =>
      if pend_open c then
        match outcome with
        | None =>
            let c' := {| pend_sessionId := pend_sessionId c;
                         pend_timeoutSeconds := pend_timeoutSeconds c;
                         pend_timer := pend_timer c; pend_open := false |} in
            (with_pending this (setNth p c' (pending this)), [])
        | Some error =>
            (* clearTimeout; deleteSession; reject(error) *)
            let c' := {| pend_sessionId := pend_sessionId c;
                         pend_timeoutSeconds := pend_timeoutSeconds c;
                         pend_timer := false; pend_open := false |} in
            let storage :=
              snd (SessionStorage.deleteSession (pend_sessionId c)
                     (sessionStorage this)) in
            (mk storage (isServerRunning this) (port this)
                (setNth p c' (pending this)),
             [Invoke (CallReject p error)])
        end
      else (this, [])
  | None => (this, [])
  end.

(** JavaScript truthiness of [feedbackData.text]. *)
Definition hasText (data : FeedbackData) : bool :=
  match text data with
  | Some s => negb (String.eqb s "")
  | None => false
  end.

(** [feedbackData.images && feedbackData.images.length > 0] *)
Definition hasImages (data : FeedbackData) : bool :=
  match images data with
  | Some (_ :: _) => true
  | _ => false
  end.

(** [handleFeedbackSubmission(socket, feedbackData)].  [processed] is the
    outcome of [imageProcessor.processImages]: the processed images or
    the message of the error it threw.  The handler is taken as one
    atomic step. *)
Definition handleFeedbackSubmission (now : Z) (feedbackData : FeedbackData)
  (processed : list ImageData + string) (this : t) : t * list Effect :=
  match SessionStorage.getSession now (sessionId feedbackData)
          (sessionStorage this) with
  | (None, storage) =>
      (with_storage this storage,
       [Emit (feedback_error "Session does not exist or has expired")])
  | (Some session, storage) =>
      if negb (hasText feedbackData) && negb (hasImages feedbackData) then
        (with_storage this storage,
         [Emit (feedback_error
                  "Please provide text feedback or upload images")])
      else
        let continue (processedFeedback : FeedbackData) :=
          let feedback' := feedback session ++ [processedFeedback] in
          let updates :=
            {| upd_workSummary := None; upd_feedback := Some feedback';
               upd_startTime := None; upd_timeout := None;
               upd_resolve := None; upd_reject := None |} in
          let storage1 :=
            snd (SessionStorage.updateSession (sessionId feedbackData)
                   updates storage) in
          match resolve session with
          | Some k =>
              (with_storage this
                 (snd (SessionStorage.deleteSession (sessionId feedbackData)
                         storage1)),
               [Emit feedback_submitted; Invoke (CallResolve k feedback')])
          | None =>
              (with_storage this storage1, [Emit feedback_submitted])
          end in
        if hasImages feedbackData then
          match processed with
          | inl processedImages =>
              continue
                {| text := text feedbackData;
                   images := Some processedImages;
                   timestamp := timestamp feedbackData;
                   sessionId := sessionId feedbackData |}
          | inr msg =>
              (with_storage this storage,
               [Emit (feedback_error
                        ("Image processing failed: " ++ msg)%string)])
          end
        else continue feedbackData
  end.

(** The loop of the ['request_session'] handler. *)
Fixpoint latestLoop (entries : list (string * SessionData))
  (latestSession : option (string * SessionData))
  : option (string * SessionData) :=
  match entries with
  | [] => latestSession
  | (sessionId, session) :: rest =>
      match latestSession with
      | None => latestLoop rest (Some (sessionId, session))
      | Some (_, latest) =>
          if startTime session >? startTime latest
          then latestLoop rest (Some (sessionId, session))
          else latestLoop rest latestSession
      end
  end.

(** [socket.on('request_session', ...)] *)
Definition onRequestSession (this : t) : SocketEvent :=
  let activeSessions := SessionStorage.getAllSessions (sessionStorage this) in
  match latestLoop activeSessions None with
  | Some (sessionId, session) =>
      session_assigned sessionId (workSummary session)
  | None => no_active_session
  end.

(** The tick of [setInterval] armed by [startCleanupTimer]. *)
Definition onCleanupTick (now : Z) (this : t) : t * list Effect :=
  if SessionStorage.cleanupInterval (sessionStorage this) then
    let '(_, calls, storage) :=
      SessionStorage.cleanupExpiredSessions now (sessionStorage this) in
    (with_storage this storage, map Invoke calls)
  else (this, []).

(** [stop()].  [closeResult] is what [this.server.close] reports (an
    error, which also stands for the 5 s close timeout, or none); the
    third component is the error [stop] throws. *)
Definition stop (closeResult : option MCPError) (this : t)
  : t * list Effect * option MCPError :=
  if negb (isServerRunning this) then (this, [], None)
  else
    let currentPort := port this in
    let '(calls, storage1) := SessionStorage.clear (sessionStorage this) in
    let storage2 := SessionStorage.stopCleanupTimer storage1 in
    let effects :=
      map Invoke calls
        ++ [ClearSessions; DisconnectSockets; IoClose; ServerClose] in
    match closeResult with
    | Some error =>
        (mk storage2 true (port this) (pending this), effects, Some error)
    | None =>
        (mk storage2 false (port this) (pending this),
         effects ++ [WaitForPortRelease currentPort 3000], None)
    end.

(** Everything that can happen to a server, as one event type. *)
Inductive Event :=
| EvCollectFeedback (workSummary : string) (timeoutSeconds now : Z)
    (sessionId : string)
| EvTestSession (work_summary : string) (timeout_seconds now : Z)
    (sessionId : string)
| EvTimeout (p : Promise)
| EvOpenSettled (p : Promise) (outcome : option MCPError)
| EvSubmitFeedback (now : Z) (data : FeedbackData)
    (processed : list ImageData + string)
| EvRequestSession
| EvCleanupTick (now : Z)
| EvStop (closeResult : option MCPError).

Definition step (ev : Event) (this : t) : t * list Effect :=
  match ev with
  | EvCollectFeedback w s now id =>
      let '(_, this', effs) := collectFeedback w s now id this in (this', effs)
  | EvTestSession w s now id => (testSession w s now id this, [])
  | EvTimeout p => onTimeout p this
  | EvOpenSettled p outcome => onOpenSettled p outcome this
  | EvSubmitFeedback now data processed =>
      handleFeedbackSubmission now data processed this
  | EvRequestSession => (this, [Emit (onRequestSession this)])
  | EvCleanupTick now => onCleanupTick now this
  | EvStop closeResult =>
      let '(this', effs, _) := stop closeResult this in (this', effs)
  end.

Fixpoint run (evs : list Event) (this : t) : t * list Effect :=
  match evs with
  | [] => (this, [])
  | ev :: evs' =>
      let '(this1, effs1) := step ev this in
      let '(this2, effs2) := run evs' this1 in
      (this2, effs1 ++ effs2)
  end.

(** A server that listens on [port] with an empty table. *)
Definition started (port : Z) : t :=
  mk (SessionStorage.new 60000) true port [].

(** How often the callables of promise [p] were called. *)
Definition invocations (p : Promise) (effs : list Effect) : nat :=
  List.length
    (filter (fun e => match e with
                      | Invoke c => Nat.eqb (call_promise c) p
                      | _ => false
                      end) effs).

End WebServer.

(* ------------------------------------------------------------------ *)
(** * The operating system, as seen by the port negotiator *)

Module Os.

(** [interface ProcessInfo] ([src/utils/process-manager.ts]) *)
Record ProcessInfo := {
  pid : Z;
  name : string;
  command : string;
  port : option Z
}.

(** How [server.listen(port)] of a fresh [net] server ends in
    [isPortAvailable]: the listen callback, the ['error'] event, or
    neither within one second. *)
Inductive ListenOutcome := Listening | ListenError | ListenTimeout.

(** The facilities the sources reach through [net], [child_process],
    [setTimeout] and [Math.random], over a state [W] of the machine. *)
Class Facilities (W : Type) := {
  listen : Z -> W -> ListenOutcome * W;
  portProcess : Z -> W -> option ProcessInfo * W;
  kill : Z -> bool -> W -> bool * W;
  sleep : Z -> W -> W;
  random : W -> Q * W
}.

(** The calls made, in order, each with what it answered. *)
Inductive OsCall :=
| CListen (port : Z) (outcome : ListenOutcome)
| CPortProcess (port : Z) (owner : option ProcessInfo)
| CKill (pid : Z) (force : bool) (done : bool)
| CSleep (ms : Z)
| CRandom (r : Q).

Record Sys (W : Type) := mkSys {
  world : W;
  calls : list OsCall
}.
Arguments mkSys {W} _ _.
Arguments world {W} _.
Arguments calls {W} _.

(** An [async] function: it returns a value or throws, and moves the
    machine. *)
Inductive Outcome (A : Type) :=
| Returned (a : A)
| Thrown (e : MCPError).
Arguments Returned {A} _.
Arguments Thrown {A} _.

Definition M (W A : Type) : Type := Sys W -> Outcome A * Sys W.

Definition ret {W A : Type} (a : A) : M W A := fun s => (Returned a, s).

Definition throw {W A : Type} (e : MCPError) : M W A := fun s => (Thrown e, s).

Definition bind {W A B : Type} (m : M W A) (k : A -> M W B) : M W B :=
  fun s =>
    match m s with
    | (Returned a, s') => k a s'
    | (Thrown e, s') => (Thrown e, s')
    end.

(** Lift one facility, recording the call and its answer. *)
Definition call {W A : Type} (c : A -> OsCall) (f : W -> A * W) : M W A :=
  fun s =>
    let '(a, w') := f (world s) in
    (Returned a, mkSys w' (calls s ++ [c a])).

(** The bind attempts among the calls: port and outcome. *)
Definition probes (cs : list OsCall) : list (Z * ListenOutcome) :=
  flat_map (fun c => match c with CListen p o => [(p, o)] | _ => [] end) cs.

(** The processes a signal was sent to. *)
Definition killedPids (cs : list OsCall) : list Z :=
  flat_map (fun c => match c with CKill p _ _ => [p] | _ => [] end) cs.

Definition isListening (o : ListenOutcome) : bool :=
  match o with Listening => true | _ => false end.

End Os.

Declare Scope os_scope.
Delimit Scope os_scope with os.
Notation "x <- m ;; k" := (Os.bind m (fun x => k))
  (at level 61, m at next level, right associativity) : os_scope.
Notation "m ;;; k" := (Os.bind m (fun _ => k))
  (at level 61, right associativity) : os_scope.

(* ------------------------------------------------------------------ *)
(** * [class ProcessManager] ([src/utils/process-manager.ts]) *)

Module ProcessManager.
Import Os.

(** [String.prototype.toLowerCase] on the ASCII letters. *)
Definition lowerChar (c : ascii) : ascii :=
  let n := nat_of_ascii c in
  if ((65 <=? n) && (n <=? 90))%nat then ascii_of_nat (n + 32) else c.

Fixpoint toLowerCase (s : string) : string :=
  match s with
  | EmptyString => EmptyString
  | String c s' => String (lowerChar c) (toLowerCase s')
  end.

(** [s.startsWith(sub)] *)
Fixpoint startsWith (s sub : string) : bool :=
  match sub, s with
  | EmptyString, _ => true
  | String _ _, EmptyString => false
  | String b sub', String a s' => Ascii.eqb a b && startsWith s' sub'
  end.

(** [s.includes(sub)] *)
Fixpoint includes (s sub : string) : bool :=
  startsWith s sub ||
  match s with
  | EmptyString => false
  | String _ s' => includes s' sub
  end.

Definition safePrefixes : list string :=
  ["node"; "npm"; "npx"; "mcp-interactive-feedback"; "tsx"]%string.

Definition dangerousNames : list string :=
  ["system"; "kernel"; "init"; "systemd"; "explorer.exe"; "winlogon.exe";
   "csrss.exe"; "smss.exe"; "services.exe"]%string.

(** A [for (const w of words) if (name.includes(w) || command.includes(w))
    return ...] loop: whether it returns. *)
Fixpoint matchesAny (words : list string) (processName processCommand : string)
  : bool :=
  match words with
  | [] => false
  | w :: rest =>
      if includes processName w || includes processCommand w then true
      else matchesAny rest processName processCommand
  end.

Definition isSafeToKill (processInfo : ProcessInfo) : bool :=
  let processName := toLowerCase (name processInfo) in
  let processCommand := toLowerCase (command processInfo) in
  if matchesAny dangerousNames processName processCommand then false
  else if matchesAny safePrefixes processName processCommand then true
  else false.

Section WithOs.
Context {W : Type} {os : Facilities W}.
Local Open Scope os_scope.

(** [getPortProcess(port)]: the owner found by the platform's tools,
    [None] on any failure. *)
Definition getPortProcess (port : Z) : M W (option ProcessInfo) :=
  call (CPortProcess port) (portProcess port).

(** [killProcess(pid, force)] *)
Definition killProcess (pid : Z) (force : bool) : M W bool :=
  call (CKill pid force) (kill pid force).

(** [await new Promise(resolve => setTimeout(resolve, ms))] *)
Definition delay (ms : Z) : M W unit :=
  call (fun _ => CSleep ms) (fun w => (tt, sleep ms w)).

Definition unsafeError (processInfo : ProcessInfo) : MCPError :=
  {| message := UnsafeProcess (name processInfo) (pid processInfo);
     code := "UNSAFE_PROCESS_KILL" |}.

Definition forceReleasePort (port : Z) : M W bool :=
  processInfo <- getPortProcess port ;;
  match processInfo with
  | None => ret true
  | Some processInfo =>
      if negb (isSafeToKill processInfo) then throw (unsafeError processInfo)
      else
        success <- killProcess (pid processInfo) false ;;
        success <- (if negb success
                    then delay 2000 ;;; killProcess (pid processInfo) true
                    else ret success) ;;
        if success then
          delay 1000 ;;;
          (stillOccupied <- getPortProcess port ;;
           match stillOccupied with
           | None => ret true
           | Some _ => ret false
           end)
        else ret false
  end.

End WithOs.

End ProcessManager.

(* ------------------------------------------------------------------ *)
(** * [class PortManager] ([src/utils/port-manager.ts]) *)

Module PortManager.
Import Os.

Definition PORT_RANGE_START : Z := 5000.
Definition PORT_RANGE_END : Z := 5019.
Definition MAX_RETRIES : Z := 20.

(** [Math.floor(r * (65535 - 1024) + 1024)] for [r = Math.random()] *)
Definition randomPortOf (r : Q) : Z :=
  Qfloor (r * inject_Z (65535 - 1024) + inject_Z 1024).

Section WithOs.
Context {W : Type} {os : Facilities W}.
Local Open Scope os_scope.

Definition isPortAvailable (port : Z) : M W bool :=
  outcome <- call (CListen port) (listen port) ;;
  match outcome with
  | Listening => ret true
  | ListenError => ret false
  | ListenTimeout => ret false
  end.

(** [for (let port = ...; port <= this.PORT_RANGE_END; port++)]: the loop
    from [port] on; [fuel] bounds the number of iterations. *)
Fixpoint rangeLoop (fuel : nat) (port : Z) : M W (option Z) :=
  match fuel with
  | O => ret None
  | S fuel' =>
      if port <=? PORT_RANGE_END then
        available <- isPortAvailable port ;;
        if (available : bool) then ret (Some port)
        else rangeLoop fuel' (port + 1)
      else ret None
  end.

(** [for (let i = ...; i < this.MAX_RETRIES; i++)] *)
Fixpoint randomLoop (fuel : nat) (i : Z) : M W (option Z) :=
  match fuel with
  | O => ret None
  | S fuel' =>
      if i <? MAX_RETRIES then
        r <- call CRandom random ;;
        let randomPort := randomPortOf r in
        available <- isPortAvailable randomPort ;;
        if (available : bool) then ret (Some randomPort)
        else randomLoop fuel' (i + 1)
      else ret None
  end.

Definition noPortsError : MCPError :=
  {| message := NoAvailablePortsFound; code := "NO_AVAILABLE_PORTS" |}.

(** [findAvailablePort(preferredPort?)].  [if (preferredPort)] holds for
    a number other than [0]. *)
Definition findAvailablePort (preferredPort : option Z) : M W Z :=
  found <- match preferredPort with
           | Some p =>
               if p =? 0 then ret None
               else
                 available <- isPortAvailable p ;;
                 if (available : bool) then ret (Some p) else ret None
           | None => ret None
           end ;;
  match found with
  | Some p => ret p
  | None =>
      inRange <- rangeLoop
                   (Z.to_nat (PORT_RANGE_END - PORT_RANGE_START + 1))
                   PORT_RANGE_START ;;
      match inRange with
      | Some p => ret p
      | None =>
          atRandom <- randomLoop (Z.to_nat MAX_RETRIES) 0 ;;
          match atRandom with
          | Some p => ret p
          | None => throw noPortsError
          end
      end
  end.

Definition forcePort (port : Z) (killProcess : bool) : M W Z :=
  available <- isPortAvailable port ;;
  if (available : bool) then ret port
  else if negb killProcess then
    throw {| message := PortOccupiedKillDisabled port;
             code := "PORT_OCCUPIED" |}
  else
    released <- ProcessManager.forceReleasePort port ;;
    if negb released then
      throw {| message := FailedToForceRelease port;
               code := "PORT_FORCE_RELEASE_FAILED" |}
    else
      finalCheck <- isPortAvailable port ;;
      if negb finalCheck then
        throw {| message := PortStillOccupied port;
                 code := "PORT_STILL_OCCUPIED" |}
      else ret port.

End WithOs.

End PortManager.

(* ------------------------------------------------------------------ *)
(** * A machine to run the negotiator on

    Ports are owned by processes; a bind succeeds on a port without
    owner; a signal removes its target unless the target ignores the
    graceful signal; random numbers come from a tape. *)

Module Machine.
Import Os.

Record t := mk {
  owners : list (Z * ProcessInfo);
  stubborn : list Z;
  entropy : list Q
}.

Definition owner (p : Z) (m : t) : option ProcessInfo :=
  match find (fun e => fst e =? p) (owners m) with
  | Some e => Some (snd e)
  | None => None
  end.

Definition running (target : Z) (m : t) : bool :=
  existsb (fun e => pid (snd e) =? target) (owners m).

Definition m_listen (p : Z) (m : t) : ListenOutcome * t :=
  (match owner p m with Some _ => ListenError | None => Listening end, m).

Definition m_portProcess (p : Z) (m : t) : option ProcessInfo * t :=
  (owner p m, m).

Definition m_kill (target : Z) (force : bool) (m : t) : bool * t :=
  if running target m then
    (true,
     if force || negb (existsb (Z.eqb target) (stubborn m))
     then mk (filter (fun e => negb (pid (snd e) =? target)) (owners m))
             (stubborn m) (entropy m)
     else m)
  else (false, m).

Definition m_sleep (ms : Z) (m : t) : t := m.

Definition m_random (m : t) : Q * t :=
  match entropy m with
  | r :: rest => (r, mk (owners m) (stubborn m) rest)
  | [] => (0%Q, m)
  end.

#[global] Instance facilities : Facilities t := {
  listen := m_listen;
  portProcess := m_portProcess;
  kill := m_kill;
  sleep := m_sleep;
  random := m_random
}.

Definition boot (m : t) : Sys t := mkSys m [].

Definition proc (id : Z) (nm cmd : string) (p : Z) : ProcessInfo :=
  {| pid := id; name := nm; command := cmd; port := Some p |}.

End Machine.

(* ------------------------------------------------------------------ *)
(** * Vocabulary of the specification *)

(** [deadline = createdAt + timeout] *)
Definition deadline (session : SessionData) : Z :=
  startTime session + timeout session.

(** The test [elapsed > session.timeout] the sources use at time [now]. *)
Definition expiredAt (now : Z) (session : SessionData) : bool :=
  now - startTime session >? timeout session.

(** The invocation of [reject] that the sweep owes an entry. *)
Definition timeoutCallOf (e : string * SessionData) : list Call :=
  match reject (snd e) with
  | Some k => [CallReject k (SessionStorage.timeoutError (snd e))]
  | None => []
  end.


(** The table [m] without the keys [ks]. *)
Definition removeKeys (ks : list string) (m : JsMap.t SessionData)
  : JsMap.t SessionData :=
  filter (fun e => negb (existsb (String.eqb (fst e)) ks)) m.

(** A submission with text and no image, for session ["s1"]. *)
Definition looksGood : FeedbackData :=
  {| text := Some "looks good"%string; images := None;
     timestamp := 1000; sessionId := "s1" |}.

(** [w] occurs in [s] up to the case of ASCII letters: some stretch of
    [s] lowers to [w]. *)
Definition containsIgnoringCase (s w : string) : Prop :=
  exists pre mid post : string,
    s = (pre ++ mid ++ post)%string /\ ProcessManager.toLowerCase mid = w.

(** A word of a list occurs in the name or in the command line of a
    process, whatever the case. *)
Definition mentions (words : list string) (p : Os.ProcessInfo) : Prop :=
  exists w, In w words /\
    (containsIgnoringCase (Os.name p) w \/
     containsIgnoringCase (Os.command p) w).

(** [n] consecutive ports from [start] on. *)
Fixpoint zseq (start : Z) (n : nat) : list Z :=
  match n with
  | O => []
  | S n' => start :: zseq (start + 1) n'
  end.

(** No bind attempt of the list succeeded. *)
Definition allFailed (ps : list (Z * Os.ListenOutcome)) : Prop :=
  Forall (fun x => Os.isListening (snd x) = false) ps.

(** The statements of [findAvailablePort] that follow the attempt on the
    preferred port. *)
Definition afterPreferred {W : Type} {os : Os.Facilities W} : Os.M W Z :=
  (inRange <- PortManager.rangeLoop
                (Z.to_nat (PortManager.PORT_RANGE_END
                           - PortManager.PORT_RANGE_START + 1))
                PortManager.PORT_RANGE_START ;;
   match inRange with
   | Some p => Os.ret p
   | None =>
       atRandom <- PortManager.randomLoop
                     (Z.to_nat PortManager.MAX_RETRIES) 0 ;;
       match atRandom with
       | Some p => Os.ret p
       | None => Os.throw PortManager.noPortsError
       end
   end)%os.



Definition stillOccupiedError (port : Z) : MCPError :=
  {| message := PortStillOccupied port; code := "PORT_STILL_OCCUPIED" |}.


(** The outcome of the last bind test of [forcePort]. *)
Definition finalCheck (port : Z) (o : Os.ListenOutcome) : Os.Outcome Z :=
  if Os.isListening o then Os.Returned port
  else Os.Thrown (stillOccupiedError port).







(** The feedback stored for session ["s1"]. *)
Definition feedback_of_s1 (this : SessionStorage.t)
  : option (list FeedbackData) :=
  match JsMap.get "s1" (SessionStorage.sessions this) with
  | Some s => Some (feedback s)
  | None => None
  end.

(** What a submission becomes before it is stored: the submission itself
    when it carries text and no image, the submission with the processed
    images when it carries images and [processImages] returned them; or
    the text of the ['feedback_error'] it is answered with. *)
Definition acceptedForm (data : FeedbackData)
  (processed : list ImageData + string) : FeedbackData + string :=
  if negb (WebServer.hasText data) && negb (WebServer.hasImages data) then
    inr "Please provide text feedback or upload images"%string
  else if WebServer.hasImages data then
    match processed with
    | inl processedImages =>
        inl {| text := text data; images := Some processedImages;
               timestamp := timestamp data; sessionId := sessionId data |}
    | inr msg => inr ("Image processing failed: " ++ msg)%string
    end
  else inl data.

(** A session with one more answer. *)
Definition answered (s : SessionData) (fb : FeedbackData) : SessionData :=
  {| workSummary := workSummary s; feedback := feedback s ++ [fb];
     startTime := startTime s; timeout := timeout s;
     resolve := resolve s; reject := reject s |}.


(* ------------------------------------------------------------------ *)
(** * More of the sources *)

(** [`${n}`] for an integer [n]. *)
Definition numberToString (n : Z) : string :=
  NilZero.string_of_int (Z.to_int n).

(** JavaScript truthiness of an optional string. *)
Definition truthyString (o : option string) : option string :=
  match o with
  | Some s => if String.eqb s "" then None else Some s
  | None => None
  end.

(** ** More of [class WebServer] *)

Module WebHandlers.

(** [socket.on('get_work_summary', ...)]: the message emitted and the
    server afterwards ([getSession] may drop an expired session). *)
Definition onGetWorkSummary (now : Z) (feedback_session_id : string)
  (this : WebServer.t) : WebServer.SocketEvent * WebServer.t :=
  match SessionStorage.getSession now feedback_session_id
          (WebServer.sessionStorage this) with
  | (Some session, storage) =>
      (WebServer.work_summary_data (workSummary session),
       WebServer.with_storage this storage)
  | (None, storage) =>
      (WebServer.feedback_error "Session does not exist or has expired",
       WebServer.with_storage this storage)
  end.

(** The payload of ['latest_summary_response']. *)
Inductive LatestSummaryResponse :=
| latest_summary (work_summary session_id : string) (timestamp : Z)
| no_latest_summary.

(** [socket.on('request_latest_summary', ...)] *)
Definition onRequestLatestSummary (this : WebServer.t)
  : LatestSummaryResponse :=
  let activeSessions :=
    SessionStorage.getAllSessions (WebServer.sessionStorage this) in
  match WebServer.latestLoop activeSessions None with
  | Some (sessionId, session) =>
      if String.eqb (workSummary session) "" then no_latest_summary
      else latest_summary (workSummary session) sessionId (startTime session)
  | None => no_latest_summary
  end.

(** The members of [Config] that [generateFeedbackUrl] reads. *)
Record UrlConfig := {
  useFixedUrl : bool;
  serverBaseUrl : option string;
  serverHost : option string
}.

(** [generateFeedbackUrl(sessionId)], for a server on [port]. *)
Definition generateFeedbackUrl (config : UrlConfig) (port : Z)
  (sessionId : string) : string :=
  let host := orElse (truthyString (serverHost config)) "localhost"%string in
  if useFixedUrl config then
    match truthyString (serverBaseUrl config) with
    | Some base => base
    | None => ("http://" ++ host ++ ":" ++ numberToString port)%string
    end
  else
    match truthyString (serverBaseUrl config) with
    | Some base => (base ++ "/?mode=feedback&session=" ++ sessionId)%string
    | None =>
        ("http://" ++ host ++ ":" ++ numberToString port
         ++ "/?mode=feedback&session=" ++ sessionId)%string
    end.

End WebHandlers.

(** ** More of [class PortManager], and [WebServer.start] *)

Module Timed.
Import Os.

(** [Date.now()] *)
Class Clock (W : Type) := {
  dateNow : W -> Z * W
}.

(** [try { body } catch (error) { handler(error) }] *)
Definition tryCatch {W A : Type} (body : M W A) (handler : MCPError -> M W A)
  : M W A :=
  fun s =>
    match body s with
    | (Returned a, s') => (Returned a, s')
    | (Thrown e, s') => handler e s'
    end.

(** [interface PortInfo] *)
Record PortInfo := {
  info_port : Z;
  info_available : bool;
  info_pid : option Z
}.

Definition releaseTimeoutError (port timeoutMs : Z) : MCPError :=
  {| message :=
       OtherMessage
         ("Port " ++ numberToString port ++ " was not released within "
          ++ numberToString timeoutMs ++ "ms")%string;
     code := "PORT_RELEASE_TIMEOUT" |}.

Definition forceReleaseFailedError (port : Z) : MCPError :=
  {| message := FailedToForceRelease port; code := "FORCE_RELEASE_FAILED" |}.

Definition startError : MCPError :=
  {| message := OtherMessage "Failed to start web server";
     code := "WEB_SERVER_START_ERROR" |}.

Section WithOs.
Context {W : Type} {os : Facilities W} {clock : Clock W}.
Local Open Scope os_scope.

Definition now : M W Z :=
  fun s =>
    let '(t, w') := dateNow (world s) in
    (Returned t, mkSys w' (calls s)).

(** [isPortTrulyAvailable(port)] *)
Definition isPortTrulyAvailable (port : Z) : M W bool :=
  basicCheck <- PortManager.isPortAvailable port ;;
  if negb basicCheck then ret false
  else
    processInfo <- ProcessManager.getPortProcess port ;;
    match processInfo with
    | Some _ => ret false
    | None => ret true
    end.

(** [getPortInfo(port)] *)
Definition getPortInfo (port : Z) : M W PortInfo :=
  available <- PortManager.isPortAvailable port ;;
  ret {| info_port := port; info_available := available;
         info_pid := None |}.

(** The loop of [getPortRangeStatus] from [port] on, [results] being the
    array so far. *)
Fixpoint statusLoop (fuel : nat) (port : Z) (results : list PortInfo)
  : M W (list PortInfo) :=
  match fuel with
  | O => ret results
  | S fuel' =>
      if port <=? PortManager.PORT_RANGE_END then
        info <- getPortInfo port ;;
        statusLoop fuel' (port + 1) (results ++ [info])
      else ret results
  end.

Definition getPortRangeStatus : M W (list PortInfo) :=
  statusLoop
    (Z.to_nat (PortManager.PORT_RANGE_END - PortManager.PORT_RANGE_START + 1))
    PortManager.PORT_RANGE_START [].

(** The [while (Date.now() - startTime < timeoutMs)] loop of
    [waitForPortRelease].  [None] stands for a loop still running after
    [fuel] rounds. *)
Fixpoint waitLoop (fuel : nat) (port timeoutMs startTime : Z)
  : M W (option unit) :=
  match fuel with
  | O => ret None
  | S fuel' =>
      t <- now ;;
      if t - startTime <? timeoutMs then
        released <- isPortTrulyAvailable port ;;
        if (released : bool) then ret (Some tt)
        else ProcessManager.delay 200 ;;; waitLoop fuel' port timeoutMs startTime
      else throw (releaseTimeoutError port timeoutMs)
  end.

(** [waitForPortRelease(port, timeoutMs)] *)
Definition waitForPortRelease (fuel : nat) (port timeoutMs : Z)
  : M W (option unit) :=
  startTime <- now ;;
  waitLoop fuel port timeoutMs startTime.

(** [cleanupPort(port)] *)
Definition cleanupPort (fuel : nat) (port : Z) : M W (option unit) :=
  processInfo <- ProcessManager.getPortProcess port ;;
  match processInfo with
  | None => ret (Some tt)
  | Some processInfo =>
      if negb (ProcessManager.isSafeToKill processInfo) then ret (Some tt)
      else
        killed <- ProcessManager.killProcess (pid processInfo) false ;;
        if (killed : bool) then
          tryCatch (waitForPortRelease fuel port 5000)
            (fun _ => ret (Some tt))
        else ret (Some tt)
  end.

(** [PortManager.forceReleasePort(port)] *)
Definition forceReleasePort (fuel : nat) (port : Z) : M W (option unit) :=
  tryCatch (waitForPortRelease fuel port 3000)
    (fun _ => throw (forceReleaseFailedError port)).

(** The members of [Config] that [WebServer.start] reads; an option that
    is not set counts as [false]. *)
Record StartConfig := {
  webPort : Z;
  forcePort : bool;
  killProcessOnPortConflict : bool;
  cleanupPortOnStart : bool
}.

(** The choice of the port in [start()]. *)
Definition choosePort (fuel : nat) (config : StartConfig) : M W (option Z) :=
  if forcePort config then
    cleaned <- (if cleanupPortOnStart config
                then cleanupPort fuel (webPort config)
                else ret (Some tt)) ;;
    match cleaned with
    | None => ret None
    | Some _ =>
        port <- PortManager.forcePort (webPort config)
                  (killProcessOnPortConflict config || false) ;;
        ret (Some port)
    end
  else
    cleaned <- (if cleanupPortOnStart config && negb (webPort config =? 0)
                then cleanupPort fuel (webPort config)
                else ret (Some tt)) ;;
    match cleaned with
    | None => ret None
    | Some _ =>
        port <- PortManager.findAvailablePort (Some (webPort config)) ;;
        ret (Some port)
    end.

(** [start()].  [listenResult] is what [this.server.listen] reports: an
    error, which also stands for the 10 s start timeout, or none.  The
    result is the server afterwards and the error [start] throws, if any;
    [None] stands for a wait still running after [fuel] rounds. *)
Definition start (fuel : nat) (config : StartConfig)
  (listenResult : option MCPError) (this : WebServer.t)
  : M W (option (WebServer.t * option MCPError)) :=
  if WebServer.isServerRunning this then ret (Some (this, None))
  else
    chosen <- tryCatch
                (chosen <- choosePort fuel config ;; ret (inl chosen))
                (fun error => ret (inr error)) ;;
    match chosen with
    | inr _ => ret (Some (this, Some startError))
    | inl None => ret None
    | inl (Some port) =>
        let this1 :=
          WebServer.mk (WebServer.sessionStorage this)
            (WebServer.isServerRunning this) port (WebServer.pending this) in
        match listenResult with
        | Some _ => ret (Some (this1, Some startError))
        | None =>
            ret (Some (WebServer.mk (WebServer.sessionStorage this) true
                         port (WebServer.pending this), None))
        end
    end.

End WithOs.

End Timed.

(** ** A machine with a clock

    The machine of above and the time in milliseconds; waiting moves the
    time on, nothing else does. *)

Module TimedMachine.
Import Os.

Definition t : Type := Machine.t * Z.

Definition lift {A : Type} (f : Machine.t -> A * Machine.t) (w : t) : A * t :=
  let '(a, m) := f (fst w) in (a, (m, snd w)).

#[global] Instance facilities : Facilities t := {
  listen p := lift (Machine.m_listen p);
  portProcess p := lift (Machine.m_portProcess p);
  kill target force := lift (Machine.m_kill target force);
  sleep ms w := (fst w, snd w + ms);
  random := lift Machine.m_random
}.

#[global] Instance clock : Timed.Clock t := {
  Timed.dateNow w := (snd w, w)
}.

Definition boot (m : Machine.t) (time : Z) : Sys t := mkSys (m, time) [].

End TimedMachine.

(* ------------------------------------------------------------------ *)
(** * Vocabulary for transcripts *)

(** Every signal of the transcript went to a process that an inquiry of
    the same transcript reported as owner of a port and that
    [isSafeToKill] accepts. *)
Definition signalsOnlySafe (tr : list Os.OsCall) : Prop :=
  forall target force done,
    In (Os.CKill target force done) tr ->
    exists port occupant,
      In (Os.CPortProcess port (Some occupant)) tr /\
      Os.pid occupant = target /\
      ProcessManager.isSafeToKill occupant = true.

(** Every signal of the transcript is the graceful one. *)
Definition gracefulOnly (tr : list Os.OsCall) : Prop :=
  forall target force done,
    In (Os.CKill target force done) tr -> force = false.

(** The calls a computation adds to the transcript satisfy [T], from any
    state. *)
Definition Traces {W A : Type} (m : Os.M W A) (T : list Os.OsCall -> Prop)
  : Prop :=
  forall s, exists tr, Os.calls (snd (m s)) = Os.calls s ++ tr /\ T tr.

(** No signal is sent in the transcript. *)
Definition quiet (tr : list Os.OsCall) : Prop := Os.killedPids tr = [].

(** Every signal of the transcript went to the process [target]. *)
Definition signalsOnlyTo (target : Z) (tr : list Os.OsCall) : Prop :=
  forall t force done, In (Os.CKill t force done) tr -> t = target.

(** No bind test is made in the transcript. *)
Definition probeless (tr : list Os.OsCall) : Prop := Os.probes tr = [].

(** Any transcript. *)
Definition anyCalls (tr : list Os.OsCall) : Prop := True.

(** From state [s], what the computation adds to the transcript begins
    with the calls [pre]. *)
Definition Begins {W A : Type} (m : Os.M W A) (s : Os.Sys W)
  (pre : list Os.OsCall) : Prop :=
  exists rest, Os.calls (snd (m s)) = Os.calls s ++ pre ++ rest.

(* ------------------------------------------------------------------ *)
(** * [class Logger]

    A message is rendered from the time stamp of [formatTimestamp()],
    given as an argument, and from the renderings of the extra
    arguments, given as strings.  The escape character is a byte of its
    own in every encoding of the sources' strings, so the byte-wise
    reading of the colour pattern is the reading by code units. *)

Module Logger.

Inductive LogLevel := error | warn | info | debug | silent.

Definition levelName (level : LogLevel) : string :=
  match level with
  | error => "error"
  | warn => "warn"
  | info => "info"
  | debug => "debug"
  | silent => "silent"
  end.

(** [const LOG_LEVELS] *)
Definition LOG_LEVELS (level : LogLevel) : Z :=
  match level with
  | error => 0
  | warn => 1
  | info => 2
  | debug => 3
  | silent => 999
  end.

Definition ESC : ascii := "027"%char.

(** [const LOG_COLORS] *)
Definition LOG_COLORS (level : LogLevel) : string :=
  match level with
  | error => String ESC "[31m"
  | warn => String ESC "[33m"
  | info => String ESC "[36m"
  | debug => String ESC "[37m"
  | silent => ""
  end.

Definition RESET_COLOR : string := String ESC "[0m".

Record t := mk {
  currentLevel : LogLevel;
  logFile : option string;
  fileLoggingEnabled : bool;
  colorsDisabled : bool
}.

(** The field initialisers of the class. *)
Definition new : t :=
  {| currentLevel := info; logFile := None; fileLoggingEnabled := false;
     colorsDisabled := false |}.

Definition setLevel (level : LogLevel) (this : t) : t :=
  mk level (logFile this) (fileLoggingEnabled this) (colorsDisabled this).

Definition disableColors (this : t) : t :=
  mk (currentLevel this) (logFile this) (fileLoggingEnabled this) true.

(** [shouldLog(level)] *)
Definition shouldLog (level : LogLevel) (this : t) : bool :=
  match currentLevel this with
  | silent => false
  | current => LOG_LEVELS level <=? LOG_LEVELS current
  end.

(** [String.prototype.toUpperCase] on the ASCII letters. *)
Definition upperChar (c : ascii) : ascii :=
  let n := nat_of_ascii c in
  if ((97 <=? n) && (n <=? 122))%nat then ascii_of_nat (n - 32) else c.

Fixpoint toUpperCase (s : string) : string :=
  match s with
  | EmptyString => EmptyString
  | String c s' => String (upperChar c) (toUpperCase s')
  end.

Fixpoint spaces (n : nat) : string :=
  match n with
  | O => EmptyString
  | S n' => String " " (spaces n')
  end.

(** [s.padEnd(targetLength)] *)
Definition padEnd (targetLength : nat) (s : string) : string :=
  (s ++ spaces (targetLength - String.length s))%string.

(** [args.map(...).join(' ')], on the renderings of the arguments. *)
Fixpoint joinSpace (args : list string) : string :=
  match args with
  | [] => ""
  | [a] => a
  | a :: rest => (a ++ " " ++ joinSpace rest)%string
  end.

(** [formatMessage(level, message, ...args)] *)
Definition formatMessage (timestamp : string) (level : LogLevel)
  (message : string) (args : list string) (this : t) : string :=
  let levelStr := padEnd 5 (toUpperCase (levelName level)) in
  let formattedMessage :=
    if colorsDisabled this then
      ("[" ++ timestamp ++ "] " ++ levelStr ++ " " ++ message)%string
    else
      (LOG_COLORS level ++ "[" ++ timestamp ++ "] " ++ levelStr
       ++ RESET_COLOR ++ " " ++ message)%string in
  match args with
  | [] => formattedMessage
  | _ :: _ => (formattedMessage ++ " " ++ joinSpace args)%string
  end.

(** The class [[0-9;]] of the colour pattern. *)
Definition isParameter (c : ascii) : bool :=
  let n := nat_of_ascii c in
  ((48 <=? n) && (n <=? 57) || (n =? 59))%nat.

(** The greedy [[0-9;]*]: what is left of [s] after it. *)
Fixpoint skipParameters (s : string) : string :=
  match s with
  | String c s' => if isParameter c then skipParameters s' else s
  | EmptyString => s
  end.

(** A match of [/\x1b\[[0-9;]*m/] at the start of [s]: what follows it.
    No character of the class is an [m], so the pattern matches only
    with the longest run of parameters. *)
Definition matchColorCode (s : string) : option string :=
  match s with
  | String c (String "[" s') =>
      if Ascii.eqb c ESC then
        match skipParameters s' with
        | String "m" rest => Some rest
        | _ => None
        end
      else None
  | _ => None
  end.

(** [text.replace(/\x1b\[[0-9;]*m/g, '')], from left to right: a match
    is dropped and the search goes on behind it, a character that starts
    no match is kept.  [fuel] bounds the number of steps. *)
Fixpoint replaceColorCodes (fuel : nat) (text : string) : string :=
  match fuel with
  | O => text
  | S fuel' =>
      match text with
      | EmptyString => EmptyString
      | String c text' =>
          match matchColorCode text with
          | Some rest => replaceColorCodes fuel' rest
          | None => String c (replaceColorCodes fuel' text')
          end
      end
  end.

(** [removeColorCodes(text)] *)
Definition removeColorCodes (text : string) : string :=
  replaceColorCodes (String.length text) text.

(** What [log] does: a line on one of the console's streams, a line
    appended to the log file.  A failure of the append, which [log]
    reports on the console, is left out. *)
Inductive Output :=
| ConsoleError (line : string)
| ConsoleWarn (line : string)
| ConsoleLog (line : string)
| AppendFile (file : string) (content : string).

(** [log(level, message, ...args)] *)
Definition log (timestamp : string) (level : LogLevel) (message : string)
  (args : list string) (this : t) : list Output :=
  if negb (shouldLog level this) then []
  else
    let formattedMessage :=
      formatMessage timestamp level message args this in
    (match level with
     | error => ConsoleError formattedMessage
     | warn => ConsoleWarn formattedMessage
     | _ => ConsoleLog formattedMessage
     end)
    :: (if fileLoggingEnabled this then
          match truthyString (logFile this) with
          | Some file =>
              [AppendFile file
                 (removeColorCodes formattedMessage ++ String "010" "")%string]
          | None => []
          end
        else []).

(** No escape character occurs in [s]. *)
Fixpoint plain (s : string) : bool :=
  match s with
  | EmptyString => true
  | String c s' => negb (Ascii.eqb c ESC) && plain s'
  end.

End Logger.

(* ------------------------------------------------------------------ *)
(** * [class ImageProcessor]

    The [sharp] library is an oracle: what it reads off an image, and
    the JPEG it encodes.  [toLowerCase] is the ASCII one; the names of
    the supported formats and MIME types have no letter that a letter
    outside ASCII is lowered to, so membership in the two lists is the
    same under both. *)

Module ImageProcessor.

(** [const SUPPORTED_FORMATS] *)
Definition SUPPORTED_FORMATS : list string :=
  ["jpeg"; "jpg"; "png"; "gif"; "webp"; "bmp"; "tiff"]%string.

Definition validMimeTypes : list string :=
  ["image/jpeg"; "image/jpg"; "image/png"; "image/gif"; "image/webp";
   "image/bmp"; "image/tiff"]%string.

Record t := mk {
  maxFileSize : Z;
  maxWidth : Z;
  maxHeight : Z
}.

(** [option || fallback] on numbers. *)
Definition orNumber (option : option Z) (fallback : Z) : Z :=
  match option with
  | Some n => if n =? 0 then fallback else n
  | None => fallback
  end.

(** [constructor(options)] *)
Definition new (optMaxFileSize optMaxWidth optMaxHeight : option Z) : t :=
  {| maxFileSize := orNumber optMaxFileSize (10 * 1024 * 1024);
     maxWidth := orNumber optMaxWidth 2048;
     maxHeight := orNumber optMaxHeight 2048 |}.

(** [s.split('.')] *)
Fixpoint splitDot (s : string) : list string :=
  match s with
  | EmptyString => [EmptyString]
  | String c s' =>
      if Ascii.eqb c "." then EmptyString :: splitDot s'
      else
        match splitDot s' with
        | piece :: pieces => String c piece :: pieces
        | [] => [String c EmptyString]
        end
  end.

(** [array.pop()]: the last element, [undefined] on the empty array. *)
Fixpoint pop (pieces : list string) : option string :=
  match pieces with
  | [] => None
  | [piece] => Some piece
  | _ :: rest => pop rest
  end.

(** [validateImageFormat(filename, mimeType)] *)
Definition validateImageFormat (filename mimeType : string) : bool :=
  match pop (splitDot (ProcessManager.toLowerCase filename)) with
  | None => false
  | Some ext =>
      if String.eqb ext "" || negb (existsb (String.eqb ext) SUPPORTED_FORMATS)
      then false
      else existsb (String.eqb (ProcessManager.toLowerCase mimeType))
             validMimeTypes
  end.

(** [validateImageSize(size)] *)
Definition validateImageSize (size : Z) (this : t) : bool :=
  (size >? 0) && (size <=? maxFileSize this).

(** The greedy [[^;]+] of the data-URL pattern: what is left after the
    characters other than [;]. *)
Fixpoint skipFormat (s : string) : string :=
  match s with
  | String c s' => if Ascii.eqb c ";" then s else skipFormat s'
  | EmptyString => s
  end.

(** [s] without its first [n] characters. *)
Fixpoint dropChars (n : nat) (s : string) : string :=
  match n, s with
  | O, _ => s
  | S n', String _ s' => dropChars n' s'
  | S _, EmptyString => EmptyString
  end.

(** [base64Data.replace(/^data:image\/[^;]+;base64,/, '')].  The pattern
    is anchored; no character of the class is a [;], so it matches only
    with the longest run of the class, which must not be empty. *)
Definition stripDataUrl (base64Data : string) : string :=
  if ProcessManager.startsWith base64Data "data:image/" then
    let afterSlash := dropChars 11 base64Data in
    let afterFormat := skipFormat afterSlash in
    if (String.length afterFormat <? String.length afterSlash)%nat
       && ProcessManager.startsWith afterFormat ";base64,"
    then dropChars 8 afterFormat
    else base64Data
  else base64Data.

(** The result of [getImageInfoFromBase64], defaults applied. *)
Record ImageInfo := {
  info_format : string;
  info_width : Z;
  info_height : Z;
  info_size : Z
}.

(** The [sharp] library on Base64 content: [None] when it throws. *)
Class Sharp := {
  metadata : string -> option ImageInfo;
  (* resize to fit inside [maxWidth] x [maxHeight] when larger, encode as
     JPEG of [quality], Base64 of the result *)
  jpeg : string -> Z -> Z -> Z -> option string
}.

Section WithSharp.
Context {sharp : Sharp}.

Definition imageInfoError : MCPError :=
  {| message := OtherMessage "Failed to get image information";
     code := "IMAGE_INFO_ERROR" |}.

Definition compressionError : MCPError :=
  {| message := OtherMessage "Failed to compress image";
     code := "IMAGE_COMPRESSION_ERROR" |}.

Definition invalidDataError : MCPError :=
  {| message := OtherMessage "Invalid image data: missing required fields";
     code := "INVALID_IMAGE_DATA" |}.

Definition unsupportedError (type : string) : MCPError :=
  {| message := OtherMessage ("Unsupported image format: " ++ type)%string;
     code := "UNSUPPORTED_FORMAT" |}.

Definition tooLargeError (size limit : Z) : MCPError :=
  {| message :=
       OtherMessage ("Image size " ++ numberToString size
                     ++ " exceeds limit " ++ numberToString limit)%string;
     code := "IMAGE_TOO_LARGE" |}.

(** [getImageInfoFromBase64(base64Data)] *)
Definition getImageInfoFromBase64 (base64Data : string)
  : MCPError + ImageInfo :=
  match metadata (stripDataUrl base64Data) with
  | Some info => inr info
  | None => inl imageInfoError
  end.

(** [compressImage(base64Data, { maxWidth, maxHeight, quality })], the
    format being the default ['jpeg']. *)
Definition compressImage (base64Data : string)
  (maxWidth maxHeight quality : Z) : MCPError + string :=
  match jpeg (stripDataUrl base64Data) maxWidth maxHeight quality with
  | Some encoded => inr ("data:image/jpeg;base64," ++ encoded)%string
  | None => inl compressionError
  end.

(** [validateAndProcessImage(imageData)]: the error thrown or the image
    returned.  Everything thrown inside is an [MCPError], which the
    [catch] passes on. *)
Definition validateAndProcessImage (imageData : ImageData) (this : t)
  : MCPError + ImageData :=
  if String.eqb (img_name imageData) "" || String.eqb (img_data imageData) ""
     || String.eqb (img_type imageData) ""
  then inl invalidDataError
  else if negb (validateImageFormat (img_name imageData) (img_type imageData))
  then inl (unsupportedError (img_type imageData))
  else if negb (validateImageSize (img_size imageData) this)
  then inl (tooLargeError (img_size imageData) (maxFileSize this))
  else
    match getImageInfoFromBase64 (img_data imageData) with
    | inl e => inl e
    | inr info =>
        if (info_width info >? maxWidth this)
           || (info_height info >? maxHeight this)
        then
          match compressImage (img_data imageData)
                  (maxWidth this) (maxHeight this) 85 with
          | inl e => inl e
          | inr compressedData =>
              match getImageInfoFromBase64 compressedData with
              | inl e => inl e
              | inr compressedInfo =>
                  inr {| img_name := img_name imageData;
                         img_data := compressedData;
                         img_size := info_size compressedInfo;
                         img_type :=
                           ("image/" ++ info_format compressedInfo)%string |}
              end
          end
        else inr imageData
    end.

(** The loop of [processImages], [results] being the array so far. *)
Fixpoint processLoop (images results : list ImageData) (this : t)
  : MCPError + list ImageData :=
  match images with
  | [] => inr results
  | image :: rest =>
      match validateAndProcessImage image this with
      | inl e => inl e
      | inr processedImage =>
          processLoop rest (results ++ [processedImage]) this
      end
  end.

(** [processImages(images)] *)
Definition processImages (images : list ImageData) (this : t)
  : MCPError + list ImageData :=
  processLoop images [] this.

End WithSharp.

(** No dot occurs in [s]. *)
Fixpoint dotless (s : string) : bool :=
  match s with
  | EmptyString => true
  | String c s' => negb (Ascii.eqb c ".") && dotless s'
  end.


(** A [sharp] for examples: it reads nothing off an image and encodes
    every image to the same few bytes. *)
#[global] Instance blindSharp : Sharp := {
  metadata := fun _ => None;
  jpeg := fun _ _ _ _ => Some "/9j/4AAQ"%string
}.

End ImageProcessor.

(* ------------------------------------------------------------------ *)
(** * [class PerformanceMonitor]

    The counters; response times are differences of two readings of
    [Date.now()], integers.  What [process.memoryUsage()] and
    [process.cpuUsage()] report is left out. *)

Module PerformanceMonitor.

Record t := mk {
  startTime : Z;
  (* requestStats *)
  total : Z;
  successful : Z;
  failed : Z;
  responseTimes : list Z;
  (* websocketStats *)
  activeConnections : Z;
  totalConnections : Z;
  messagesReceived : Z;
  messagesSent : Z;
  (* sessionStats *)
  activeSessions : Z;
  totalSessions : Z;
  completedSessions : Z;
  timeoutSessions : Z
}.

(** [constructor()] *)
Definition new (now : Z) : t :=
  mk now 0 0 0 [] 0 0 0 0 0 0 0 0.

(** [array.slice(-n)] *)
Definition sliceLast {A : Type} (n : nat) (l : list A) : list A :=
  skipn (List.length l - n) l.

(** [recordRequest(responseTime, success)] *)
Definition recordRequest (responseTime : Z) (success : bool) (this : t) : t :=
  let times := responseTimes this ++ [responseTime] in
  mk (startTime this)
     (total this + 1)
     (if success then successful this + 1 else successful this)
     (if success then failed this else failed this + 1)
     (if (1000 <? List.length times)%nat then sliceLast 1000 times else times)
     (activeConnections this) (totalConnections this)
     (messagesReceived this) (messagesSent this)
     (activeSessions this) (totalSessions this)
     (completedSessions this) (timeoutSessions this).

(** [recordWebSocketConnection()] *)
Definition recordWebSocketConnection (this : t) : t :=
  mk (startTime this) (total this) (successful this) (failed this)
     (responseTimes this)
     (activeConnections this + 1) (totalConnections this + 1)
     (messagesReceived this) (messagesSent this)
     (activeSessions this) (totalSessions this)
     (completedSessions this) (timeoutSessions this).

(** [recordWebSocketDisconnection()] *)
Definition recordWebSocketDisconnection (this : t) : t :=
  mk (startTime this) (total this) (successful this) (failed this)
     (responseTimes this)
     (Z.max 0 (activeConnections this - 1)) (totalConnections this)
     (messagesReceived this) (messagesSent this)
     (activeSessions this) (totalSessions this)
     (completedSessions this) (timeoutSessions this).

Inductive Direction := received | sent.

(** [recordWebSocketMessage(direction)] *)
Definition recordWebSocketMessage (direction : Direction) (this : t) : t :=
  mk (startTime this) (total this) (successful this) (failed this)
     (responseTimes this)
     (activeConnections this) (totalConnections this)
     (match direction with
      | received => messagesReceived this + 1
      | sent => messagesReceived this
      end)
     (match direction with
      | received => messagesSent this
      | sent => messagesSent this + 1
      end)
     (activeSessions this) (totalSessions this)
     (completedSessions this) (timeoutSessions this).

(** [recordSessionCreated()] *)
Definition recordSessionCreated (this : t) : t :=
  mk (startTime this) (total this) (successful this) (failed this)
     (responseTimes this)
     (activeConnections this) (totalConnections this)
     (messagesReceived this) (messagesSent this)
     (activeSessions this + 1) (totalSessions this + 1)
     (completedSessions this) (timeoutSessions this).

(** [recordSessionCompleted()] *)
Definition recordSessionCompleted (this : t) : t :=
  mk (startTime this) (total this) (successful this) (failed this)
     (responseTimes this)
     (activeConnections this) (totalConnections this)
     (messagesReceived this) (messagesSent this)
     (Z.max 0 (activeSessions this - 1)) (totalSessions this)
     (completedSessions this + 1) (timeoutSessions this).

(** [recordSessionTimeout()] *)
Definition recordSessionTimeout (this : t) : t :=
  mk (startTime this) (total this) (successful this) (failed this)
     (responseTimes this)
     (activeConnections this) (totalConnections this)
     (messagesReceived this) (messagesSent this)
     (Z.max 0 (activeSessions this - 1)) (totalSessions this)
     (completedSessions this) (timeoutSessions this + 1).

(** [reset()] *)
Definition reset (now : Z) (this : t) : t := new now.

(** The calls a monitor may get. *)
Inductive Op :=
| OpRequest (responseTime : Z) (success : bool)
| OpConnection
| OpDisconnection
| OpMessage (direction : Direction)
| OpSessionCreated
| OpSessionCompleted
| OpSessionTimeout
| OpReset (now : Z).

Definition apply (op : Op) (this : t) : t :=
  match op with
  | OpRequest responseTime success => recordRequest responseTime success this
  | OpConnection => recordWebSocketConnection this
  | OpDisconnection => recordWebSocketDisconnection this
  | OpMessage direction => recordWebSocketMessage direction this
  | OpSessionCreated => recordSessionCreated this
  | OpSessionCompleted => recordSessionCompleted this
  | OpSessionTimeout => recordSessionTimeout this
  | OpReset now => reset now this
  end.

(** The calls of a list, first to last. *)
Definition run (ops : list Op) (this : t) : t :=
  fold_left (fun m op => apply op m) ops this.

(** The response times of the requests of a list of calls that no later
    [reset] wiped, [earlier] being those recorded before the list. *)
Fixpoint requested (ops : list Op) (earlier : list Z) : list Z :=
  match ops with
  | [] => earlier
  | OpRequest responseTime _ :: rest =>
      requested rest (earlier ++ [responseTime])
  | OpReset _ :: rest => requested rest []
  | _ :: rest => requested rest earlier
  end.

(** The counters agree with each other. *)
Definition Balanced (m : t) : Prop :=
  total m = successful m + failed m /\
  0 <= successful m /\ 0 <= failed m /\
  Z.of_nat (List.length (responseTimes m)) = Z.min (total m) 1000 /\
  0 <= activeConnections m <= totalConnections m /\
  0 <= messagesReceived m /\ 0 <= messagesSent m /\
  0 <= activeSessions m <= totalSessions m /\
  0 <= completedSessions m /\ 0 <= timeoutSessions m /\
  totalSessions m
    <= activeSessions m + completedSessions m + timeoutSessions m.

End PerformanceMonitor.

(* ------------------------------------------------------------------ *)
(** * [class MCPServer]: the content handed to the tool's caller

    A text that interpolates numbers keeps them as arguments; so do the
    size in KB with one decimal and the local rendering of the time
    stamp. *)

Module MCPServer.

Inductive Text :=
| NoUserFeedbackReceived
    (* 'No user feedback received' *)
| ReceivedItems (count : Z)
    (* `Received ${feedback.length} user feedback items:\n` *)
| FeedbackTitle (number : Z)
    (* `\n--- Feedback ${index + 1} ---` *)
| TextFeedback (text : string)
    (* `Text feedback: ${item.text}` *)
| NumberOfImages (count : Z)
    (* `Number of images: ${item.images.length}` *)
| ImageLine (number : Z) (name type : string) (size : Z)
    (* `Image ${imgIndex + 1}: ${img.name} (${img.type}, ${...}KB)` *)
| SubmissionTime (timestamp : Z).
    (* `Submission time: ${new Date(item.timestamp).toLocaleString()}\n` *)

(** [TextContent | ImageContent] *)
Inductive Content :=
| TextContent (text : Text)
| ImageContent (data mimeType : string).

(** [item.images.forEach((img, imgIndex) => ...)] from [imgIndex] on. *)
Fixpoint imagesLoop (images : list ImageData) (imgIndex : Z)
  (content : list Content) : list Content :=
  match images with
  | [] => content
  | img :: rest =>
      let content1 :=
        content ++ [TextContent (ImageLine (imgIndex + 1) (img_name img)
                                   (img_type img) (img_size img))] in
      let content2 :=
        if String.eqb (img_data img) "" then content1
        else content1 ++ [ImageContent
                            (ImageProcessor.stripDataUrl (img_data img))
                            (img_type img)] in
      imagesLoop rest (imgIndex + 1) content2
  end.

(** The body of [feedback.forEach((item, index) => ...)]. *)
Definition formatItem (item : FeedbackData) (index : Z)
  (content : list Content) : list Content :=
  let content1 := content ++ [TextContent (FeedbackTitle (index + 1))] in
  let content2 :=
    match truthyString (text item) with
    | Some text => content1 ++ [TextContent (TextFeedback text)]
    | None => content1
    end in
  let content3 :=
    match images item with
    | Some (img :: rest) =>
        imagesLoop (img :: rest) 0
          (content2
           ++ [TextContent
                 (NumberOfImages (Z.of_nat (List.length (img :: rest))))])
    | _ => content2
    end in
  content3 ++ [TextContent (SubmissionTime (timestamp item))].

Fixpoint itemsLoop (feedback : list FeedbackData) (index : Z)
  (content : list Content) : list Content :=
  match feedback with
  | [] => content
  | item :: rest => itemsLoop rest (index + 1) (formatItem item index content)
  end.

(** [formatFeedbackForMCP(feedback)] *)
Definition formatFeedbackForMCP (feedback : list FeedbackData)
  : list Content :=
  match feedback with
  | [] => [TextContent NoUserFeedbackReceived]
  | _ :: _ =>
      itemsLoop feedback 0
        [TextContent (ReceivedItems (Z.of_nat (List.length feedback)))]
  end.

(** The images among the content: data and MIME type. *)
Definition attachments (content : list Content) : list (string * string) :=
  flat_map (fun c => match c with
                     | ImageContent data mimeType => [(data, mimeType)]
                     | TextContent _ => []
                     end) content.

(** The answers in words among the content. *)
Definition answersInWords (content : list Content) : list string :=
  flat_map (fun c => match c with
                     | TextContent (TextFeedback text) => [text]
                     | _ => []
                     end) content.

(** The numbers of the titles among the content. *)
Definition titles (content : list Content) : list Z :=
  flat_map (fun c => match c with
                     | TextContent (FeedbackTitle number) => [number]
                     | _ => []
                     end) content.

(** The images of an answer that carry data, prefix stripped. *)
Definition attachedImages (item : FeedbackData) : list (string * string) :=
  match images item with
  | Some imgs =>
      flat_map (fun img =>
                  if String.eqb (img_data img) "" then []
                  else [(ImageProcessor.stripDataUrl (img_data img),
                         img_type img)]) imgs
  | None => []
  end.

(** The text of an answer, when it has one. *)
Definition words (item : FeedbackData) : list string :=
  match truthyString (text item) with
  | Some text => [text]
  | None => []
  end.

End MCPServer.

(* ================================================================== *)
(** * Properties *)

(* ------------------------------------------------------------------ *)
(** ** The table *)

Module JsMapFacts.
Import JsMap.

Section Facts.
Context {V : Type}.

Lemma get_In (k : string) (v : V) (m : t V) :
  get k m = Some v -> In (k, v) m.
Proof.
  induction m as [|[k' v'] m IH]; simpl; [discriminate|].
  destruct (String.eqb_spec k k') as [->|Hne].
  - intros [= ->]. now left.
  - intros H. right. auto.
Qed.

Lemma In_get (k : string) (v : V) (m : t V) :
  wf m -> In (k, v) m -> get k m = Some v.
Proof.
  unfold wf. induction m as [|[k' v'] m IH]; simpl; [tauto|].
  intros Hnd Hin. inversion Hnd as [|? ? Hnotin Hnd']; subst.
  destruct (String.eqb_spec k k') as [->|Hne].
  - destruct Hin as [[= <-]|Hin]; [reflexivity|].
    exfalso. apply Hnotin. change k' with (fst (k', v)).
    now apply in_map.
  - destruct Hin as [[= -> ->]|Hin]; [congruence|]. auto.
Qed.

Lemma get_None_keys (k : string) (m : t V) :
  get k m = None <-> ~ In k (keys m).
Proof.
  induction m as [|[k' v'] m IH]; simpl; [tauto|].
  destruct (String.eqb_spec k k') as [->|Hne].
  - split; [discriminate|]. intros H. exfalso. apply H. now left.
  - rewrite IH. split.
    + intros H [Heq|Hin]; [congruence|tauto].
    + intros H Hin. apply H. now right.
Qed.

Lemma get_set_same (k : string) (v : V) (m : t V) :
  get k (set k v m) = Some v.
Proof.
  induction m as [|[k' v'] m IH]; simpl.
  - now rewrite String.eqb_refl.
  - destruct (String.eqb_spec k k') as [->|Hne]; simpl.
    + now rewrite String.eqb_refl.
    + destruct (String.eqb_spec k k'); [congruence|exact IH].
Qed.

Lemma get_set_other (k k0 : string) (v : V) (m : t V) :
  k0 <> k -> get k0 (set k v m) = get k0 m.
Proof.
  intros Hne. induction m as [|[k' v'] m IH]; simpl.
  - destruct (String.eqb_spec k0 k); [congruence|reflexivity].
  - destruct (String.eqb_spec k k') as [->|Hne']; simpl.
    + destruct (String.eqb_spec k0 k'); [congruence|reflexivity].
    + destruct (String.eqb_spec k0 k'); [reflexivity|exact IH].
Qed.

Lemma keys_set (k : string) (v : V) (m : t V) :
  keys (set k v m) = if has k m then keys m else keys m ++ [k].
Proof.
  unfold has. induction m as [|[k' v'] m IH]; simpl; [reflexivity|].
  destruct (String.eqb_spec k k') as [->|Hne]; simpl; [reflexivity|].
  rewrite IH. now destruct (get k m).
Qed.

Lemma wf_set (k : string) (v : V) (m : t V) : wf m -> wf (set k v m).
Proof.
  unfold wf. intros Hwf. rewrite keys_set. unfold has.
  destruct (get k m) eqn:Hg; [exact Hwf|].
  apply get_None_keys in Hg.
  apply NoDup_app; [exact Hwf|repeat constructor; simpl; tauto|].
  intros x Hx [<-|[]]. contradiction.
Qed.

Lemma get_remove_same (k : string) (m : t V) : get k (remove k m) = None.
Proof.
  induction m as [|[k' v'] m IH]; simpl; [reflexivity|].
  destruct (String.eqb_spec k k') as [->|Hne]; simpl; [exact IH|].
  destruct (String.eqb_spec k k'); [congruence|exact IH].
Qed.

Lemma get_remove_other (k k0 : string) (m : t V) :
  k0 <> k -> get k0 (remove k m) = get k0 m.
Proof.
  intros Hne. induction m as [|[k' v'] m IH]; simpl; [reflexivity|].
  destruct (String.eqb_spec k k') as [->|Hne']; simpl.
  - destruct (String.eqb_spec k0 k'); [congruence|exact IH].
  - destruct (String.eqb_spec k0 k'); [reflexivity|exact IH].
Qed.

Lemma keys_filter_incl (f : string * V -> bool) (m : t V) :
  forall k, In k (keys (filter f m)) -> In k (keys m).
Proof.
  unfold keys. intros k Hin. apply in_map_iff in Hin.
  destruct Hin as [e [<- He]]. apply filter_In in He.
  apply in_map. tauto.
Qed.

Lemma wf_filter (f : string * V -> bool) (m : t V) : wf m -> wf (filter f m).
Proof.
  unfold wf. induction m as [|e m IH]; simpl; [auto|].
  intros Hnd. inversion Hnd as [|? ? Hnotin Hnd']; subst.
  destruct (f e); simpl; [|auto].
  constructor; [|auto].
  intros Hin. apply Hnotin. exact (keys_filter_incl f m _ Hin).
Qed.

Lemma wf_remove (k : string) (m : t V) : wf m -> wf (remove k m).
Proof. apply wf_filter. Qed.

Lemma remove_absent (k : string) (m : t V) :
  ~ In k (keys m) -> remove k m = m.
Proof.
  induction m as [|[k' v'] m IH]; simpl; [reflexivity|].
  intros H. destruct (String.eqb_spec k k') as [->|Hne]; simpl.
  - exfalso. apply H. now left.
  - f_equal. apply IH. tauto.
Qed.

End Facts.

End JsMapFacts.

(* ------------------------------------------------------------------ *)
(** ** The session broker *)

Section SessionStorageFacts.
Import JsMapFacts SessionStorage.

Lemma expiredAt_deadline (now : Z) (s : SessionData) :
  expiredAt now s = true <-> deadline s < now.
Proof. unfold expiredAt, deadline. rewrite Z.gtb_lt. lia. Qed.

Lemma expiredAt_false (now : Z) (s : SessionData) :
  expiredAt now s = false <-> now <= deadline s.
Proof.
  unfold expiredAt, deadline. rewrite Z.gtb_ltb, Z.ltb_ge. lia.
Qed.

(** Every operation keeps the keys of the table distinct. *)
Lemma wf_new (ms : Z) : JsMap.wf (sessions (new ms)).
Proof. constructor. Qed.

Lemma wf_createSession (id : string) (data : SessionData)
  (this : t) :
  JsMap.wf (sessions this) ->
  JsMap.wf (sessions (createSession id data this)).
Proof. apply wf_set. Qed.

Lemma wf_deleteSession (id : string) (this : t) :
  JsMap.wf (sessions this) ->
  JsMap.wf (sessions (snd (deleteSession id this))).
Proof. apply wf_remove. Qed.

Lemma wf_getSession (now : Z) (id : string) (this : t) :
  JsMap.wf (sessions this) ->
  JsMap.wf (sessions (snd (getSession now id this))).
Proof.
  intros Hwf. unfold getSession.
  destruct (JsMap.get id (sessions this)) as [s|]; [|exact Hwf].
  destruct (_ >? _); [now apply wf_remove|exact Hwf].
Qed.

Lemma wf_updateSession (id : string) (u : PartialSessionData)
  (this : t) :
  JsMap.wf (sessions this) ->
  JsMap.wf (sessions (snd (updateSession id u this))).
Proof.
  intros Hwf. unfold updateSession.
  destruct (JsMap.get id (sessions this)); [now apply wf_set|exact Hwf].
Qed.

(** *** Create *)

(** C2, the claim as stated fails: a second [createSession] under an id
    in use does not fail, it replaces the stored session; and a timeout
    of 5 s, below the range, is stored as well. *)
Lemma createSession_duplicate_overwrites :
  let original :=
    {| workSummary := "did X"; feedback := []; startTime := 0;
       timeout := 60000; resolve := Some 0%nat; reject := Some 0%nat |} in
  let colliding :=
    {| workSummary := "did Y"; feedback := []; startTime := 7;
       timeout := 5000; resolve := Some 1%nat; reject := Some 1%nat |} in
  let before :=
    createSession "s1" original (new 60000) in
  let after := createSession "s1" colliding before in
  JsMap.get "s1" (sessions before) = Some original /\
  JsMap.get "s1" (sessions after) = Some colliding /\
  JsMap.get "s1" (sessions after) <> JsMap.get "s1" (sessions before) /\
  timeout colliding < 10 * 1000.
Proof.
  cbv zeta. repeat split; try reflexivity.
  vm_compute. discriminate.
Qed.

(** C2, amended: [createSession] is total and checks nothing.  The data
    given is what the table holds under the id afterwards, whether or not
    the id was in use; all other ids keep their sessions; the keys stay
    distinct.  The range of the timeout, 10 to 60000 seconds, is checked
    on the configuration by [validateConfig], which throws
    [INVALID_TIMEOUT] outside it. *)
Theorem createSession_stores_unchecked
  (id : string) (data : SessionData) (this : t) :
  let this' := createSession id data this in
  JsMap.get id (sessions this') = Some data /\
  (forall id', id' <> id ->
     JsMap.get id' (sessions this') = JsMap.get id' (sessions this)) /\
  (JsMap.wf (sessions this) -> JsMap.wf (sessions this')) /\
  (forall (parsesAsURL : string -> bool) (config : Config.t),
     1024 <= Config.webPort config <= 65535 ->
     (Config.dialogTimeout config < 10 \/ 60000 < Config.dialogTimeout config) ->
     Config.validateConfig parsesAsURL config =
       Some {| message := InvalidTimeout (Config.dialogTimeout config);
               code := "INVALID_TIMEOUT" |}).
Proof.
  cbv zeta. split; [apply get_set_same|].
  split; [intros id' Hne; now apply get_set_other|].
  split; [apply wf_createSession|].
  intros parsesAsURL config Hport Htimeout. unfold Config.validateConfig.
  replace (Config.webPort config <? 1024) with false
    by (symmetry; apply Z.ltb_ge; lia).
  replace (Config.webPort config >? 65535) with false
    by (symmetry; rewrite Z.gtb_ltb; apply Z.ltb_ge; lia).
  simpl.
  destruct Htimeout as [Hlow|Hhigh].
  - replace (Config.dialogTimeout config <? 10) with true
      by (symmetry; apply Z.ltb_lt; lia).
    reflexivity.
  - replace (Config.dialogTimeout config >? 60000) with true
      by (symmetry; rewrite Z.gtb_ltb; apply Z.ltb_lt; lia).
    now rewrite orb_true_r.
Qed.

Lemma createSession_stores_unchecked_witness :
  let config :=
    {| Config.webPort := 5000; Config.dialogTimeout := 5;
       Config.maxFileSize := 10485760;
       Config.apiBaseUrl := "https://api.ssopen.top";
       Config.logLevel := "info" |} in
  let data :=
    {| workSummary := "did X"; feedback := []; startTime := 0;
       timeout := 60000; resolve := None; reject := None |} in
  let this' := createSession "s1" data (new 60000) in
  JsMap.get "s2" (sessions this') = JsMap.get "s2" (sessions (new 60000)) /\
  JsMap.wf (sessions this') /\
  Config.validateConfig (fun _ => true) config =
    Some {| message := InvalidTimeout 5; code := "INVALID_TIMEOUT" |}.
Proof.
  cbv zeta.
  pose proof (createSession_stores_unchecked "s1"
    {| workSummary := "did X"; feedback := []; startTime := 0;
       timeout := 60000; resolve := None; reject := None |}
    (new 60000)) as [_ [Hothers [Hwf Hconfig]]].
  split; [apply Hothers; discriminate|].
  split; [apply Hwf; constructor|].
  apply Hconfig; simpl; lia.
Defined.

(** *** Get *)

(** C4: [getSession] on a stored session.  Once the deadline has passed
    the call answers [undefined] and the session is gone from the table
    afterwards, no sweep needed, the other sessions staying; up to and at
    the deadline the call answers the stored session and leaves the table
    as it was. *)
Theorem getSession_lazy_expiry
  (now : Z) (id : string) (s : SessionData) (this : t) :
  JsMap.get id (sessions this) = Some s ->
  (deadline s < now ->
     fst (getSession now id this) = None /\
     JsMap.get id (sessions (snd (getSession now id this)))
       = None /\
     (forall id', id' <> id ->
        JsMap.get id' (sessions (snd (getSession now id this)))
          = JsMap.get id' (sessions this))) /\
  (now <= deadline s ->
     getSession now id this = (Some s, this)).
Proof.
  intros Hget. unfold getSession. rewrite Hget.
  fold (expiredAt now s). split.
  - intros Hpast. apply expiredAt_deadline in Hpast. rewrite Hpast. simpl.
    split; [reflexivity|]. split.
    + apply get_remove_same.
    + intros id' Hne. now apply get_remove_other.
  - intros Hnot. apply expiredAt_false in Hnot. now rewrite Hnot.
Qed.

Lemma getSession_lazy_expiry_witness :
  let s := {| workSummary := "did Y"; feedback := []; startTime := 1000;
              timeout := 1000; resolve := None; reject := None |} in
  let this := createSession "s2" s (new 60000) in
  fst (getSession 3000 "s2" this) = None /\
  getSession 2000 "s2" this = (Some s, this).
Proof.
  cbv zeta.
  pose proof (getSession_lazy_expiry 3000 "s2"
    {| workSummary := "did Y"; feedback := []; startTime := 1000;
       timeout := 1000; resolve := None; reject := None |}
    (createSession "s2"
       {| workSummary := "did Y"; feedback := []; startTime := 1000;
          timeout := 1000; resolve := None; reject := None |}
       (new 60000)) eq_refl) as [Hpast _].
  pose proof (getSession_lazy_expiry 2000 "s2"
    {| workSummary := "did Y"; feedback := []; startTime := 1000;
       timeout := 1000; resolve := None; reject := None |}
    (createSession "s2"
       {| workSummary := "did Y"; feedback := []; startTime := 1000;
          timeout := 1000; resolve := None; reject := None |}
       (new 60000)) eq_refl) as [_ Hlive].
  split.
  - apply Hpast. unfold deadline. simpl. lia.
  - apply Hlive. unfold deadline. simpl. lia.
Defined.


(** *** Sweep *)

Lemma removeKeys_nil (m : JsMap.t SessionData) : removeKeys [] m = m.
Proof.
  unfold removeKeys. induction m as [|e m IH]; simpl; [reflexivity|].
  f_equal. exact IH.
Qed.

Lemma removeKeys_cons (k : string) (ks : list string)
  (m : JsMap.t SessionData) :
  removeKeys ks (JsMap.remove k m) = removeKeys (k :: ks) m.
Proof.
  unfold removeKeys, JsMap.remove.
  induction m as [|[k' v] m IH]; simpl; [reflexivity|].
  rewrite (String.eqb_sym k' k).
  destruct (String.eqb k k'); simpl; rewrite IH; reflexivity.
Qed.

Lemma removeKeys_app (ks1 ks2 : list string) (m : JsMap.t SessionData) :
  removeKeys ks2 (removeKeys ks1 m) = removeKeys (ks1 ++ ks2) m.
Proof.
  unfold removeKeys. induction m as [|e m IH]; simpl; [reflexivity|].
  rewrite existsb_app.
  destruct (existsb (String.eqb (fst e)) ks1); simpl; rewrite IH; reflexivity.
Qed.

(** The loop of the sweep, from any point of its run. *)
Lemma cleanupLoop_spec (now : Z) (entries : list (string * SessionData)) :
  forall (live : JsMap.t SessionData) (count : Z) (calls : list Call),
    cleanupLoop now entries live count calls =
      (count + Z.of_nat
                 (List.length (filter (fun e => expiredAt now (snd e)) entries)),
       calls ++ flat_map timeoutCallOf
                  (filter (fun e => expiredAt now (snd e)) entries),
       removeKeys
         (JsMap.keys (filter (fun e => expiredAt now (snd e)) entries)) live).
Proof.
  induction entries as [|[id s] rest IH]; intros live count calls.
  - simpl. now rewrite Z.add_0_r, app_nil_r, removeKeys_nil.
  - cbn [cleanupLoop filter snd]. fold (expiredAt now s).
    destruct (expiredAt now s) eqn:Hexp.
    + rewrite IH. cbn [List.length flat_map JsMap.keys map fst].
      rewrite removeKeys_cons. f_equal. f_equal.
      * lia.
      * unfold timeoutCallOf at 2. cbn [snd].
        destruct (reject s); [now rewrite <- app_assoc|reflexivity].
    + now rewrite IH.
Qed.

(** On a table with distinct keys, an entry's key is among the selected
    keys exactly when the entry is selected. *)
Lemma selected_key (f : string * SessionData -> bool)
  (m : JsMap.t SessionData) (e : string * SessionData) :
  JsMap.wf m -> In e m ->
  existsb (String.eqb (fst e)) (JsMap.keys (filter f m)) = f e.
Proof.
  intros Hwf Hin. destruct (f e) eqn:Hfe.
  - apply existsb_exists. exists (fst e). split; [|apply String.eqb_refl].
    apply in_map. apply filter_In. now split.
  - apply not_true_is_false. intros Hex. apply existsb_exists in Hex.
    destruct Hex as [k [Hk Heq]]. apply String.eqb_eq in Heq. subst k.
    apply in_map_iff in Hk. destruct Hk as [e' [Hfst He']].
    apply filter_In in He'. destruct He' as [Hin' Hfe'].
    assert (e' = e) as ->; [|congruence].
    destruct e as [k v], e' as [k' v']. simpl in Hfst. subst k'.
    f_equal. apply (In_get k v' m Hwf) in Hin'.
    apply (In_get k v m Hwf) in Hin. congruence.
Qed.

Lemma removeKeys_selected (f : string * SessionData -> bool)
  (m : JsMap.t SessionData) :
  JsMap.wf m ->
  removeKeys (JsMap.keys (filter f m)) m = filter (fun e => negb (f e)) m.
Proof.
  intros Hwf. unfold removeKeys. apply filter_ext_in.
  intros e Hin. now rewrite selected_key.
Qed.

Lemma get_filter_keep (f : string * SessionData -> bool)
  (m : JsMap.t SessionData) (id : string) (s : SessionData) :
  JsMap.get id m = Some s -> f (id, s) = true ->
  JsMap.wf m -> JsMap.get id (filter f m) = Some s.
Proof.
  intros Hget Hf Hwf. apply In_get; [now apply wf_filter|].
  apply filter_In. split; [now apply get_In|exact Hf].
Qed.

Lemma get_filter_drop (f : string * SessionData -> bool)
  (m : JsMap.t SessionData) (id : string) (s : SessionData) :
  JsMap.get id m = Some s -> f (id, s) = false ->
  JsMap.wf m -> JsMap.get id (filter f m) = None.
Proof.
  intros Hget Hf Hwf.
  destruct (JsMap.get id (filter f m)) as [s'|] eqn:Hget'; [|reflexivity].
  apply get_In in Hget'. apply filter_In in Hget'.
  destruct Hget' as [Hin Hf'].
  apply (In_get id s' m Hwf) in Hin. congruence.
Qed.

(** C3, the claim as stated fails: a sweep that runs exactly at the
    deadline ([deadline <= now] holds) evicts nothing, calls no
    continuation and reports 0. *)
Lemma cleanup_at_deadline_evicts_nothing :
  let s := {| workSummary := "did Y"; feedback := []; startTime := 1000;
              timeout := 10000; resolve := Some 0%nat; reject := Some 0%nat |} in
  let this := createSession "s2" s (new 60000) in
  deadline s <= 11000 /\
  cleanupExpiredSessions 11000 this = (0, [], this).
Proof. cbv zeta. split; [unfold deadline; simpl; lia|reflexivity]. Qed.

(** C3, amended: [cleanupExpiredSessions] run at [now] evicts exactly the
    stored sessions with [deadline < now].  The table afterwards is the
    table before without them, in the same order; the count returned is
    their number; [reject] is called once, with a [SESSION_TIMEOUT]
    error, for each of them that has one, in table order, and for no
    other session.  So a session is never evicted by a sweep at or before
    [createdAt + T] and always by a sweep after it. *)
Theorem cleanupExpiredSessions_evicts_past_deadline
  (now : Z) (this : t) :
  JsMap.wf (sessions this) ->
  let result := cleanupExpiredSessions now this in
  let evicted :=
    filter (fun e => expiredAt now (snd e)) (sessions this) in
  sessions (snd result) =
    filter (fun e => negb (expiredAt now (snd e)))
      (sessions this) /\
  fst (fst result) = Z.of_nat (List.length evicted) /\
  snd (fst result) = flat_map timeoutCallOf evicted /\
  (forall e, In e evicted <->
     In e (sessions this) /\ deadline (snd e) < now) /\
  (forall id s, JsMap.get id (sessions this) = Some s ->
     (deadline s < now ->
        JsMap.get id (sessions (snd result)) = None) /\
     (now <= deadline s ->
        JsMap.get id (sessions (snd result)) = Some s)).
Proof.
  intros Hwf. cbv zeta. unfold cleanupExpiredSessions.
  rewrite cleanupLoop_spec. cbn [fst snd with_sessions
    sessions].
  rewrite removeKeys_selected by exact Hwf.
  split; [reflexivity|]. split; [reflexivity|]. split; [reflexivity|].
  split.
  - intros e. rewrite filter_In, expiredAt_deadline. reflexivity.
  - intros id s Hget. split.
    + intros Hpast. apply get_filter_drop with (s := s); auto.
      cbn [snd]. apply expiredAt_deadline in Hpast. now rewrite Hpast.
    + intros Hlive. apply get_filter_keep; auto.
      cbn [snd]. apply expiredAt_false in Hlive. now rewrite Hlive.
Qed.

Lemma cleanupExpiredSessions_evicts_past_deadline_witness :
  let s := {| workSummary := "did Y"; feedback := []; startTime := 1000;
              timeout := 1000; resolve := Some 0%nat; reject := Some 0%nat |} in
  let this := createSession "s2" s (new 60000) in
  fst (fst (cleanupExpiredSessions 3000 this)) = 1 /\
  snd (fst (cleanupExpiredSessions 3000 this)) =
    [CallReject 0%nat
       {| message := SessionTimeoutAfter 1000; code := "SESSION_TIMEOUT" |}] /\
  JsMap.get "s2" (sessions (snd (cleanupExpiredSessions 3000 this))) = None /\
  JsMap.get "s2" (sessions (snd (cleanupExpiredSessions 2000 this))) = Some s.
Proof.
  cbv zeta.
  pose proof (cleanupExpiredSessions_evicts_past_deadline 3000
    (createSession "s2"
       {| workSummary := "did Y"; feedback := []; startTime := 1000;
          timeout := 1000; resolve := Some 0%nat; reject := Some 0%nat |}
       (new 60000))
    ltac:(repeat constructor; simpl; tauto))
    as [_ [Hcount [Hcalls [_ Hafter]]]].
  pose proof (cleanupExpiredSessions_evicts_past_deadline 2000
    (createSession "s2"
       {| workSummary := "did Y"; feedback := []; startTime := 1000;
          timeout := 1000; resolve := Some 0%nat; reject := Some 0%nat |}
       (new 60000))
    ltac:(repeat constructor; simpl; tauto))
    as [_ [_ [_ [_ Hat]]]].
  split; [exact Hcount|]. split; [exact Hcalls|]. split.
  - apply (Hafter "s2"%string _ eq_refl). unfold deadline. simpl. lia.
  - apply (Hat "s2"%string _ eq_refl). unfold deadline. simpl. lia.
Defined.

End SessionStorageFacts.

(* ------------------------------------------------------------------ *)
(** ** The feedback bridge *)

Section WebServerFacts.
Import JsMapFacts.

(** *** Exactly-once resolution *)

(** C1, the run on which the claim fails.  A tool call opens session
    ["s1"] with a 60 s timeout; the respondent submits after one second,
    which calls [resolve] and deletes the session; the timer armed by
    [collectFeedback] is still scheduled and, when it fires, calls
    [reject]: two invocations of the continuation of promise [0]. *)
Theorem submit_then_timer_invokes_twice :
  let events :=
    [WebServer.EvCollectFeedback "did X" 60 0 "s1";
     WebServer.EvSubmitFeedback 1000 looksGood (inl []);
     WebServer.EvTimeout 0%nat] in
  snd (WebServer.run events (WebServer.started 5000)) =
    [WebServer.OpenFeedbackPage "s1";
     WebServer.Emit WebServer.feedback_submitted;
     WebServer.Invoke (CallResolve 0%nat [looksGood]);
     WebServer.Invoke (CallReject 0%nat (WebServer.feedbackTimeoutError 60))] /\
  WebServer.invocations 0%nat
    (snd (WebServer.run events (WebServer.started 5000))) = 2%nat.
Proof. split; reflexivity. Qed.

(** The same happens after a shutdown: [clear] rejects the session, the
    timer rejects it again. *)
Lemma stop_then_timer_invokes_twice :
  let events :=
    [WebServer.EvCollectFeedback "did X" 60 0 "s1";
     WebServer.EvStop None;
     WebServer.EvTimeout 0%nat] in
  WebServer.invocations 0%nat
    (snd (WebServer.run events (WebServer.started 5000))) = 2%nat.
Proof. reflexivity. Qed.

(** The [catch] handler of [collectFeedback] is the one path that
    cancels the timer before it rejects. *)
Lemma open_failure_cancels_timer (error : MCPError) :
  let events :=
    [WebServer.EvCollectFeedback "did X" 60 0 "s1";
     WebServer.EvOpenSettled 0%nat (Some error);
     WebServer.EvTimeout 0%nat] in
  WebServer.invocations 0%nat
    (snd (WebServer.run events (WebServer.started 5000))) = 1%nat.
Proof. reflexivity. Qed.

(** *** Shutdown *)





(** *** The active session of a respondent *)

(** The loop of ['request_session'] keeps the first entry, in table
    order, among those of greatest [startTime]; it looks at no deadline. *)
Lemma latestLoop_spec (entries : list (string * SessionData)) :
  forall latest : option (string * SessionData),
    match WebServer.latestLoop entries latest with
    | Some chosen =>
        (latest = Some chosen \/ In chosen entries) /\
        (forall e, In e entries ->
           startTime (snd e) <= startTime (snd chosen)) /\
        (forall e, latest = Some e ->
           startTime (snd e) <= startTime (snd chosen))
    | None => latest = None /\ entries = []
    end.
Proof.
  induction entries as [|[id s] rest IH]; intros latest.
  - simpl. destruct latest as [chosen|]; [|auto].
    split; [now left|]. split; [intros e []|].
    intros e [= ->]. lia.
  - simpl. destruct latest as [[id0 s0]|].
    + destruct (startTime s >? startTime s0) eqn:Hgt.
      * specialize (IH (Some (id, s))).
        destruct (WebServer.latestLoop rest (Some (id, s))) as [chosen|];
          [|destruct IH; discriminate].
        destruct IH as [Hsrc [Hmax Hacc]].
        specialize (Hacc _ eq_refl). simpl in Hacc.
        apply Z.gtb_lt in Hgt.
        split; [right; destruct Hsrc as [[= <-]|Hin]; [now left|now right]|].
        split.
        -- intros e [<-|Hin]; [exact Hacc|now apply Hmax].
        -- intros e [= <-]. simpl. lia.
      * specialize (IH (Some (id0, s0))).
        destruct (WebServer.latestLoop rest (Some (id0, s0))) as [chosen|];
          [|destruct IH; discriminate].
        destruct IH as [Hsrc [Hmax Hacc]].
        specialize (Hacc _ eq_refl). simpl in Hacc.
        rewrite Z.gtb_ltb in Hgt. apply Z.ltb_ge in Hgt.
        split; [destruct Hsrc as [Heq|Hin]; [now left|right; now right]|].
        split.
        -- intros e [<-|Hin]; [simpl; lia|now apply Hmax].
        -- intros e [= <-]. exact Hacc.
    + specialize (IH (Some (id, s))).
      destruct (WebServer.latestLoop rest (Some (id, s))) as [chosen|];
        [|destruct IH; discriminate].
      destruct IH as [Hsrc [Hmax Hacc]].
      specialize (Hacc _ eq_refl). simpl in Hacc.
      split; [right; destruct Hsrc as [[= <-]|Hin]; [now left|now right]|].
      split; [|discriminate].
      intros e [<-|Hin]; [exact Hacc|now apply Hmax].
Qed.

(** What the handler answers on any table: nothing is assigned exactly
    when the table is empty; otherwise a stored session of greatest
    [startTime] is assigned, expired or not. *)
Lemma onRequestSession_spec (this : WebServer.t) :
  let table := SessionStorage.sessions (WebServer.sessionStorage this) in
  (table = [] /\ WebServer.onRequestSession this = WebServer.no_active_session)
  \/
  (exists id s,
     In (id, s) table /\
     (forall e, In e table -> startTime (snd e) <= startTime s) /\
     WebServer.onRequestSession this =
       WebServer.session_assigned id (workSummary s)).
Proof.
  cbv zeta. unfold WebServer.onRequestSession, SessionStorage.getAllSessions.
  pose proof (latestLoop_spec
    (SessionStorage.sessions (WebServer.sessionStorage this)) None) as H.
  destruct (WebServer.latestLoop _ None) as [[id s]|].
  - right. exists id, s. destruct H as [[Habs|Hin] [Hmax _]];
      [discriminate|]. auto.
  - left. tauto.
Qed.

(** C9, the inputs on which the claim fails.  A session made by
    [POST /api/test-session] with a 10 s timeout at time 0 has no timer;
    at time 20000, before the next sweep, [getSession] treats it as
    expired, yet ['request_session'] assigns it.  And with a live older
    session ["s1"] beside it, the expired newer one is still the one
    assigned. *)
Theorem request_session_assigns_expired_session :
  let alone :=
    fst (WebServer.run [WebServer.EvTestSession "did X" 10 0 "t1"]
           (WebServer.started 5000)) in
  let beside :=
    fst (WebServer.run
           [WebServer.EvCollectFeedback "did Y" 60000 0 "s1";
            WebServer.EvTestSession "did X" 10 5000 "t1"]
           (WebServer.started 5000)) in
  fst (SessionStorage.getSession 20000 "t1" (WebServer.sessionStorage alone))
    = None /\
  WebServer.onRequestSession alone = WebServer.session_assigned "t1" "did X" /\
  (exists s,
     fst (SessionStorage.getSession 20000 "s1"
            (WebServer.sessionStorage beside)) = Some s) /\
  fst (SessionStorage.getSession 20000 "t1" (WebServer.sessionStorage beside))
    = None /\
  WebServer.onRequestSession beside = WebServer.session_assigned "t1" "did X".
Proof.
  cbv zeta. split; [reflexivity|]. split; [reflexivity|].
  split; [eexists; reflexivity|]. split; reflexivity.
Qed.

End WebServerFacts.

(* ------------------------------------------------------------------ *)
(** ** How often a continuation can be called *)

Section ContinuationBudget.
Import JsMapFacts.

















Lemma nth_error_beyond {A : Type} (l : list A) (p : nat) :
  (List.length l <= p)%nat -> nth_error l p = None.
Proof. apply nth_error_None. Qed.










Lemma with_storage_same (this : WebServer.t) :
  WebServer.with_storage this (WebServer.sessionStorage this) = this.
Proof. now destruct this. Qed.













(** The bound is reached: a submission, then the timer, then a late
    failure of [openFeedbackPage]. *)
Lemma continuation_called_thrice (error : MCPError) :
  let events :=
    [WebServer.EvCollectFeedback "did X" 60 0 "s1";
     WebServer.EvSubmitFeedback 1000 looksGood (inl []);
     WebServer.EvTimeout 0%nat;
     WebServer.EvOpenSettled 0%nat (Some error)] in
  WebServer.invocations 0%nat
    (snd (WebServer.run events (WebServer.started 5000))) = 3%nat.
Proof. reflexivity. Qed.

End ContinuationBudget.

(* ------------------------------------------------------------------ *)
(** ** The safety classifier *)

Section ClassifierFacts.
Import ProcessManager.
Local Open Scope string_scope.

Lemma startsWith_spec (s sub : string) :
  startsWith s sub = true <-> exists post, s = sub ++ post.
Proof.
  revert s. induction sub as [|b sub IH]; intros s.
  - simpl. destruct s; split; eauto.
  - destruct s as [|a s]; simpl.
    + split; [discriminate|]. intros [post H]. discriminate.
    + rewrite andb_true_iff, IH. split.
      * intros [Hab [post ->]]. apply Ascii.eqb_eq in Hab. subst.
        now exists post.
      * intros [post [= -> ->]]. split; [apply Ascii.eqb_refl|now exists post].
Qed.

Lemma includes_spec (s sub : string) :
  includes s sub = true <-> exists pre post, s = pre ++ sub ++ post.
Proof.
  induction s as [|a s IH].
  - cbn [includes]. rewrite orb_false_r, startsWith_spec. split.
    + intros [post H]. now exists "", post.
    + intros [pre [post H]]. destruct pre; [now exists post|discriminate].
  - cbn [includes]. rewrite orb_true_iff, startsWith_spec, IH. split.
    + intros [[post H]|[pre [post H]]].
      * now exists "", post.
      * exists (String a pre), post. simpl. now rewrite H.
    + intros [pre [post H]]. destruct pre as [|c pre].
      * left. now exists post.
      * right. injection H as _ H. now exists pre, post.
Qed.

Lemma toLowerCase_app (a b : string) :
  toLowerCase (a ++ b) = toLowerCase a ++ toLowerCase b.
Proof. induction a; simpl; [reflexivity|now rewrite IHa]. Qed.

Lemma toLowerCase_app_inv (s a b : string) :
  toLowerCase s = a ++ b ->
  exists s1 s2, s = s1 ++ s2 /\ toLowerCase s1 = a /\ toLowerCase s2 = b.
Proof.
  revert s. induction a as [|c a IH]; intros s H.
  - exists "", s. auto.
  - destruct s as [|d s]; [discriminate|].
    simpl in H. injection H as Hc H.
    destruct (IH s H) as [s1 [s2 [-> [H1 H2]]]].
    exists (String d s1), s2. simpl. now rewrite Hc, H1.
Qed.

(** The test the classifier runs, [lower(s).includes(w)], is the
    occurrence of [w] in [s] up to case. *)
Lemma includes_lower_spec (s w : string) :
  includes (toLowerCase s) w = true <-> containsIgnoringCase s w.
Proof.
  rewrite includes_spec. unfold containsIgnoringCase. split.
  - intros [pre [post H]].
    apply toLowerCase_app_inv in H. destruct H as [s1 [s2 [-> [H1 H2]]]].
    apply toLowerCase_app_inv in H2. destruct H2 as [s3 [s4 [-> [H3 H4]]]].
    now exists s1, s3, s4.
  - intros [pre [mid [post [-> Hmid]]]].
    exists (toLowerCase pre), (toLowerCase post).
    now rewrite !toLowerCase_app, Hmid.
Qed.

Lemma matchesAny_spec (words : list string) (p : Os.ProcessInfo) :
  matchesAny words (toLowerCase (Os.name p)) (toLowerCase (Os.command p))
    = true
  <-> mentions words p.
Proof.
  unfold mentions. induction words as [|w words IH].
  - simpl. split; [discriminate|]. intros [w [[] _]].
  - cbn [matchesAny].
    destruct (includes (toLowerCase (Os.name p)) w
              || includes (toLowerCase (Os.command p)) w) eqn:Hw.
    + split; [|reflexivity]. intros _. exists w. split; [now left|].
      apply orb_true_iff in Hw. now rewrite <- !includes_lower_spec.
    + rewrite IH. split.
      * intros [w' [Hin H]]. exists w'. split; [now right|exact H].
      * intros [w' [[<-|Hin] H]]; [|now exists w'].
        rewrite <- !includes_lower_spec, <- orb_true_iff in H. congruence.
Qed.

(** The classifier, in words: safe exactly when no deny word occurs and
    some allow word occurs. *)
Lemma isSafeToKill_spec (p : Os.ProcessInfo) :
  isSafeToKill p = true <->
  ~ mentions dangerousNames p /\ mentions safePrefixes p.
Proof.
  unfold isSafeToKill. rewrite <- !matchesAny_spec.
  destruct (matchesAny dangerousNames _ _); [intuition congruence|].
  destruct (matchesAny safePrefixes _ _); intuition congruence.
Qed.

(** C5: fail-closed default.  A process whose name and command line
    contain, in any letter case, no word of the deny list and no word of
    the allow list is not safe to terminate. *)
Theorem isSafeToKill_unknown_is_denied (p : Os.ProcessInfo) :
  ~ mentions dangerousNames p ->
  ~ mentions safePrefixes p ->
  isSafeToKill p = false.
Proof.
  intros _ Hallow. apply not_true_is_false. intros Hsafe.
  apply isSafeToKill_spec in Hsafe. tauto.
Qed.

Lemma isSafeToKill_unknown_is_denied_witness :
  isSafeToKill (Machine.proc 812 "sshd" "/usr/sbin/sshd -D" 5000) = false.
Proof.
  apply isSafeToKill_unknown_is_denied;
    rewrite <- matchesAny_spec; vm_compute; discriminate.
Defined.

(** C10: the deny list is consulted first.  A process in whose name or
    command line a deny word occurs, in any letter case, is not safe to
    terminate, whether or not an allow word occurs as well; and two
    processes whose names and command lines differ only in letter case
    are classified alike. *)
Theorem isSafeToKill_deny_before_allow (p : Os.ProcessInfo) :
  (mentions dangerousNames p -> isSafeToKill p = false) /\
  (mentions dangerousNames p -> mentions safePrefixes p ->
     isSafeToKill p = false) /\
  (forall q : Os.ProcessInfo,
     toLowerCase (Os.name q) = toLowerCase (Os.name p) ->
     toLowerCase (Os.command q) = toLowerCase (Os.command p) ->
     isSafeToKill q = isSafeToKill p).
Proof.
  assert (Hdeny : mentions dangerousNames p -> isSafeToKill p = false).
  { intros Hd. apply not_true_is_false. intros Hsafe.
    apply isSafeToKill_spec in Hsafe. tauto. }
  split; [exact Hdeny|]. split; [auto|].
  intros q Hname Hcmd. unfold isSafeToKill. now rewrite Hname, Hcmd.
Qed.

Lemma isSafeToKill_deny_before_allow_witness :
  isSafeToKill
    (Machine.proc 1 "SystemD" "/usr/bin/node /lib/systemd/helper.js" 5000)
    = false /\
  isSafeToKill (Machine.proc 7 "INIT" "/sbin/init" 5000) = false /\
  isSafeToKill (Machine.proc 9 "NODE" "Node Server.js" 5000) =
    isSafeToKill (Machine.proc 9 "node" "node server.js" 5000).
Proof.
  split; [|split].
  - apply (proj1 (proj2 (isSafeToKill_deny_before_allow _)));
      rewrite <- matchesAny_spec; vm_compute; reflexivity.
  - apply (proj1 (isSafeToKill_deny_before_allow _)).
    rewrite <- matchesAny_spec. vm_compute. reflexivity.
  - apply (proj2 (proj2 (isSafeToKill_deny_before_allow
                           (Machine.proc 9 "node" "node server.js" 5000))));
      reflexivity.
Defined.

End ClassifierFacts.

(* ------------------------------------------------------------------ *)
(** ** The port negotiator *)

Section PortManagerFacts.
Import Os.
Context {W : Type} {os : Facilities W}.

Lemma probes_app (a b : list OsCall) : probes (a ++ b) = probes a ++ probes b.
Proof. apply flat_map_app. Qed.

Lemma isPortAvailable_run (p : Z) (s : Sys W) :
  PortManager.isPortAvailable p s =
    (Returned (isListening (fst (listen p (world s)))),
     mkSys (snd (listen p (world s)))
       (calls s ++ [CListen p (fst (listen p (world s)))])).
Proof.
  unfold PortManager.isPortAvailable, bind, call, ret.
  destruct (listen p (world s)) as [o w']. now destruct o.
Qed.

Lemma allFailed_app (a b : list (Z * ListenOutcome)) :
  allFailed a -> allFailed b -> allFailed (a ++ b).
Proof. intros Ha Hb. apply Forall_app. now split. Qed.

Lemma rangeLoop_step (fuel : nat) (port : Z) (s : Sys W) :
  PortManager.rangeLoop (S fuel) port s =
    if port <=? PortManager.PORT_RANGE_END then
      let o := fst (listen port (world s)) in
      let s1 := mkSys (snd (listen port (world s)))
                  (calls s ++ [CListen port o]) in
      if isListening o then (Returned (Some port), s1)
      else PortManager.rangeLoop fuel (port + 1) s1
    else (Returned None, s).
Proof.
  cbn [PortManager.rangeLoop].
  destruct (port <=? PortManager.PORT_RANGE_END); [|reflexivity].
  unfold bind. rewrite isPortAvailable_run. cbv zeta.
  now destruct (isListening (fst (listen port (world s)))).
Qed.

Lemma randomLoop_step (fuel : nat) (i : Z) (s : Sys W) :
  PortManager.randomLoop (S fuel) i s =
    if i <? PortManager.MAX_RETRIES then
      let r := fst (random (world s)) in
      let randomPort := PortManager.randomPortOf r in
      let w0 := snd (random (world s)) in
      let o := fst (listen randomPort w0) in
      let s1 := mkSys (snd (listen randomPort w0))
                  ((calls s ++ [CRandom r]) ++ [CListen randomPort o]) in
      if isListening o then (Returned (Some randomPort), s1)
      else PortManager.randomLoop fuel (i + 1) s1
    else (Returned None, s).
Proof.
  cbn [PortManager.randomLoop].
  destruct (i <? PortManager.MAX_RETRIES); [|reflexivity].
  unfold bind at 1. unfold call at 1.
  destruct (random (world s)) as [r w0]. cbn [fst snd].
  unfold bind. rewrite isPortAvailable_run. cbn [world calls]. cbv zeta.
  now destruct (isListening (fst (listen (PortManager.randomPortOf r) w0))).
Qed.

(** The scan of the range from [port] on. *)
Lemma rangeLoop_run (fuel : nat) :
  forall (port : Z) (s : Sys W),
    PortManager.PORT_RANGE_END - port + 1 <= Z.of_nat fuel ->
    exists range : list (Z * ListenOutcome),
      probes (calls (snd (PortManager.rangeLoop fuel port s))) =
        probes (calls s) ++ range /\
      map fst range = zseq port (List.length range) /\
      Z.of_nat (List.length range) <=
        Z.max 0 (PortManager.PORT_RANGE_END - port + 1) /\
      match fst (PortManager.rangeLoop fuel port s) with
      | Returned (Some q) =>
          exists earlier,
            range = earlier ++ [(q, Listening)] /\ allFailed earlier
      | Returned None =>
          allFailed range /\
          Z.of_nat (List.length range) =
            Z.max 0 (PortManager.PORT_RANGE_END - port + 1)
      | Thrown _ => False
      end.
Proof.
  induction fuel as [|fuel IH]; intros port s Hfuel.
  - exists []. cbn [PortManager.rangeLoop ret fst snd]. rewrite app_nil_r.
    split; [reflexivity|]. split; [reflexivity|].
    cbn [List.length Z.of_nat] in *.
    unfold PortManager.PORT_RANGE_END in *.
    split; [lia|]. split; [constructor|]. lia.
  - rewrite rangeLoop_step.
    destruct (port <=? PortManager.PORT_RANGE_END) eqn:Hle.
    + apply Z.leb_le in Hle. cbv zeta.
      destruct (listen port (world s)) as [o w'] eqn:Hl. cbn [fst snd].
      destruct (isListening o) eqn:Ho.
      * exists [(port, o)]. cbn [ret fst snd calls].
        rewrite probes_app. split; [reflexivity|]. split; [reflexivity|].
        split; [unfold PortManager.PORT_RANGE_END in *;
                cbn [List.length]; lia|].
        exists []. destruct o; try discriminate. split; [reflexivity|].
        constructor.
      * destruct (IH (port + 1) (mkSys w' (calls s ++ [CListen port o])))
          as [range [Hprobes [Hports [Hbound Hres]]]]; [lia|].
        exists ((port, o) :: range). rewrite Hprobes.
        cbn [calls]. rewrite probes_app. cbn [probes flat_map app].
        rewrite <- app_assoc. split; [reflexivity|].
        split; [cbn [map fst List.length zseq]; now rewrite Hports|].
        split; [cbn [List.length]; lia|].
        destruct (fst (PortManager.rangeLoop fuel (port + 1) _))
          as [[q|]|e]; [| |exact Hres].
        -- destruct Hres as [earlier [-> Hfailed]].
           exists ((port, o) :: earlier). split; [reflexivity|].
           constructor; [exact Ho|exact Hfailed].
        -- destruct Hres as [Hfailed Hlen]. split.
           ++ constructor; [exact Ho|exact Hfailed].
           ++ cbn [List.length]. lia.
    + apply Z.leb_gt in Hle. exists []. cbn [ret fst snd].
      rewrite app_nil_r. split; [reflexivity|]. split; [reflexivity|].
      cbn [List.length Z.of_nat].
      unfold PortManager.PORT_RANGE_END in *.
      split; [lia|]. split; [constructor|]. lia.
Qed.

(** The random retries from round [i] on. *)
Lemma randomLoop_run (fuel : nat) :
  forall (i : Z) (s : Sys W),
    0 <= i ->
    PortManager.MAX_RETRIES - i <= Z.of_nat fuel ->
    exists rnd : list (Z * ListenOutcome),
      probes (calls (snd (PortManager.randomLoop fuel i s))) =
        probes (calls s) ++ rnd /\
      Z.of_nat (List.length rnd) <= Z.max 0 (PortManager.MAX_RETRIES - i) /\
      match fst (PortManager.randomLoop fuel i s) with
      | Returned (Some q) =>
          exists earlier,
            rnd = earlier ++ [(q, Listening)] /\ allFailed earlier
      | Returned None =>
          allFailed rnd /\
          Z.of_nat (List.length rnd) =
            Z.max 0 (PortManager.MAX_RETRIES - i)
      | Thrown _ => False
      end.
Proof.
  induction fuel as [|fuel IH]; intros i s Hi Hfuel.
  - exists []. cbn [PortManager.randomLoop ret fst snd]. rewrite app_nil_r.
    split; [reflexivity|]. unfold PortManager.MAX_RETRIES in *.
    cbn [List.length Z.of_nat] in *. split; [lia|].
    split; [constructor|]. lia.
  - rewrite randomLoop_step.
    destruct (i <? PortManager.MAX_RETRIES) eqn:Hlt.
    + apply Z.ltb_lt in Hlt. cbv zeta.
      destruct (random (world s)) as [r w0] eqn:Hr. cbn [fst snd].
      destruct (listen (PortManager.randomPortOf r) w0) as [o w'] eqn:Hl.
      cbn [fst snd].
      destruct (isListening o) eqn:Ho.
      * exists [(PortManager.randomPortOf r, o)]. cbn [ret fst snd calls].
        rewrite !probes_app. cbn [probes flat_map app].
        rewrite app_nil_r. split; [reflexivity|].
        split; [unfold PortManager.MAX_RETRIES in *;
                cbn [List.length]; lia|].
        exists []. destruct o; try discriminate. split; [reflexivity|].
        constructor.
      * destruct (IH (i + 1)
          (mkSys w' ((calls s ++ [CRandom r]) ++
                     [CListen (PortManager.randomPortOf r) o])))
          as [rnd [Hprobes [Hlen Hres]]]; [lia|lia|].
        exists ((PortManager.randomPortOf r, o) :: rnd). rewrite Hprobes.
        cbn [calls]. rewrite !probes_app. cbn [probes flat_map app].
        rewrite app_nil_r, <- app_assoc. split; [reflexivity|].
        split; [cbn [List.length]; lia|].
        destruct (fst (PortManager.randomLoop fuel (i + 1) _))
          as [[q|]|e]; [| |exact Hres].
        -- destruct Hres as [earlier [-> Hfailed]].
           exists ((PortManager.randomPortOf r, o) :: earlier).
           split; [reflexivity|]. constructor; [exact Ho|exact Hfailed].
        -- destruct Hres as [Hfailed Hlen']. split.
           ++ constructor; [exact Ho|exact Hfailed].
           ++ cbn [List.length]. lia.
    + apply Z.ltb_ge in Hlt. exists []. cbn [ret fst snd].
      rewrite app_nil_r. split; [reflexivity|].
      unfold PortManager.MAX_RETRIES in *. cbn [List.length Z.of_nat].
      split; [lia|]. split; [constructor|]. lia.
Qed.


(** The part of [findAvailablePort] after the preferred port. *)
Lemma scan_then_random_run (s : Sys W) :
  let m : M W Z := afterPreferred in
  exists range rnd : list (Z * ListenOutcome),
    probes (calls (snd (m s))) = probes (calls s) ++ range ++ rnd /\
    map fst range = zseq PortManager.PORT_RANGE_START (List.length range) /\
    (List.length range <= 20)%nat /\
    (List.length rnd <= 20)%nat /\
    (rnd = [] \/ (allFailed range /\ List.length range = 20%nat)) /\
    match fst (m s) with
    | Returned q =>
        exists earlier,
          range ++ rnd = earlier ++ [(q, Listening)] /\ allFailed earlier
    | Thrown e =>
        e = PortManager.noPortsError /\ allFailed (range ++ rnd) /\
        List.length range = 20%nat /\ List.length rnd = 20%nat
    end.
Proof.
  cbv zeta. unfold afterPreferred. unfold bind at 1 3.
  destruct (rangeLoop_run
              (Z.to_nat (PortManager.PORT_RANGE_END
                         - PortManager.PORT_RANGE_START + 1))
              PortManager.PORT_RANGE_START s)
    as [range [Hprobes [Hports [Hbound Hres]]]];
    [unfold PortManager.PORT_RANGE_END, PortManager.PORT_RANGE_START; lia|].
  unfold PortManager.PORT_RANGE_END, PortManager.PORT_RANGE_START in Hbound.
  destruct (PortManager.rangeLoop _ PortManager.PORT_RANGE_START s)
    as [[[q|]|e] s1]; cbn [fst snd] in *; [| |contradiction].
  - exists range, []. cbn [ret fst snd]. rewrite app_nil_r.
    split; [exact Hprobes|]. split; [exact Hports|].
    split; [lia|]. split; [simpl; lia|]. split; [now left|exact Hres].
  - destruct Hres as [Hfailed Hlen].
    unfold PortManager.PORT_RANGE_END, PortManager.PORT_RANGE_START in Hlen.
    unfold bind at 1 2.
    destruct (randomLoop_run (Z.to_nat PortManager.MAX_RETRIES) 0 s1)
      as [rnd [Hprobes' [Hbound' Hres']]];
      [lia|unfold PortManager.MAX_RETRIES; lia|].
    unfold PortManager.MAX_RETRIES in Hbound'.
    destruct (PortManager.randomLoop _ 0 s1) as [[[q|]|e] s2];
      cbn [fst snd] in *; [| |contradiction].
    + exists range, rnd. cbn [ret fst snd]. rewrite Hprobes', Hprobes.
      rewrite <- app_assoc. split; [reflexivity|]. split; [exact Hports|].
      split; [lia|]. split; [lia|]. split; [right; split; [auto|lia]|].
      destruct Hres' as [earlier [-> Hfailed']].
      exists (range ++ earlier). rewrite app_assoc. split; [reflexivity|].
      now apply allFailed_app.
    + destruct Hres' as [Hfailed' Hlen'].
      unfold PortManager.MAX_RETRIES in Hlen'.
      exists range, rnd. cbn [throw fst snd]. rewrite Hprobes', Hprobes.
      rewrite <- app_assoc. split; [reflexivity|]. split; [exact Hports|].
      split; [lia|]. split; [lia|]. split; [right; split; [auto|lia]|].
      split; [reflexivity|]. split; [now apply allFailed_app|]. lia.
Qed.

(** [findAvailablePort], one statement at a time. *)
Lemma findAvailablePort_unfold (preferredPort : option Z) (s : Sys W) :
  PortManager.findAvailablePort preferredPort s =
    match preferredPort with
    | Some p =>
        if p =? 0 then afterPreferred s
        else
          let o := fst (listen p (world s)) in
          let s1 := mkSys (snd (listen p (world s)))
                      (calls s ++ [CListen p o]) in
          if isListening o then (Returned p, s1) else afterPreferred s1
    | None => afterPreferred s
    end.
Proof.
  unfold PortManager.findAvailablePort, afterPreferred.
  destruct preferredPort as [p|]; [|reflexivity].
  destruct (p =? 0); [reflexivity|].
  unfold bind at 1. unfold bind at 1. rewrite isPortAvailable_run.
  cbv zeta. now destruct (isListening (fst (listen p (world s)))).
Qed.



(** *** Forcing a port *)





End PortManagerFacts.

(* ------------------------------------------------------------------ *)
(** ** Runs on the machine *)

Section MachineRuns.
Import Os.


(** Scenario "forced port denied": the occupant is [sshd]. *)
Lemma forcePort_sshd_refused :
  let sshd := Machine.proc 812 "sshd" "/usr/sbin/sshd -D" 5000 in
  let m := Machine.mk [(5000, sshd)] [] [] in
  let result := PortManager.forcePort 5000 true (Machine.boot m) in
  fst result = Thrown (ProcessManager.unsafeError sshd) /\
  killedPids (calls (snd result)) = [] /\
  Machine.owner 5000 (world (snd result)) = Some sshd.
Proof. cbv zeta. repeat split; reflexivity. Qed.

(** Scenario "forced port allowed": the occupant is [node]. *)
Lemma forcePort_node_released :
  let node := Machine.proc 4242 "node" "node dist/cli.js" 5000 in
  let m := Machine.mk [(5000, node)] [] [] in
  let result := PortManager.forcePort 5000 true (Machine.boot m) in
  fst result = Returned 5000 /\
  killedPids (calls (snd result)) = [4242] /\
  Machine.owner 5000 (world (snd result)) = None.
Proof. cbv zeta. repeat split; reflexivity. Qed.

(** Scenario "port scan ordering": of the range only 5003 is free and no
    preferred port is given. *)
Lemma findAvailablePort_only_fourth_free :
  let busy := Machine.proc 7 "nginx" "nginx: worker process" 0 in
  let m :=
    Machine.mk
      (map (fun p => (p, busy))
         (filter (fun p => negb (p =? 5003)) (zseq 5000 20)))
      [] [] in
  let result := PortManager.findAvailablePort None (Machine.boot m) in
  fst result = Returned 5003 /\
  map fst (probes (calls (snd result))) = [5000; 5001; 5002; 5003].
Proof. cbv zeta. split; reflexivity. Qed.

(** Exhaustion: the whole range and the one port the random tape yields
    are taken. *)
Lemma findAvailablePort_exhausted :
  let busy := Machine.proc 7 "nginx" "nginx: worker process" 0 in
  let m :=
    Machine.mk (map (fun p => (p, busy)) (1024 :: 4444 :: zseq 5000 20))
      [] [] in
  let result := PortManager.findAvailablePort (Some 4444) (Machine.boot m) in
  fst result = Thrown PortManager.noPortsError /\
  map fst (probes (calls (snd result))) =
    4444 :: zseq 5000 20 ++ repeat 1024 20.
Proof. cbv zeta. split; vm_compute; reflexivity. Qed.

End MachineRuns.

(* ================================================================== *)
(** * Further properties of the code *)

(* ------------------------------------------------------------------ *)
(** ** The session table as a store *)

Section SessionStoreFacts.
Import JsMapFacts SessionStorage.

Lemma statsLoop_spec (now : Z) (values : list SessionData) :
  forall active expired,
    statsLoop now values active expired =
      (active + Z.of_nat (List.length
                            (filter (fun s => negb (expiredAt now s)) values)),
       expired + Z.of_nat (List.length (filter (expiredAt now) values))).
Proof.
  induction values as [|s values IH]; intros active expired.
  - simpl. now rewrite !Z.add_0_r.
  - cbn [statsLoop filter]. fold (expiredAt now s).
    destruct (expiredAt now s); cbn [negb List.length]; rewrite IH;
      f_equal; lia.
Qed.

Lemma filter_map_snd (f : SessionData -> bool) (m : JsMap.t SessionData) :
  filter f (map snd m) = map snd (filter (fun e => f (snd e)) m).
Proof.
  induction m as [|e m IH]; simpl; [reflexivity|].
  destruct (f (snd e)); simpl; now rewrite IH.
Qed.

Lemma length_partition (f : string * SessionData -> bool)
  (m : JsMap.t SessionData) :
  List.length m =
    (List.length (filter f m)
     + List.length (filter (fun e => negb (f e)) m))%nat.
Proof.
  induction m as [|e m IH]; simpl; [reflexivity|].
  destruct (f e); simpl; lia.
Qed.

(** X1: [getStats] splits the table in two: the total is the number of
    active plus the number of expired sessions; the expired count is what
    a sweep at the same time would report as evicted, and the active count
    is the size of the table such a sweep would leave. *)
Theorem getStats_agrees_with_sweep (now : Z) (this : t) :
  JsMap.wf (sessions this) ->
  let stats := getStats now this in
  let swept := cleanupExpiredSessions now this in
  totalSessions stats = activeSessions stats + expiredSessions stats /\
  0 <= activeSessions stats /\ 0 <= expiredSessions stats /\
  expiredSessions stats = fst (fst swept) /\
  activeSessions stats = getSessionCount (snd swept).
Proof.
  intros Hwf. cbv zeta. unfold getStats, cleanupExpiredSessions.
  rewrite statsLoop_spec, cleanupLoop_spec.
  cbn [fst snd totalSessions activeSessions expiredSessions].
  rewrite removeKeys_selected by exact Hwf.
  rewrite !filter_map_snd, !length_map.
  unfold getSessionCount, JsMap.size. cbn [sessions with_sessions].
  pose proof (length_partition (fun e => expiredAt now (snd e))
                (sessions this)) as Hsplit.
  cbv beta in Hsplit.
  repeat split; lia.
Qed.

Lemma getStats_agrees_with_sweep_witness :
  let s := {| workSummary := "did Y"; feedback := []; startTime := 1000;
              timeout := 1000; resolve := None; reject := None |} in
  let this := createSession "s2" s (new 60000) in
  expiredSessions (getStats 3000 this) =
    fst (fst (cleanupExpiredSessions 3000 this)).
Proof.
  cbv zeta.
  apply (getStats_agrees_with_sweep 3000
    (createSession "s2"
       {| workSummary := "did Y"; feedback := []; startTime := 1000;
          timeout := 1000; resolve := None; reject := None |}
       (new 60000))).
  repeat constructor; simpl; tauto.
Defined.

Lemma filter_none {A : Type} (f : A -> bool) (l : list A) :
  (forall a, In a l -> f a = false) -> filter f l = [].
Proof.
  induction l as [|a l IH]; intros H; simpl; [reflexivity|].
  rewrite (H a) by now left. apply IH. intros b Hb. apply H. now right.
Qed.

(** X2: a sweep leaves nothing for a second sweep at the same or an
    earlier time: it evicts no session, calls no continuation and leaves
    the table as the first sweep left it. *)
Theorem cleanupExpiredSessions_idempotent (now now' : Z) (this : t) :
  JsMap.wf (sessions this) ->
  now' <= now ->
  let swept := snd (cleanupExpiredSessions now this) in
  cleanupExpiredSessions now' swept = (0, [], swept).
Proof.
  intros Hwf Hle. cbv zeta. unfold cleanupExpiredSessions.
  rewrite !cleanupLoop_spec. cbn [fst snd sessions with_sessions].
  rewrite removeKeys_selected by exact Hwf.
  rewrite (filter_none (fun e => expiredAt now' (snd e))).
  - cbn. now rewrite removeKeys_nil.
  - intros e He. apply filter_In in He. destruct He as [_ He].
    apply negb_true_iff in He. apply expiredAt_false in He.
    apply expiredAt_false. lia.
Qed.

Lemma cleanupExpiredSessions_idempotent_witness :
  let s := {| workSummary := "did Y"; feedback := []; startTime := 1000;
              timeout := 1000; resolve := Some 0%nat; reject := Some 0%nat |} in
  let swept :=
    snd (cleanupExpiredSessions 3000 (createSession "s2" s (new 60000))) in
  cleanupExpiredSessions 2500 swept = (0, [], swept).
Proof.
  cbv zeta.
  apply (cleanupExpiredSessions_idempotent 3000 2500
    (createSession "s2"
       {| workSummary := "did Y"; feedback := []; startTime := 1000;
          timeout := 1000; resolve := Some 0%nat; reject := Some 0%nat |}
       (new 60000))).
  - repeat constructor; simpl; tauto.
  - lia.
Defined.

Lemma length_remove_stored (k : string) (s : SessionData)
  (m : JsMap.t SessionData) :
  JsMap.wf m -> JsMap.get k m = Some s ->
  S (List.length (JsMap.remove k m)) = List.length m.
Proof.
  unfold JsMap.wf, JsMap.remove.
  induction m as [|[k' v'] m IH]; simpl; [discriminate|].
  intros Hnd Hget. inversion Hnd as [|? ? Hnotin Hnd']; subst.
  destruct (String.eqb_spec k k') as [->|Hne]; simpl.
  - f_equal. f_equal. apply (remove_absent k' m Hnotin).
  - f_equal. now apply IH.
Qed.

(** X3: [deleteSession] answers [true] exactly when the id is stored.
    Afterwards the id is gone and every other session is as before; the
    table has one session less when the id was stored; deleting again
    answers [false] and changes nothing. *)
Theorem deleteSession_removes_once (id : string) (this : t) :
  JsMap.wf (sessions this) ->
  let after := snd (deleteSession id this) in
  (fst (deleteSession id this) = true <->
     exists s, JsMap.get id (sessions this) = Some s) /\
  JsMap.get id (sessions after) = None /\
  (forall id', id' <> id ->
     JsMap.get id' (sessions after) = JsMap.get id' (sessions this)) /\
  getSessionCount after =
    getSessionCount this - (if fst (deleteSession id this) then 1 else 0) /\
  deleteSession id after = (false, after).
Proof.
  intros Hwf. cbv zeta. unfold deleteSession, JsMap.delete, JsMap.has.
  cbn [fst snd sessions with_sessions].
  split; [|split; [|split; [|split]]].
  - destruct (JsMap.get id (sessions this)) as [s|].
    + split; [intros _; now exists s|reflexivity].
    + split; [discriminate|]. intros [s Hs]. discriminate.
  - apply get_remove_same.
  - intros id' Hne. now apply get_remove_other.
  - unfold getSessionCount, JsMap.size. cbn [sessions with_sessions].
    destruct (JsMap.get id (sessions this)) as [s|] eqn:Hget.
    + pose proof (length_remove_stored id s _ Hwf Hget). lia.
    + apply get_None_keys in Hget. rewrite remove_absent by exact Hget. lia.
  - rewrite get_remove_same. f_equal. unfold with_sessions.
    cbn [sessions cleanupInterval cleanupIntervalMs]. f_equal.
    apply remove_absent. apply get_None_keys. apply get_remove_same.
Qed.

Lemma deleteSession_removes_once_witness :
  let s := {| workSummary := "did X"; feedback := []; startTime := 0;
              timeout := 60000; resolve := None; reject := None |} in
  let this := createSession "s1" s (new 60000) in
  getSessionCount (snd (deleteSession "s1" this)) = 0 /\
  deleteSession "s1" (snd (deleteSession "s1" this)) =
    (false, snd (deleteSession "s1" this)).
Proof.
  cbv zeta.
  pose proof (deleteSession_removes_once "s1"
    (createSession "s1"
       {| workSummary := "did X"; feedback := []; startTime := 0;
          timeout := 60000; resolve := None; reject := None |}
       (new 60000))
    ltac:(repeat constructor; simpl; tauto)) as [_ [_ [_ [Hcount Hagain]]]].
  split; [exact Hcount|exact Hagain].
Defined.


Lemma keys_set_stored (k : string) (v s : SessionData)
  (m : JsMap.t SessionData) :
  JsMap.get k m = Some s -> JsMap.keys (JsMap.set k v m) = JsMap.keys m.
Proof.
  intros Hget. rewrite keys_set. unfold JsMap.has. now rewrite Hget.
Qed.

(** X4: [updateSession] never creates a session: on an id that is not
    stored it answers [false] and leaves the storage as it was.  On a
    stored id it answers [true]; the session becomes the old one with the
    given fields assigned, it keeps its place in the iteration order, the
    set of ids and every other session are unchanged. *)
Theorem updateSession_in_place
  (id : string) (updates : PartialSessionData) (this : t) :
  (JsMap.get id (sessions this) = None ->
     updateSession id updates this = (false, this)) /\
  (forall s, JsMap.get id (sessions this) = Some s ->
     let after := snd (updateSession id updates this) in
     fst (updateSession id updates this) = true /\
     JsMap.get id (sessions after) = Some (assign s updates) /\
     JsMap.keys (sessions after) = JsMap.keys (sessions this) /\
     getSessionCount after = getSessionCount this /\
     (forall id', id' <> id ->
        JsMap.get id' (sessions after) = JsMap.get id' (sessions this))).
Proof.
  unfold updateSession. split.
  - intros Hget. now rewrite Hget.
  - intros s Hget. rewrite Hget. cbn [fst snd sessions with_sessions].
    split; [reflexivity|]. split; [apply get_set_same|].
    pose proof (keys_set_stored id (assign s updates) s _ Hget) as Hkeys.
    split; [exact Hkeys|]. split.
    + unfold getSessionCount, JsMap.size. cbn [sessions with_sessions].
      f_equal. unfold JsMap.keys in Hkeys.
      now rewrite <- (length_map fst), Hkeys, length_map.
    + intros id' Hne. now apply get_set_other.
Qed.

Lemma updateSession_in_place_witness :
  let s := {| workSummary := "did X"; feedback := []; startTime := 0;
              timeout := 60000; resolve := None; reject := None |} in
  let updates :=
    {| upd_workSummary := None; upd_feedback := Some [looksGood];
       upd_startTime := None; upd_timeout := None;
       upd_resolve := None; upd_reject := None |} in
  let this := createSession "s1" s (new 60000) in
  updateSession "s9" updates this = (false, this) /\
  feedback_of_s1 (snd (updateSession "s1" updates this)) = Some [looksGood].
Proof.
  cbv zeta.
  pose proof (updateSession_in_place "s9"
    {| upd_workSummary := None; upd_feedback := Some [looksGood];
       upd_startTime := None; upd_timeout := None;
       upd_resolve := None; upd_reject := None |}
    (createSession "s1"
       {| workSummary := "did X"; feedback := []; startTime := 0;
          timeout := 60000; resolve := None; reject := None |}
       (new 60000))) as [Hmissing _].
  pose proof (updateSession_in_place "s1"
    {| upd_workSummary := None; upd_feedback := Some [looksGood];
       upd_startTime := None; upd_timeout := None;
       upd_resolve := None; upd_reject := None |}
    (createSession "s1"
       {| workSummary := "did X"; feedback := []; startTime := 0;
          timeout := 60000; resolve := None; reject := None |}
       (new 60000))) as [_ Hstored].
  split; [apply Hmissing; reflexivity|].
  destruct (Hstored _ eq_refl) as [_ [Hget _]].
  unfold feedback_of_s1. now rewrite Hget.
Defined.

(** X5: what is created can be read back until its deadline.  After
    [createSession(id, data)], [getSession(id)] answers [data] and changes
    nothing at any time up to [startTime + timeout], and answers
    [undefined] at any later time; the table has one session more when the
    id was new and as many as before when it was in use. *)
Theorem createSession_getSession_round_trip
  (now : Z) (id : string) (data : SessionData) (this : t) :
  let created := createSession id data this in
  (now <= deadline data ->
     getSession now id created = (Some data, created)) /\
  (deadline data < now -> fst (getSession now id created) = None) /\
  getSessionCount created =
    getSessionCount this
    + (if JsMap.has id (sessions this) then 0 else 1).
Proof.
  cbv zeta. unfold getSession, createSession.
  cbn [sessions with_sessions]. rewrite get_set_same.
  fold (expiredAt now data). split; [|split].
  - intros Hlive. apply expiredAt_false in Hlive. now rewrite Hlive.
  - intros Hpast. apply expiredAt_deadline in Hpast. now rewrite Hpast.
  - unfold getSessionCount, JsMap.size. cbn [sessions with_sessions].
    rewrite <- !(length_map fst). fold (JsMap.keys (JsMap.set id data (sessions this))).
    fold (JsMap.keys (sessions this)). rewrite keys_set.
    destruct (JsMap.has id (sessions this)); [lia|].
    rewrite length_app. cbn [List.length]. lia.
Qed.

Lemma createSession_getSession_round_trip_witness :
  let data := {| workSummary := "did X"; feedback := []; startTime := 1000;
                 timeout := 60000; resolve := None; reject := None |} in
  let created := createSession "s1" data (new 60000) in
  getSession 61000 "s1" created = (Some data, created) /\
  fst (getSession 61001 "s1" created) = None.
Proof.
  cbv zeta.
  pose proof (createSession_getSession_round_trip 61000 "s1"
    {| workSummary := "did X"; feedback := []; startTime := 1000;
       timeout := 60000; resolve := None; reject := None |}
    (new 60000)) as [Hlive _].
  pose proof (createSession_getSession_round_trip 61001 "s1"
    {| workSummary := "did X"; feedback := []; startTime := 1000;
       timeout := 60000; resolve := None; reject := None |}
    (new 60000)) as [_ [Hpast _]].
  split; [apply Hlive|apply Hpast]; unfold deadline; simpl; lia.
Defined.

End SessionStoreFacts.

(* ------------------------------------------------------------------ *)
(** ** Submissions *)

Section SubmissionFacts.
Import JsMapFacts.

(** A submission to a stored session that has not expired. *)
Lemma submit_live (now : Z) (data : FeedbackData)
  (processed : list ImageData + string) (this : WebServer.t)
  (s : SessionData) :
  JsMap.get (sessionId data)
    (SessionStorage.sessions (WebServer.sessionStorage this)) = Some s ->
  now <= deadline s ->
  WebServer.handleFeedbackSubmission now data processed this =
    match acceptedForm data processed with
    | inr msg => (this, [WebServer.Emit (WebServer.feedback_error msg)])
    | inl fb =>
        let table :=
          JsMap.set (sessionId data) (answered s fb)
            (SessionStorage.sessions (WebServer.sessionStorage this)) in
        match resolve s with
        | Some k =>
            (WebServer.with_storage this
               (SessionStorage.with_sessions (WebServer.sessionStorage this)
                  (JsMap.remove (sessionId data) table)),
             [WebServer.Emit WebServer.feedback_submitted;
              WebServer.Invoke (CallResolve k (feedback s ++ [fb]))])
        | None =>
            (WebServer.with_storage this
               (SessionStorage.with_sessions (WebServer.sessionStorage this)
                  table),
             [WebServer.Emit WebServer.feedback_submitted])
        end
    end.
Proof.
  intros Hget Hlive. apply expiredAt_false in Hlive.
  unfold WebServer.handleFeedbackSubmission, SessionStorage.getSession.
  rewrite Hget. fold (expiredAt now s). rewrite Hlive.
  unfold acceptedForm, SessionStorage.updateSession. rewrite Hget.
  cbn [snd SessionStorage.deleteSession JsMap.delete fst
    SessionStorage.sessions SessionStorage.with_sessions].
  rewrite with_storage_same.
  destruct (negb (WebServer.hasText data) && negb (WebServer.hasImages data));
    [reflexivity|].
  destruct (WebServer.hasImages data); [destruct processed|];
    try reflexivity; cbv zeta; destruct (resolve s); reflexivity.
Qed.

(** X6: a submission for an id that is not stored, or whose session has
    passed its deadline, is answered with the one error "Session does not
    exist or has expired", whatever it carries.  No continuation is
    called and nothing is stored; an expired session is dropped from the
    table on the spot, its [reject] uncalled. *)
Theorem submit_unknown_or_expired (now : Z) (data : FeedbackData)
  (processed : list ImageData + string) (this : WebServer.t) :
  let table := SessionStorage.sessions (WebServer.sessionStorage this) in
  let result := WebServer.handleFeedbackSubmission now data processed this in
  (JsMap.get (sessionId data) table = None \/
   exists s, JsMap.get (sessionId data) table = Some s /\ deadline s < now) ->
  snd result =
    [WebServer.Emit
       (WebServer.feedback_error "Session does not exist or has expired")] /\
  SessionStorage.sessions (WebServer.sessionStorage (fst result)) =
    JsMap.remove (sessionId data) table /\
  (forall id', id' <> sessionId data ->
     JsMap.get id'
       (SessionStorage.sessions (WebServer.sessionStorage (fst result))) =
     JsMap.get id' table).
Proof.
  cbv zeta. intros H.
  unfold WebServer.handleFeedbackSubmission, SessionStorage.getSession.
  destruct H as [Hnone|[s [Hget Hpast]]].
  - rewrite Hnone. cbn [fst snd WebServer.with_storage
      WebServer.sessionStorage].
    split; [reflexivity|]. apply get_None_keys in Hnone.
    rewrite remove_absent by exact Hnone. split; [reflexivity|]. reflexivity.
  - rewrite Hget. fold (expiredAt now s).
    apply expiredAt_deadline in Hpast. rewrite Hpast.
    cbn [fst snd WebServer.with_storage WebServer.sessionStorage
      SessionStorage.deleteSession JsMap.delete SessionStorage.sessions
      SessionStorage.with_sessions].
    split; [reflexivity|]. split; [reflexivity|].
    intros id' Hne. now apply get_remove_other.
Qed.

Lemma submit_unknown_or_expired_witness :
  let this :=
    fst (WebServer.run [WebServer.EvCollectFeedback "did X" 60 0 "s1"]
           (WebServer.started 5000)) in
  snd (WebServer.handleFeedbackSubmission 60001 looksGood (inl []) this) =
    [WebServer.Emit
       (WebServer.feedback_error "Session does not exist or has expired")].
Proof.
  cbv zeta.
  apply (submit_unknown_or_expired 60001 looksGood (inl [])
    (fst (WebServer.run [WebServer.EvCollectFeedback "did X" 60 0 "s1"]
            (WebServer.started 5000)))).
  right. eexists. split; [reflexivity|]. unfold deadline. simpl. lia.
Defined.

(** X7: a submission that is turned down leaves no trace.  For a stored
    session before its deadline, a submission with neither text nor
    image, and a submission whose images [processImages] fails on, change
    nothing in the server (the text that came with the images is not
    stored either) and call no continuation: the only effect is one
    ['feedback_error']. *)
Theorem submit_rejected_leaves_no_trace (now : Z) (data : FeedbackData)
  (processed : list ImageData + string) (this : WebServer.t)
  (s : SessionData) (msg : string) :
  JsMap.get (sessionId data)
    (SessionStorage.sessions (WebServer.sessionStorage this)) = Some s ->
  now <= deadline s ->
  acceptedForm data processed = inr msg ->
  WebServer.handleFeedbackSubmission now data processed this =
    (this, [WebServer.Emit (WebServer.feedback_error msg)]).
Proof.
  intros Hget Hlive Hform.
  rewrite (submit_live now data processed this s Hget Hlive).
  now rewrite Hform.
Qed.

Lemma submit_rejected_leaves_no_trace_witness :
  let this :=
    fst (WebServer.run [WebServer.EvCollectFeedback "did X" 60 0 "s1"]
           (WebServer.started 5000)) in
  let empty := {| text := Some ""%string; images := Some [];
                  timestamp := 1000; sessionId := "s1" |} in
  WebServer.handleFeedbackSubmission 1000 empty (inl []) this =
    (this,
     [WebServer.Emit
        (WebServer.feedback_error
           "Please provide text feedback or upload images")]).
Proof.
  cbv zeta.
  apply (submit_rejected_leaves_no_trace 1000
    {| text := Some ""%string; images := Some [];
       timestamp := 1000; sessionId := "s1" |} (inl [])
    (fst (WebServer.run [WebServer.EvCollectFeedback "did X" 60 0 "s1"]
            (WebServer.started 5000)))
    {| workSummary := "did X"; feedback := []; startTime := 0;
       timeout := 60000; resolve := Some 0%nat; reject := Some 0%nat |}).
  - reflexivity.
  - unfold deadline. simpl. lia.
  - reflexivity.
Defined.









End SubmissionFacts.

(* ------------------------------------------------------------------ *)
(** ** Waiting for a port, cleaning a port, starting *)

Section PortLifecycleFacts.
Import Os.
Context {W : Type} {os : Facilities W} {clock : Timed.Clock W}.

Lemma killedPids_app (a b : list OsCall) :
  killedPids (a ++ b) = killedPids a ++ killedPids b.
Proof. apply flat_map_app. Qed.

Lemma quiet_app (a b : list OsCall) : quiet a -> quiet b -> quiet (a ++ b).
Proof. unfold quiet. intros Ha Hb. now rewrite killedPids_app, Ha, Hb. Qed.

Lemma quiet_no_kill (tr : list OsCall) (target : Z) (force done : bool) :
  quiet tr -> ~ In (CKill target force done) tr.
Proof.
  unfold quiet, killedPids. intros Hq Hin.
  assert (In target (flat_map
    (fun c => match c with CKill p _ _ => [p] | _ => [] end) tr)).
  { apply in_flat_map. eexists. split; [exact Hin|]. now left. }
  rewrite Hq in H. contradiction.
Qed.

(** Rules for [Traces] when [T] holds of no call and is kept by
    concatenation. *)
Section Rules.
Variable T : list OsCall -> Prop.
Hypothesis T_nil : T [].
Hypothesis T_app : forall a b, T a -> T b -> T (a ++ b).

Lemma traces_ret {A : Type} (a : A) : Traces (@ret W A a) T.
Proof. intros s. exists []. cbn. now rewrite app_nil_r. Qed.

Lemma traces_throw {A : Type} (e : MCPError) : Traces (@throw W A e) T.
Proof. intros s. exists []. cbn. now rewrite app_nil_r. Qed.

Lemma traces_now : Traces Timed.now T.
Proof.
  intros s. exists []. unfold Timed.now.
  destruct (Timed.dateNow (world s)). cbn. now rewrite app_nil_r.
Qed.

Lemma traces_call {A : Type} (c : A -> OsCall) (f : W -> A * W) :
  (forall a, T [c a]) -> Traces (call c f) T.
Proof.
  intros Hc s. unfold call. destruct (f (world s)) as [a w'].
  exists [c a]. cbn. auto.
Qed.

Lemma traces_bind {A B : Type} (m : M W A) (k : A -> M W B) :
  Traces m T -> (forall a, Traces (k a) T) -> Traces (bind m k) T.
Proof.
  intros Hm Hk s. unfold bind. destruct (Hm s) as [tr1 [H1 HT1]].
  destruct (m s) as [[a|e] s1]; cbn [fst snd] in *.
  - destruct (Hk a s1) as [tr2 [H2 HT2]]. exists (tr1 ++ tr2).
    rewrite H2, H1, app_assoc. auto.
  - exists tr1. auto.
Qed.

Lemma traces_tryCatch {A : Type} (m : M W A) (h : MCPError -> M W A) :
  Traces m T -> (forall e, Traces (h e) T) -> Traces (Timed.tryCatch m h) T.
Proof.
  intros Hm Hh s. unfold Timed.tryCatch. destruct (Hm s) as [tr1 [H1 HT1]].
  destruct (m s) as [[a|e] s1]; cbn [fst snd] in *.
  - exists tr1. auto.
  - destruct (Hh e s1) as [tr2 [H2 HT2]]. exists (tr1 ++ tr2).
    rewrite H2, H1, app_assoc. auto.
Qed.

End Rules.

Lemma quiet_isPortAvailable (p : Z) : Traces (PortManager.isPortAvailable p) quiet.
Proof.
  unfold PortManager.isPortAvailable.
  apply (traces_bind quiet quiet_app).
  - apply (traces_call quiet); reflexivity.
  - intros []; apply (traces_ret quiet eq_refl).
Qed.

Lemma quiet_getPortProcess (p : Z) :
  Traces (ProcessManager.getPortProcess p) quiet.
Proof. apply (traces_call quiet); reflexivity. Qed.

Lemma quiet_delay (ms : Z) : Traces (ProcessManager.delay ms) quiet.
Proof. apply (traces_call quiet); reflexivity. Qed.

Lemma quiet_isPortTrulyAvailable (p : Z) :
  Traces (Timed.isPortTrulyAvailable p) quiet.
Proof.
  unfold Timed.isPortTrulyAvailable.
  apply (traces_bind quiet quiet_app).
  - apply quiet_isPortAvailable.
  - intros []; cbn [negb].
    + apply (traces_bind quiet quiet_app).
      * apply quiet_getPortProcess.
      * intros [?|]; apply (traces_ret quiet eq_refl).
    + apply (traces_ret quiet eq_refl).
Qed.

Lemma quiet_waitLoop (fuel : nat) (port timeoutMs startTime : Z) :
  Traces (Timed.waitLoop fuel port timeoutMs startTime) quiet.
Proof.
  induction fuel as [|fuel IH]; cbn [Timed.waitLoop].
  - apply (traces_ret quiet eq_refl).
  - apply (traces_bind quiet quiet_app).
    + apply (traces_now quiet eq_refl).
    + intros t. destruct (t - startTime <? timeoutMs).
      * apply (traces_bind quiet quiet_app).
        -- apply quiet_isPortTrulyAvailable.
        -- intros []; [apply (traces_ret quiet eq_refl)|].
           apply (traces_bind quiet quiet_app);
             [apply quiet_delay|intros _; exact IH].
      * apply (traces_throw quiet eq_refl).
Qed.

Lemma quiet_waitForPortRelease (fuel : nat) (port timeoutMs : Z) :
  Traces (Timed.waitForPortRelease fuel port timeoutMs) quiet.
Proof.
  unfold Timed.waitForPortRelease.
  apply (traces_bind quiet quiet_app).
  - apply (traces_now quiet eq_refl).
  - intros t. apply quiet_waitLoop.
Qed.


(** The deep check, call by call. *)
Lemma isPortTrulyAvailable_run (port : Z) (s : Sys W) :
  Timed.isPortTrulyAvailable port s =
    let o := fst (listen port (world s)) in
    let w1 := snd (listen port (world s)) in
    if isListening o then
      let owner := fst (portProcess port w1) in
      (Returned (match owner with None => true | Some _ => false end),
       mkSys (snd (portProcess port w1))
         ((calls s ++ [CListen port o]) ++ [CPortProcess port owner]))
    else (Returned false, mkSys w1 (calls s ++ [CListen port o])).
Proof.
  unfold Timed.isPortTrulyAvailable. unfold bind at 1.
  rewrite isPortAvailable_run. cbv zeta.
  destruct (isListening (fst (listen port (world s)))); cbn [negb];
    [|reflexivity].
  unfold bind, ProcessManager.getPortProcess, call. cbn [world calls].
  destruct (portProcess port _) as [[occupant|] w2]; reflexivity.
Qed.

(** One round of the waiting loop. *)
Lemma waitLoop_step (fuel : nat) (port timeoutMs startTime : Z) (s : Sys W) :
  Timed.waitLoop (S fuel) port timeoutMs startTime s =
    let t := fst (Timed.dateNow (world s)) in
    let w0 := snd (Timed.dateNow (world s)) in
    if t - startTime <? timeoutMs then
      let o := fst (listen port w0) in
      let w1 := snd (listen port w0) in
      if isListening o then
        let owner := fst (portProcess port w1) in
        let w2 := snd (portProcess port w1) in
        match owner with
        | None =>
            (Returned (Some tt),
             mkSys w2 ((calls s ++ [CListen port o])
                       ++ [CPortProcess port None]))
        | Some occupant =>
            Timed.waitLoop fuel port timeoutMs startTime
              (mkSys (sleep 200 w2)
                 (((calls s ++ [CListen port o])
                   ++ [CPortProcess port (Some occupant)]) ++ [CSleep 200]))
        end
      else
        Timed.waitLoop fuel port timeoutMs startTime
          (mkSys (sleep 200 w1)
             ((calls s ++ [CListen port o]) ++ [CSleep 200]))
    else (Thrown (Timed.releaseTimeoutError port timeoutMs),
          mkSys w0 (calls s)).
Proof.
  cbn [Timed.waitLoop]. unfold bind at 1. unfold Timed.now at 1.
  destruct (Timed.dateNow (world s)) as [t w0]. cbn [fst snd]. cbv zeta.
  destruct (t - startTime <? timeoutMs); [|reflexivity].
  unfold bind at 1. rewrite isPortTrulyAvailable_run. cbn [world calls].
  cbv zeta.
  destruct (isListening (fst (listen port w0))).
  - destruct (fst (portProcess port _)) as [occupant|]; [|reflexivity].
    unfold bind, ProcessManager.delay, call. reflexivity.
  - unfold bind, ProcessManager.delay, call. reflexivity.
Qed.

Lemma waitLoop_outcome (fuel : nat) (port timeoutMs startTime : Z) :
  forall s : Sys W,
    match fst (Timed.waitLoop fuel port timeoutMs startTime s) with
    | Returned (Some _) =>
        exists pre,
          calls (snd (Timed.waitLoop fuel port timeoutMs startTime s)) =
            calls s ++ pre ++ [CListen port Listening; CPortProcess port None]
    | Returned None => True
    | Thrown e => e = Timed.releaseTimeoutError port timeoutMs
    end.
Proof.
  induction fuel as [|fuel IH]; intros s; [exact I|].
  rewrite waitLoop_step. cbv zeta.
  destruct (_ <? _); [|reflexivity].
  destruct (listen port _) as [o w1]. cbn [fst snd].
  destruct (isListening o) eqn:Ho.
  - destruct (portProcess port w1) as [[occupant|] w2]; cbn [fst snd].
    + specialize (IH (mkSys (sleep 200 w2)
        (((calls s ++ [CListen port o])
          ++ [CPortProcess port (Some occupant)]) ++ [CSleep 200]))).
      destruct (fst (Timed.waitLoop fuel port timeoutMs startTime _))
        as [[[]|]|e]; try exact IH.
      destruct IH as [pre Hpre]. cbn [calls] in Hpre.
      exists ([CListen port o; CPortProcess port (Some occupant); CSleep 200]
              ++ pre).
      rewrite Hpre, <- !app_assoc. reflexivity.
    + exists []. destruct o; try discriminate.
      now rewrite <- app_assoc.
  - specialize (IH (mkSys (sleep 200 w1)
      ((calls s ++ [CListen port o]) ++ [CSleep 200]))).
    destruct (fst (Timed.waitLoop fuel port timeoutMs startTime _))
      as [[[]|]|e]; try exact IH.
    destruct IH as [pre Hpre]. cbn [calls] in Hpre.
    exists ([CListen port o; CSleep 200] ++ pre).
    rewrite Hpre, <- !app_assoc. reflexivity.
Qed.

Lemma waitForPortRelease_unfold (fuel : nat) (port timeoutMs : Z) (s : Sys W) :
  Timed.waitForPortRelease fuel port timeoutMs s =
    Timed.waitLoop fuel port timeoutMs (fst (Timed.dateNow (world s)))
      (mkSys (snd (Timed.dateNow (world s))) (calls s)).
Proof.
  unfold Timed.waitForPortRelease, bind, Timed.now.
  now destruct (Timed.dateNow (world s)).
Qed.

(** X10: [waitForPortRelease] only looks.  Whatever the machine does, it
    sends no signal; it returns only straight after a bind test on the
    port succeeded and the inquiry that followed listed no owner; and the
    only error it throws is [PORT_RELEASE_TIMEOUT]. *)
Theorem waitForPortRelease_only_looks
  (fuel : nat) (port timeoutMs : Z) (s : Sys W) :
  let result := Timed.waitForPortRelease fuel port timeoutMs s in
  exists tr,
    calls (snd result) = calls s ++ tr /\
    killedPids tr = [] /\
    match fst result with
    | Returned (Some _) =>
        exists pre,
          tr = pre ++ [CListen port Listening; CPortProcess port None]
    | Returned None => True
    | Thrown e => e = Timed.releaseTimeoutError port timeoutMs
    end.
Proof.
  cbv zeta.
  destruct (quiet_waitForPortRelease fuel port timeoutMs s) as [tr [Htr Hq]].
  exists tr. split; [exact Htr|]. split; [exact Hq|].
  rewrite waitForPortRelease_unfold in *.
  pose proof (waitLoop_outcome fuel port timeoutMs
    (fst (Timed.dateNow (world s)))
    (mkSys (snd (Timed.dateNow (world s))) (calls s))) as Hout.
  destruct (fst (Timed.waitLoop _ _ _ _ _)) as [[[]|]|e]; try exact Hout.
  destruct Hout as [pre Hpre]. exists pre. cbn [calls] in Hpre.
  rewrite Htr in Hpre. now apply app_inv_head in Hpre.
Qed.

(** X11: a wait whose time is up at the first look fails without looking.
    When the second reading of the clock is [timeoutMs] or more after the
    first, as with a timeout of 0 on a clock that does not run backwards,
    [waitForPortRelease] throws [PORT_RELEASE_TIMEOUT] without a single
    bind test or inquiry, be the port free or not. *)
Theorem waitForPortRelease_no_time_no_look
  (fuel : nat) (port timeoutMs : Z) (s : Sys W) :
  let t0 := fst (Timed.dateNow (world s)) in
  let t1 := fst (Timed.dateNow (snd (Timed.dateNow (world s)))) in
  timeoutMs <= t1 - t0 ->
  let result := Timed.waitForPortRelease (S fuel) port timeoutMs s in
  fst result = Thrown (Timed.releaseTimeoutError port timeoutMs) /\
  calls (snd result) = calls s.
Proof.
  cbv zeta. intros Hup.
  rewrite waitForPortRelease_unfold, waitLoop_step. cbn [world calls].
  cbv zeta.
  replace (_ <? timeoutMs) with false
    by (symmetry; apply Z.ltb_ge; exact Hup).
  split; reflexivity.
Qed.

(** The waiting loop ends when the clock follows the waits: a loop that
    may run one round more than the whole of 200 ms waits the time left
    allows does not use them up. *)
Lemma waitLoop_ends (time : W -> Z) (port timeoutMs startTime : Z) :
  (forall w, fst (Timed.dateNow w) = time w /\
             time w <= time (snd (Timed.dateNow w))) ->
  (forall p w, time w <= time (snd (listen p w))) ->
  (forall p w, time w <= time (snd (portProcess p w))) ->
  (forall ms w, time w + ms <= time (sleep ms w)) ->
  forall (fuel : nat) (s : Sys W),
    timeoutMs - (time (world s) - startTime) <= 200 * Z.of_nat fuel ->
    fst (Timed.waitLoop (S fuel) port timeoutMs startTime s) <> Returned None.
Proof.
  intros Hclock Hlisten Hproc Hsleep.
  induction fuel as [|fuel IH]; intros s Hleft; rewrite waitLoop_step;
    cbv zeta; destruct (Hclock (world s)) as [Hread Hkeep]; rewrite Hread;
    destruct (_ <? _) eqn:Hin; try discriminate;
    apply Z.ltb_lt in Hin.
  - lia.
  - pose proof (Hlisten port (snd (Timed.dateNow (world s)))) as H1.
    destruct (isListening _).
    + pose proof (Hproc port
        (snd (listen port (snd (Timed.dateNow (world s)))))) as H2.
      destruct (fst (portProcess port _)); [|discriminate].
      apply IH. cbn [world].
      pose proof (Hsleep 200 (snd (portProcess port
        (snd (listen port (snd (Timed.dateNow (world s)))))))) as H3.
      lia.
    + apply IH. cbn [world].
      pose proof (Hsleep 200
        (snd (listen port (snd (Timed.dateNow (world s)))))) as H3.
      lia.
Qed.

(** X12: [waitForPortRelease] ends.  On a machine whose clock never runs
    backwards and moves on by at least the time waited, the loop is over,
    with the port released or with [PORT_RELEASE_TIMEOUT], by the round
    after [timeoutMs / 200] waits: that many rounds and one are never
    used up. *)
Theorem waitForPortRelease_ends
  (time : W -> Z) (fuel : nat) (port timeoutMs : Z) (s : Sys W) :
  (forall w, fst (Timed.dateNow w) = time w /\
             time w <= time (snd (Timed.dateNow w))) ->
  (forall p w, time w <= time (snd (listen p w))) ->
  (forall p w, time w <= time (snd (portProcess p w))) ->
  (forall ms w, time w + ms <= time (sleep ms w)) ->
  timeoutMs <= 200 * Z.of_nat fuel ->
  fst (Timed.waitForPortRelease (S fuel) port timeoutMs s) <> Returned None.
Proof.
  intros Hclock Hlisten Hproc Hsleep Hfuel.
  rewrite waitForPortRelease_unfold.
  apply (waitLoop_ends time); try assumption.
  cbn [world]. destruct (Hclock (world s)) as [Hread Hkeep].
  rewrite Hread. lia.
Qed.

End PortLifecycleFacts.

Lemma waitForPortRelease_no_time_no_look_witness :
  let free := Machine.mk [] [] [] in
  fst (Timed.waitForPortRelease 1 5000 0 (TimedMachine.boot free 1000)) =
    Os.Thrown (Timed.releaseTimeoutError 5000 0).
Proof.
  cbv zeta.
  apply (waitForPortRelease_no_time_no_look 0 5000 0
           (TimedMachine.boot (Machine.mk [] [] []) 1000)).
  simpl. lia.
Defined.

Lemma waitForPortRelease_ends_witness :
  let held :=
    Machine.mk [(5000, Machine.proc 812 "sshd" "/usr/sbin/sshd -D" 5000)]
      [] [] in
  fst (Timed.waitForPortRelease 26 5000 5000 (TimedMachine.boot held 0))
    <> Os.Returned None.
Proof.
  cbv zeta.
  apply (waitForPortRelease_ends snd 25 5000 5000).
  - intros w. simpl. lia.
  - intros p [m t]. simpl. lia.
  - intros p [m t]. simpl. lia.
  - intros ms [m t]. simpl. lia.
  - lia.
Defined.

(* ------------------------------------------------------------------ *)
(** ** Cleaning a port, releasing a port, the status of the range *)

Section PortCleanupFacts.
Import Os.
Context {W : Type} {os : Facilities W} {clock : Timed.Clock W}.

Lemma safe_nil : signalsOnlySafe [].
Proof. intros target force done []. Qed.

Lemma safe_app (a b : list OsCall) :
  signalsOnlySafe a -> signalsOnlySafe b -> signalsOnlySafe (a ++ b).
Proof.
  intros Ha Hb target force done Hin.
  apply in_app_or in Hin as [Hin|Hin].
  - destruct (Ha _ _ _ Hin) as [p [occupant [Hp Hrest]]].
    exists p, occupant. split; [apply in_or_app; now left|exact Hrest].
  - destruct (Hb _ _ _ Hin) as [p [occupant [Hp Hrest]]].
    exists p, occupant. split; [apply in_or_app; now right|exact Hrest].
Qed.

Lemma safe_of_quiet (tr : list OsCall) : quiet tr -> signalsOnlySafe tr.
Proof.
  intros Hq target force done Hin. now apply quiet_no_kill in Hin.
Qed.

Lemma graceful_of_quiet (tr : list OsCall) : quiet tr -> gracefulOnly tr.
Proof.
  intros Hq target force done Hin. now apply quiet_no_kill in Hin.
Qed.

Lemma traces_weaken {A : Type} (m : M W A) (T T' : list OsCall -> Prop) :
  (forall tr, T tr -> T' tr) -> Traces m T -> Traces m T'.
Proof.
  intros Hw Hm s. destruct (Hm s) as [tr [Htr HT]]. exists tr. auto.
Qed.

(** [cleanupPort], one statement at a time. *)
Lemma cleanupPort_unfold (fuel : nat) (port : Z) (s : Sys W) :
  Timed.cleanupPort fuel port s =
    let owner := fst (portProcess port (world s)) in
    let s1 := mkSys (snd (portProcess port (world s)))
                (calls s ++ [CPortProcess port owner]) in
    match owner with
    | None => (Returned (Some tt), s1)
    | Some occupant =>
        if ProcessManager.isSafeToKill occupant then
          let done := fst (kill (pid occupant) false (world s1)) in
          let s2 := mkSys (snd (kill (pid occupant) false (world s1)))
                      (calls s1 ++ [CKill (pid occupant) false done]) in
          if done then
            Timed.tryCatch (Timed.waitForPortRelease fuel port 5000)
              (fun _ => ret (Some tt)) s2
          else (Returned (Some tt), s2)
        else (Returned (Some tt), s1)
    end.
Proof.
  unfold Timed.cleanupPort. unfold bind at 1.
  unfold ProcessManager.getPortProcess at 1. unfold call at 1.
  destruct (portProcess port (world s)) as [[occupant|] w1]; cbn [fst snd];
    [|reflexivity].
  cbv zeta. destruct (ProcessManager.isSafeToKill occupant); cbn [negb];
    [|reflexivity].
  unfold bind at 1. unfold ProcessManager.killProcess, call.
  cbn [world calls].
  now destruct (kill (pid occupant) false w1) as [[|] w2].
Qed.

(** [cleanupPort], call by call. *)
Lemma cleanupPort_run (fuel : nat) (port : Z) (s : Sys W) :
  let result := Timed.cleanupPort fuel port s in
  (exists r, fst result = Returned r) /\
  exists tr,
    calls (snd result) = calls s ++ tr /\
    match fst (portProcess port (world s)) with
    | None => tr = [CPortProcess port None]
    | Some occupant =>
        if ProcessManager.isSafeToKill occupant then
          exists done rest,
            tr = CPortProcess port (Some occupant)
                 :: CKill (pid occupant) false done :: rest /\
            quiet rest /\ (done = false -> rest = [])
        else tr = [CPortProcess port (Some occupant)]
    end.
Proof.
  cbv zeta. rewrite cleanupPort_unfold. cbv zeta.
  destruct (portProcess port (world s)) as [[occupant|] w1]; cbn [fst snd].
  - destruct (ProcessManager.isSafeToKill occupant).
    + cbn [world calls].
      destruct (kill (pid occupant) false w1) as [[|] w2]; cbn [fst snd].
      * unfold Timed.tryCatch.
        destruct (quiet_waitForPortRelease fuel port 5000
          (mkSys w2 ((calls s ++ [CPortProcess port (Some occupant)])
                     ++ [CKill (pid occupant) false true])))
          as [rest [Hrest Hq]].
        destruct (Timed.waitForPortRelease fuel port 5000 _) as [[r|e] s3];
          cbn [fst snd ret calls] in *.
        -- split; [now exists r|].
           exists (CPortProcess port (Some occupant)
                   :: CKill (pid occupant) false true :: rest).
           split; [rewrite Hrest, <- !app_assoc; reflexivity|].
           exists true, rest. split; [reflexivity|].
           split; [exact Hq|discriminate].
        -- split; [now exists (Some tt)|].
           exists (CPortProcess port (Some occupant)
                   :: CKill (pid occupant) false true :: rest).
           split; [rewrite Hrest, <- !app_assoc; reflexivity|].
           exists true, rest. split; [reflexivity|].
           split; [exact Hq|discriminate].
      * split; [now exists (Some tt)|].
        exists [CPortProcess port (Some occupant);
                CKill (pid occupant) false false].
        split; [rewrite <- !app_assoc; reflexivity|].
        exists false, []. split; [reflexivity|]. split; reflexivity.
    + split; [now exists (Some tt)|].
      now exists [CPortProcess port (Some occupant)].
  - split; [now exists (Some tt)|].
    now exists [CPortProcess port None].
Qed.

(** X13: [cleanupPort] is gentle.  It never throws; it sends at most one
    signal, the graceful one, and that to a process the inquiry of this
    very call reported for a port and that [isSafeToKill] accepts. *)
Theorem cleanupPort_gentle (fuel : nat) (port : Z) (s : Sys W) :
  let result := Timed.cleanupPort fuel port s in
  (forall e, fst result <> Thrown e) /\
  exists tr,
    calls (snd result) = calls s ++ tr /\
    (List.length (killedPids tr) <= 1)%nat /\
    gracefulOnly tr /\
    signalsOnlySafe tr.
Proof.
  cbv zeta. destruct (cleanupPort_run fuel port s) as [[r Hr] [tr [Htr Hshape]]].
  split; [intros e He; rewrite Hr in He; discriminate|].
  exists tr. split; [exact Htr|].
  destruct (fst (portProcess port (world s))) as [occupant|].
  - destruct (ProcessManager.isSafeToKill occupant) eqn:Hsafe.
    + destruct Hshape as [done [rest [-> [Hq Hnone]]]].
      split.
      { unfold quiet, killedPids in *. cbn [flat_map app].
        rewrite Hq. cbn. lia. }
      split.
      * intros target force done' [Hin|[Hin|Hin]]; try discriminate.
        -- now inversion Hin.
        -- now apply quiet_no_kill in Hin.
      * intros target force done' [Hin|[Hin|Hin]]; try discriminate.
        -- inversion Hin; subst. exists port, occupant.
           split; [now left|]. split; [reflexivity|exact Hsafe].
        -- now apply quiet_no_kill in Hin.
    + subst tr. split; [cbn; lia|].
      split; [apply graceful_of_quiet|apply safe_of_quiet]; reflexivity.
  - subst tr. split; [cbn; lia|].
    split; [apply graceful_of_quiet|apply safe_of_quiet]; reflexivity.
Qed.

(** X14: [PortManager.forceReleasePort] releases nothing by force.  It
    sends no signal to any process: it waits, returns only straight after
    a bind test on the port succeeded and the inquiry after it listed no
    owner, and throws nothing but [FORCE_RELEASE_FAILED]. *)
Theorem forceReleasePort_sends_no_signal (fuel : nat) (port : Z) (s : Sys W) :
  let result := Timed.forceReleasePort fuel port s in
  exists tr,
    calls (snd result) = calls s ++ tr /\
    killedPids tr = [] /\
    match fst result with
    | Returned (Some _) =>
        exists pre,
          tr = pre ++ [CListen port Listening; CPortProcess port None]
    | Returned None => True
    | Thrown e => e = Timed.forceReleaseFailedError port
    end.
Proof.
  cbv zeta. unfold Timed.forceReleasePort, Timed.tryCatch.
  destruct (quiet_waitForPortRelease fuel port 3000 s) as [tr [Htr Hq]].
  rewrite waitForPortRelease_unfold in *.
  pose proof (waitLoop_outcome fuel port 3000
    (fst (Timed.dateNow (world s)))
    (mkSys (snd (Timed.dateNow (world s))) (calls s))) as Hout.
  destruct (Timed.waitLoop _ _ _ _ _) as [[[[]|]|e] s1];
    cbn [fst snd throw calls] in *; exists tr;
    (split; [exact Htr|]); (split; [exact Hq|]); try reflexivity.
  destruct Hout as [pre Hpre]. exists pre.
  rewrite Htr in Hpre. now apply app_inv_head in Hpre.
Qed.

Lemma statusLoop_step (fuel : nat) (port : Z)
  (results : list Timed.PortInfo) (s : Sys W) :
  Timed.statusLoop (S fuel) port results s =
    if port <=? PortManager.PORT_RANGE_END then
      let o := fst (listen port (world s)) in
      Timed.statusLoop fuel (port + 1)
        (results ++ [{| Timed.info_port := port;
                        Timed.info_available := isListening o;
                        Timed.info_pid := None |}])
        (mkSys (snd (listen port (world s))) (calls s ++ [CListen port o]))
    else (Returned results, s).
Proof.
  cbn [Timed.statusLoop].
  destruct (port <=? PortManager.PORT_RANGE_END); [|reflexivity].
  unfold bind at 1. unfold Timed.getPortInfo. unfold bind at 1.
  now rewrite isPortAvailable_run.
Qed.

(** The scan of [getPortRangeStatus] from [port] on. *)
Lemma statusLoop_run (fuel : nat) :
  forall (port : Z) (results : list Timed.PortInfo) (s : Sys W),
    port + Z.of_nat fuel - 1 <= PortManager.PORT_RANGE_END ->
    exists outcomes : list ListenOutcome,
      List.length outcomes = fuel /\
      let scanned := combine (zseq port fuel) outcomes in
      fst (Timed.statusLoop fuel port results s) =
        Returned
          (results ++
           map (fun x => {| Timed.info_port := fst x;
                            Timed.info_available := isListening (snd x);
                            Timed.info_pid := None |}) scanned) /\
      calls (snd (Timed.statusLoop fuel port results s)) =
        calls s ++ map (fun x => CListen (fst x) (snd x)) scanned.
Proof.
  induction fuel as [|fuel IH]; intros port results s Hin.
  - exists []. split; [reflexivity|]. cbn. now rewrite !app_nil_r.
  - rewrite statusLoop_step.
    replace (port <=? PortManager.PORT_RANGE_END) with true
      by (symmetry; apply Z.leb_le; lia).
    cbv zeta.
    destruct (listen port (world s)) as [o w1]. cbn [fst snd].
    destruct (IH (port + 1)
      (results ++ [{| Timed.info_port := port;
                      Timed.info_available := isListening o;
                      Timed.info_pid := None |}])
      (mkSys w1 (calls s ++ [CListen port o])))
      as [outcomes [Hlen [Hfst Hcalls]]]; [lia|].
    exists (o :: outcomes). split; [cbn; now rewrite Hlen|].
    cbv zeta in *. rewrite Hfst, Hcalls.
    cbn [zseq combine map fst snd calls].
    rewrite <- !app_assoc. split; reflexivity.
Qed.

(** X15: [getPortRangeStatus] tries each port of 5000..5019 once, in
    ascending order, and nothing else; it answers with one record a
    port, in the same order, that tells whether the bind test on the
    port succeeded and never names a process. *)
Theorem getPortRangeStatus_scans_range (s : Sys W) :
  let result := Timed.getPortRangeStatus s in
  exists outcomes : list ListenOutcome,
    List.length outcomes = 20%nat /\
    let scanned := combine (zseq 5000 20) outcomes in
    fst result =
      Returned
        (map (fun x => {| Timed.info_port := fst x;
                          Timed.info_available := isListening (snd x);
                          Timed.info_pid := None |}) scanned) /\
    calls (snd result) =
      calls s ++ map (fun x => CListen (fst x) (snd x)) scanned.
Proof.
  cbv zeta. unfold Timed.getPortRangeStatus.
  destruct (statusLoop_run
    (Z.to_nat (PortManager.PORT_RANGE_END - PortManager.PORT_RANGE_START + 1))
    PortManager.PORT_RANGE_START [] s) as [outcomes [Hlen Hrun]];
    [unfold PortManager.PORT_RANGE_END, PortManager.PORT_RANGE_START; lia|].
  exists outcomes. split; [exact Hlen|]. exact Hrun.
Qed.

End PortCleanupFacts.

(* ------------------------------------------------------------------ *)
(** ** Starting the server *)

Section StartFacts.
Import Os.
Context {W : Type} {os : Facilities W} {clock : Timed.Clock W}.

Lemma only_to_nil (target : Z) : signalsOnlyTo target [].
Proof. intros t force done []. Qed.

Lemma only_to_app (target : Z) (a b : list OsCall) :
  signalsOnlyTo target a -> signalsOnlyTo target b ->
  signalsOnlyTo target (a ++ b).
Proof.
  intros Ha Hb t force done Hin.
  apply in_app_or in Hin as [Hin|Hin]; eauto.
Qed.

(** A call whose answer decides what the rest may do. *)
Lemma traces_call_then {A B : Type} (c : A -> OsCall) (f : W -> A * W)
  (k : A -> M W B) (T : list OsCall -> Prop)
  (T' : A -> list OsCall -> Prop) :
  (forall a, Traces (k a) (T' a)) ->
  (forall a tr, T' a tr -> T (c a :: tr)) ->
  Traces (bind (call c f) k) T.
Proof.
  intros Hk HT s. unfold bind, call. destruct (f (world s)) as [a w'].
  destruct (Hk a (mkSys w' (calls s ++ [c a]))) as [tr [Htr HT']].
  exists (c a :: tr). cbn [calls] in Htr. rewrite Htr, <- app_assoc.
  split; [reflexivity|]. now apply HT.
Qed.

Lemma only_to_killProcess (target : Z) (force : bool) :
  Traces (ProcessManager.killProcess target force) (signalsOnlyTo target).
Proof.
  apply (traces_call (signalsOnlyTo target)).
  intros a t force' done [Hin|[]]. now inversion Hin.
Qed.

Lemma only_to_other (target : Z) (c : OsCall) :
  killedPids [c] = [] -> signalsOnlyTo target [c].
Proof.
  intros Hq t force done Hin. now apply (quiet_no_kill [c]) in Hin.
Qed.

Lemma safe_forceReleasePort (port : Z) :
  Traces (ProcessManager.forceReleasePort port) signalsOnlySafe.
Proof.
  unfold ProcessManager.forceReleasePort.
  unfold ProcessManager.getPortProcess at 1.
  apply traces_call_then with
    (T' := fun owner tr =>
             match owner with
             | None => tr = []
             | Some occupant =>
                 if ProcessManager.isSafeToKill occupant
                 then signalsOnlyTo (pid occupant) tr
                 else tr = []
             end).
  - intros [occupant|]; [|apply (traces_ret (fun tr => tr = []) eq_refl)].
    destruct (ProcessManager.isSafeToKill occupant); cbn [negb];
      [|apply (traces_throw (fun tr => tr = []) eq_refl)].
    pose proof (only_to_nil (pid occupant)) as Hnil.
    pose proof (only_to_app (pid occupant)) as Happ.
    apply (traces_bind _ Happ); [apply only_to_killProcess|].
    intros success. apply (traces_bind _ Happ).
    + destruct success; cbn [negb]; [apply (traces_ret _ Hnil)|].
      apply (traces_bind _ Happ).
      * apply (traces_call (signalsOnlyTo (pid occupant))).
        intros a. now apply only_to_other.
      * intros _. apply only_to_killProcess.
    + intros [|]; [|apply (traces_ret _ Hnil)].
      apply (traces_bind _ Happ).
      * apply (traces_call (signalsOnlyTo (pid occupant))).
        intros a. now apply only_to_other.
      * intros _. apply (traces_bind _ Happ).
        -- apply (traces_call (signalsOnlyTo (pid occupant))).
           intros a. now apply only_to_other.
        -- intros [?|]; apply (traces_ret _ Hnil).
  - intros [occupant|] tr Htr.
    + destruct (ProcessManager.isSafeToKill occupant) eqn:Hsafe.
      * intros target force done [Hin|Hin]; [discriminate|].
        exists port, occupant. split; [now left|].
        split; [symmetry; exact (Htr _ _ _ Hin)|exact Hsafe].
      * subst tr. now apply safe_of_quiet.
    + subst tr. now apply safe_of_quiet.
Qed.

Lemma safe_isPortAvailable (p : Z) :
  Traces (PortManager.isPortAvailable p) signalsOnlySafe.
Proof.
  apply (traces_weaken _ quiet); [apply safe_of_quiet|].
  apply quiet_isPortAvailable.
Qed.

Lemma safe_forcePort (port : Z) (killProcess : bool) :
  Traces (PortManager.forcePort port killProcess) signalsOnlySafe.
Proof.
  unfold PortManager.forcePort.
  apply (traces_bind _ safe_app); [apply safe_isPortAvailable|].
  intros [|]; [apply (traces_ret _ safe_nil)|].
  destruct (negb killProcess); [apply (traces_throw _ safe_nil)|].
  apply (traces_bind _ safe_app); [apply safe_forceReleasePort|].
  intros released.
  destruct (negb released); [apply (traces_throw _ safe_nil)|].
  apply (traces_bind _ safe_app); [apply safe_isPortAvailable|].
  intros finalCheck.
  destruct (negb finalCheck);
    [apply (traces_throw _ safe_nil)|apply (traces_ret _ safe_nil)].
Qed.

Lemma quiet_forcePort_no_kill (port : Z) :
  Traces (PortManager.forcePort port false) quiet.
Proof.
  unfold PortManager.forcePort.
  apply (traces_bind quiet quiet_app); [apply quiet_isPortAvailable|].
  intros [|]; [apply (traces_ret quiet eq_refl)|].
  cbn [negb]. apply (traces_throw quiet eq_refl).
Qed.

Lemma quiet_rangeLoop (fuel : nat) :
  forall port, Traces (PortManager.rangeLoop fuel port) quiet.
Proof.
  induction fuel as [|fuel IH]; intros port; cbn [PortManager.rangeLoop].
  - apply (traces_ret quiet eq_refl).
  - destruct (port <=? PortManager.PORT_RANGE_END);
      [|apply (traces_ret quiet eq_refl)].
    apply (traces_bind quiet quiet_app); [apply quiet_isPortAvailable|].
    intros [|]; [apply (traces_ret quiet eq_refl)|apply IH].
Qed.

Lemma quiet_randomLoop (fuel : nat) :
  forall i, Traces (PortManager.randomLoop fuel i) quiet.
Proof.
  induction fuel as [|fuel IH]; intros i; cbn [PortManager.randomLoop].
  - apply (traces_ret quiet eq_refl).
  - destruct (i <? PortManager.MAX_RETRIES);
      [|apply (traces_ret quiet eq_refl)].
    apply (traces_bind quiet quiet_app);
      [apply (traces_call quiet); reflexivity|].
    intros r. cbv zeta.
    apply (traces_bind quiet quiet_app); [apply quiet_isPortAvailable|].
    intros [|]; [apply (traces_ret quiet eq_refl)|apply IH].
Qed.

Lemma quiet_findAvailablePort (preferredPort : option Z) :
  Traces (PortManager.findAvailablePort preferredPort) quiet.
Proof.
  unfold PortManager.findAvailablePort.
  apply (traces_bind quiet quiet_app).
  - destruct preferredPort as [p|]; [|apply (traces_ret quiet eq_refl)].
    destruct (p =? 0); [apply (traces_ret quiet eq_refl)|].
    apply (traces_bind quiet quiet_app); [apply quiet_isPortAvailable|].
    intros [|]; apply (traces_ret quiet eq_refl).
  - intros [p|]; [apply (traces_ret quiet eq_refl)|].
    apply (traces_bind quiet quiet_app); [apply quiet_rangeLoop|].
    intros [p|]; [apply (traces_ret quiet eq_refl)|].
    apply (traces_bind quiet quiet_app); [apply quiet_randomLoop|].
    intros [p|];
      [apply (traces_ret quiet eq_refl)|apply (traces_throw quiet eq_refl)].
Qed.

Lemma safe_cleanupPort (fuel : nat) (port : Z) :
  Traces (Timed.cleanupPort fuel port) signalsOnlySafe.
Proof.
  intros s. destruct (cleanupPort_run fuel port s) as [_ [tr [Htr Hshape]]].
  exists tr. split; [exact Htr|].
  destruct (fst (portProcess port (world s))) as [occupant|];
    [|subst tr; now apply safe_of_quiet].
  destruct (ProcessManager.isSafeToKill occupant) eqn:Hsafe;
    [|subst tr; now apply safe_of_quiet].
  destruct Hshape as [done [rest [-> [Hq _]]]].
  intros target force done' [Hin|[Hin|Hin]]; try discriminate.
  - inversion Hin; subst. exists port, occupant.
    split; [now left|]. split; [reflexivity|exact Hsafe].
  - now apply quiet_no_kill in Hin.
Qed.

Lemma safe_choosePort (fuel : nat) (config : Timed.StartConfig) :
  Traces (Timed.choosePort fuel config) signalsOnlySafe.
Proof.
  unfold Timed.choosePort.
  destruct (Timed.forcePort config).
  - apply (traces_bind _ safe_app).
    + destruct (Timed.cleanupPortOnStart config);
        [apply safe_cleanupPort|apply (traces_ret _ safe_nil)].
    + intros [[]|]; [|apply (traces_ret _ safe_nil)].
      apply (traces_bind _ safe_app); [apply safe_forcePort|].
      intros p. apply (traces_ret _ safe_nil).
  - apply (traces_bind _ safe_app).
    + destruct (_ && _);
        [apply safe_cleanupPort|apply (traces_ret _ safe_nil)].
    + intros [[]|]; [|apply (traces_ret _ safe_nil)].
      apply (traces_bind _ safe_app).
      * apply (traces_weaken _ quiet); [apply safe_of_quiet|].
        apply quiet_findAvailablePort.
      * intros p. apply (traces_ret _ safe_nil).
Qed.

Lemma quiet_choosePort (fuel : nat) (config : Timed.StartConfig) :
  Timed.cleanupPortOnStart config = false ->
  Timed.killProcessOnPortConflict config = false ->
  Traces (Timed.choosePort fuel config) quiet.
Proof.
  intros Hclean Hkill. unfold Timed.choosePort. rewrite Hclean, Hkill.
  cbn [andb orb].
  destruct (Timed.forcePort config).
  - apply (traces_bind quiet quiet_app); [apply (traces_ret quiet eq_refl)|].
    intros [[]|]; [|apply (traces_ret quiet eq_refl)].
    apply (traces_bind quiet quiet_app); [apply quiet_forcePort_no_kill|].
    intros p. apply (traces_ret quiet eq_refl).
  - apply (traces_bind quiet quiet_app); [apply (traces_ret quiet eq_refl)|].
    intros [[]|]; [|apply (traces_ret quiet eq_refl)].
    apply (traces_bind quiet quiet_app); [apply quiet_findAvailablePort|].
    intros p. apply (traces_ret quiet eq_refl).
Qed.

(** What [start] adds to the transcript is what the choice of the port
    adds. *)
Lemma traces_start (T : list OsCall -> Prop) (fuel : nat)
  (config : Timed.StartConfig) (listenResult : option MCPError)
  (this : WebServer.t) :
  T [] -> (forall a b, T a -> T b -> T (a ++ b)) ->
  Traces (Timed.choosePort fuel config) T ->
  Traces (Timed.start fuel config listenResult this) T.
Proof.
  intros Hnil Happ Hchoose. unfold Timed.start.
  destruct (WebServer.isServerRunning this); [apply (traces_ret _ Hnil)|].
  apply (traces_bind _ Happ).
  - apply (traces_tryCatch _ Happ).
    + apply (traces_bind _ Happ); [exact Hchoose|].
      intros chosen. apply (traces_ret _ Hnil).
    + intros e. apply (traces_ret _ Hnil).
  - intros [[p|]|e]; try apply (traces_ret _ Hnil).
    destruct listenResult; apply (traces_ret _ Hnil).
Qed.

(** X16: whatever the configuration and the machine, every signal that
    [start] sends, through [cleanupPort] or through [forcePort], goes to
    a process that an inquiry of the same run reported as the owner of a
    port and that [isSafeToKill] accepts. *)
Theorem start_signals_only_safe
  (fuel : nat) (config : Timed.StartConfig) (listenResult : option MCPError)
  (this : WebServer.t) (s : Sys W) :
  let result := Timed.start fuel config listenResult this s in
  exists tr, calls (snd result) = calls s ++ tr /\ signalsOnlySafe tr.
Proof.
  cbv zeta.
  apply (traces_start signalsOnlySafe fuel config listenResult this
           safe_nil safe_app (safe_choosePort fuel config)).
Qed.

(** X17: with [cleanupPortOnStart] and [killProcessOnPortConflict] both
    off, [start] sends no signal to any process, in forced mode as in
    traditional mode, whoever holds the ports. *)
Theorem start_without_kill_options_sends_no_signal
  (fuel : nat) (config : Timed.StartConfig) (listenResult : option MCPError)
  (this : WebServer.t) (s : Sys W) :
  Timed.cleanupPortOnStart config = false ->
  Timed.killProcessOnPortConflict config = false ->
  let result := Timed.start fuel config listenResult this s in
  exists tr, calls (snd result) = calls s ++ tr /\ killedPids tr = [].
Proof.
  intros Hclean Hkill. cbv zeta.
  apply (traces_start quiet fuel config listenResult this
           eq_refl quiet_app (quiet_choosePort fuel config Hclean Hkill)).
Qed.


Lemma probeless_app (a b : list OsCall) :
  probeless a -> probeless b -> probeless (a ++ b).
Proof. unfold probeless. intros Ha Hb. now rewrite probes_app, Ha, Hb. Qed.

Lemma probeless_forceReleasePort (port : Z) :
  Traces (ProcessManager.forceReleasePort port) probeless.
Proof.
  unfold ProcessManager.forceReleasePort, ProcessManager.getPortProcess,
    ProcessManager.killProcess, ProcessManager.delay.
  apply (traces_bind probeless probeless_app);
    [apply (traces_call probeless); reflexivity|].
  intros [occupant|]; [|apply (traces_ret probeless eq_refl)].
  destruct (negb _); [apply (traces_throw probeless eq_refl)|].
  apply (traces_bind probeless probeless_app);
    [apply (traces_call probeless); reflexivity|].
  intros success. apply (traces_bind probeless probeless_app).
  - destruct (negb success); [|apply (traces_ret probeless eq_refl)].
    apply (traces_bind probeless probeless_app);
      [apply (traces_call probeless); reflexivity|].
    intros _. apply (traces_call probeless); reflexivity.
  - intros [|]; [|apply (traces_ret probeless eq_refl)].
    apply (traces_bind probeless probeless_app);
      [apply (traces_call probeless); reflexivity|].
    intros _. apply (traces_bind probeless probeless_app);
      [apply (traces_call probeless); reflexivity|].
    intros [?|]; apply (traces_ret probeless eq_refl).
Qed.

(** A port that [forcePort] returns is the port asked for, and the last
    bind test was on it and succeeded. *)
Lemma forcePort_returns (port : Z) (killProcess : bool) (s : Sys W) (p : Z) :
  fst (PortManager.forcePort port killProcess s) = Returned p ->
  p = port /\
  exists pre,
    probes (calls (snd (PortManager.forcePort port killProcess s))) =
      probes (calls s) ++ pre ++ [(port, Listening)].
Proof.
  destruct (PortManager.forcePort port killProcess s) as [out s'] eqn:Hrun.
  cbn [fst snd]. intros ->.
  unfold PortManager.forcePort in Hrun. unfold bind at 1 in Hrun.
  rewrite isPortAvailable_run in Hrun.
  destruct (listen port (world s)) as [o w1]. cbn [fst snd] in Hrun.
  destruct (isListening o) eqn:Ho.
  - inversion Hrun; subst. split; [reflexivity|]. exists [].
    cbn [calls]. rewrite probes_app. now destruct o.
  - destruct (negb killProcess); [discriminate|].
    unfold bind at 1 in Hrun.
    destruct (probeless_forceReleasePort port
                (mkSys w1 (calls s ++ [CListen port o]))) as [tr [Htr Hp]].
    destruct (ProcessManager.forceReleasePort port _) as [[released|e] s2];
      [|discriminate].
    destruct (negb released); [discriminate|].
    unfold bind at 1 in Hrun. rewrite isPortAvailable_run in Hrun.
    destruct (listen port (world s2)) as [o2 w3]. cbn [fst snd] in Hrun.
    destruct (isListening o2) eqn:Ho2; cbn [negb] in Hrun; [|discriminate].
    inversion Hrun; subst. split; [reflexivity|]. exists [(p, o)].
    cbn [calls snd] in *. rewrite probes_app, Htr, !probes_app, Hp.
    destruct o2; try discriminate. cbn. now rewrite app_nil_r, <- app_assoc.
Qed.

Lemma afterPreferred_returns (s : Sys W) (p : Z) :
  fst (afterPreferred s) = Returned p ->
  exists pre,
    probes (calls (snd (afterPreferred s))) =
      probes (calls s) ++ pre ++ [(p, Listening)].
Proof.
  intros Hret.
  destruct (scan_then_random_run s)
    as [range [rnd [Hprobes [_ [_ [_ [_ Hres]]]]]]].
  rewrite Hret in Hres. destruct Hres as [earlier [Heq _]].
  exists earlier. now rewrite Hprobes, Heq.
Qed.

(** A port that [findAvailablePort] returns passed the last bind test. *)
Lemma findAvailablePort_returns (preferredPort : option Z) (s : Sys W)
  (p : Z) :
  fst (PortManager.findAvailablePort preferredPort s) = Returned p ->
  exists pre,
    probes (calls (snd (PortManager.findAvailablePort preferredPort s))) =
      probes (calls s) ++ pre ++ [(p, Listening)].
Proof.
  rewrite findAvailablePort_unfold.
  destruct preferredPort as [q|]; [|apply afterPreferred_returns].
  destruct (q =? 0); [apply afterPreferred_returns|].
  cbv zeta. destruct (listen q (world s)) as [o w1]. cbn [fst snd].
  destruct (isListening o) eqn:Ho.
  - cbn [fst snd calls]. intros Hret. inversion Hret; subst.
    exists []. rewrite probes_app. now destruct o.
  - intros Hret.
    destruct (afterPreferred_returns _ _ Hret) as [pre Hpre].
    exists ((q, o) :: pre). rewrite Hpre. cbn [calls].
    rewrite probes_app. cbn. now rewrite <- app_assoc.
Qed.

(** A port that the choice of [start] returns passed the last bind
    test. *)
Lemma choosePort_returns (fuel : nat) (config : Timed.StartConfig)
  (s : Sys W) (p : Z) :
  fst (Timed.choosePort fuel config s) = Returned (Some p) ->
  exists pre,
    probes (calls (snd (Timed.choosePort fuel config s))) =
      probes (calls s) ++ pre ++ [(p, Listening)].
Proof.
  destruct (Timed.choosePort fuel config s) as [out s'] eqn:Hrun.
  cbn [fst snd]. intros ->.
  unfold Timed.choosePort in Hrun.
  assert (Hclean : forall b : bool,
    Traces (if b then Timed.cleanupPort fuel (Timed.webPort config)
            else ret (Some tt)) signalsOnlySafe).
  { intros [|]; [apply safe_cleanupPort|apply (traces_ret _ safe_nil)]. }
  destruct (Timed.forcePort config); unfold bind at 1 in Hrun.
  - destruct (Hclean (Timed.cleanupPortOnStart config) s) as [tr [Htr _]].
    match type of Htr with
    | calls (snd ?r) = _ => destruct r as [[cleaned|e] s1]
    end; [|discriminate].
    destruct cleaned as [[]|]; [|discriminate].
    unfold bind at 1 in Hrun.
    pose proof (forcePort_returns (Timed.webPort config)
      (Timed.killProcessOnPortConflict config || false) s1) as Hforce.
    destruct (PortManager.forcePort _ _ s1) as [[q|e] s2]; [|discriminate].
    inversion Hrun; subst. destruct (Hforce p eq_refl) as [-> [pre Hpre]].
    cbn [fst snd] in *. exists (probes tr ++ pre).
    now rewrite Hpre, Htr, probes_app, <- !app_assoc.
  - destruct (Hclean (Timed.cleanupPortOnStart config
                      && negb (Timed.webPort config =? 0)) s)
      as [tr [Htr _]].
    match type of Htr with
    | calls (snd ?r) = _ => destruct r as [[cleaned|e] s1]
    end; [|discriminate].
    destruct cleaned as [[]|]; [|discriminate].
    unfold bind at 1 in Hrun.
    pose proof (findAvailablePort_returns (Some (Timed.webPort config)) s1)
      as Hfind.
    destruct (PortManager.findAvailablePort _ s1) as [[q|e] s2];
      [|discriminate].
    inversion Hrun; subst. destruct (Hfind p eq_refl) as [pre Hpre].
    cbn [fst snd] in *. exists (probes tr ++ pre).
    now rewrite Hpre, Htr, probes_app, <- !app_assoc.
Qed.

(** X18: how [start] ends.  On a server that runs already it changes
    nothing and calls nothing.  Otherwise the only error it throws is
    [WEB_SERVER_START_ERROR], whatever failed underneath, and the server
    is then still not running; when it succeeds the server runs on a port
    on which the last bind test of the run was made and succeeded.
    Sessions and pending requests are never touched. *)
Theorem start_outcome
  (fuel : nat) (config : Timed.StartConfig) (listenResult : option MCPError)
  (this : WebServer.t) (s : Sys W) :
  let result := Timed.start fuel config listenResult this s in
  match fst result with
  | Thrown _ => False
  | Returned None => WebServer.isServerRunning this = false
  | Returned (Some (this', error)) =>
      WebServer.sessionStorage this' = WebServer.sessionStorage this /\
      WebServer.pending this' = WebServer.pending this /\
      match error with
      | Some e =>
          e = Timed.startError /\
          WebServer.isServerRunning this = false /\
          WebServer.isServerRunning this' = false
      | None =>
          WebServer.isServerRunning this' = true /\
          ((WebServer.isServerRunning this = true /\
            this' = this /\ calls (snd result) = calls s) \/
           (WebServer.isServerRunning this = false /\
            listenResult = None /\
            exists pre,
              probes (calls (snd result)) =
                probes (calls s) ++ pre
                ++ [(WebServer.port this', Listening)]))
      end
  end.
Proof.
  cbv zeta.
  destruct (Timed.start fuel config listenResult this s) as [out s'] eqn:Hrun.
  cbn [fst snd]. unfold Timed.start in Hrun.
  destruct (WebServer.isServerRunning this) eqn:Hrunning.
  - inversion Hrun; subst. repeat split; auto.
  - unfold bind at 1 in Hrun. unfold Timed.tryCatch in Hrun.
    unfold bind at 1 in Hrun.
    pose proof (choosePort_returns fuel config s) as Hport.
    destruct (Timed.choosePort fuel config s) as [[[p|]|e] s1];
      cbn [ret] in Hrun.
    + destruct listenResult as [failure|]; inversion Hrun; subst;
        cbn [WebServer.sessionStorage WebServer.pending
             WebServer.isServerRunning WebServer.port];
        [now repeat split|].
      split; [reflexivity|]. split; [reflexivity|]. split; [reflexivity|].
      right. split; [reflexivity|]. split; [reflexivity|].
      exact (Hport p eq_refl).
    + inversion Hrun; subst. reflexivity.
    + inversion Hrun; subst. now repeat split.
Qed.

End StartFacts.

Lemma start_without_kill_options_sends_no_signal_witness :
  let node := Machine.proc 4711 "node" "node server.js" 5000 in
  let held := Machine.mk [(5000, node)] [] [] in
  let config :=
    {| Timed.webPort := 5000; Timed.forcePort := true;
       Timed.killProcessOnPortConflict := false;
       Timed.cleanupPortOnStart := false |} in
  let server := WebServer.mk (SessionStorage.new 60000) false 0 [] in
  exists tr,
    Os.calls (snd (Timed.start 30 config None server
                     (TimedMachine.boot held 0))) = [] ++ tr /\
    Os.killedPids tr = [].
Proof.
  cbv zeta.
  apply (start_without_kill_options_sends_no_signal 30
           {| Timed.webPort := 5000; Timed.forcePort := true;
              Timed.killProcessOnPortConflict := false;
              Timed.cleanupPortOnStart := false |}
           None (WebServer.mk (SessionStorage.new 60000) false 0 [])
           (TimedMachine.boot
              (Machine.mk
                 [(5000, Machine.proc 4711 "node" "node server.js" 5000)]
                 [] []) 0));
    reflexivity.
Defined.

(* ------------------------------------------------------------------ *)
(** ** The page's address and the latest summary *)

Section HandlerFacts.
Import WebHandlers.

Lemma append_inj_r (a s1 s2 : string) :
  (a ++ s1 = a ++ s2)%string -> s1 = s2.
Proof.
  induction a as [|c a IH]; cbn; [auto|].
  intros H. inversion H. auto.
Qed.

(** X19: the address of the feedback page.  With [useFixedUrl] every
    session gets the same address, which does not name the session;
    without it two sessions get the same address only if they are the
    same session. *)
Theorem generateFeedbackUrl_per_session
  (config : UrlConfig) (port : Z) (id1 id2 : string) :
  let url1 := generateFeedbackUrl config port id1 in
  let url2 := generateFeedbackUrl config port id2 in
  if useFixedUrl config then url1 = url2
  else url1 = url2 <-> id1 = id2.
Proof.
  cbv zeta. unfold generateFeedbackUrl.
  destruct (useFixedUrl config); [reflexivity|].
  split; [|now intros ->].
  destruct (truthyString (serverBaseUrl config)) as [base|]; intros H.
  - apply append_inj_r in H. now apply (append_inj_r _ _ _ H).
  - repeat (apply append_inj_r in H). exact H.
Qed.

(** The loop of the two handlers keeps the first of the sessions that
    started last. *)
Lemma latestLoop_first (entries : list (string * SessionData)) :
  forall acc chosen : string * SessionData,
    WebServer.latestLoop entries (Some acc) = Some chosen ->
    (chosen = acc /\
     Forall (fun e => startTime (snd e) <= startTime (snd acc)) entries) \/
    (exists before after,
       entries = before ++ chosen :: after /\
       startTime (snd acc) < startTime (snd chosen) /\
       Forall (fun e => startTime (snd e) < startTime (snd chosen)) before /\
       Forall (fun e => startTime (snd e) <= startTime (snd chosen)) after).
Proof.
  induction entries as [|[id s] rest IH]; intros [id0 s0] chosen Hrun.
  - left. cbn in Hrun. inversion Hrun. auto.
  - cbn [WebServer.latestLoop] in Hrun.
    destruct (startTime s >? startTime s0) eqn:Hgt.
    + apply Z.gtb_lt in Hgt.
      destruct (IH _ _ Hrun) as [[-> Hall]|[before [after [-> [Hlt [Hb Ha]]]]]].
      * right. exists [], rest. cbn [app snd] in *. auto.
      * right. exists ((id, s) :: before), after. cbn [app snd] in *.
        split; [reflexivity|]. split; [lia|]. split; [|exact Ha].
        constructor; [exact Hlt|exact Hb].
    + rewrite Z.gtb_ltb in Hgt. apply Z.ltb_ge in Hgt.
      destruct (IH _ _ Hrun) as [[-> Hall]|[before [after [-> [Hlt [Hb Ha]]]]]].
      * left. split; [reflexivity|]. constructor; [exact Hgt|exact Hall].
      * right. exists ((id, s) :: before), after. cbn [app snd] in *.
        split; [reflexivity|]. split; [exact Hlt|]. split; [|exact Ha].
        constructor; [cbn [snd]; lia|exact Hb].
Qed.

(** X20: ['request_latest_summary'] reports the first, in the order of
    creation, of the sessions that started last: every session before it
    in the table started earlier, none after it started later.  It is
    the session ['request_session'] assigns.  When that session has an
    empty summary the answer is that there is none, whatever the other
    sessions hold. *)
Theorem request_latest_summary_first_of_latest (this : WebServer.t) :
  let table := SessionStorage.sessions (WebServer.sessionStorage this) in
  match onRequestLatestSummary this with
  | latest_summary summary id started =>
      summary <> ""%string /\
      WebServer.onRequestSession this =
        WebServer.session_assigned id summary /\
      exists before s after,
        table = before ++ (id, s) :: after /\
        workSummary s = summary /\ startTime s = started /\
        Forall (fun e => startTime (snd e) < started) before /\
        Forall (fun e => startTime (snd e) <= started) after
  | no_latest_summary =>
      table = [] \/
      exists id,
        WebServer.onRequestSession this =
          WebServer.session_assigned id ""%string
  end.
Proof.
  cbv zeta. unfold onRequestLatestSummary, WebServer.onRequestSession,
    SessionStorage.getAllSessions.
  destruct (SessionStorage.sessions (WebServer.sessionStorage this))
    as [|[id0 s0] rest] eqn:Htable; [now left|].
  cbn [WebServer.latestLoop].
  destruct (WebServer.latestLoop rest (Some (id0, s0))) as [[id s]|] eqn:Hrun.
  - destruct (String.eqb (workSummary s) "") eqn:Hempty.
    + apply String.eqb_eq in Hempty. right. exists id. now rewrite Hempty.
    + apply String.eqb_neq in Hempty. split; [exact Hempty|].
      split; [reflexivity|].
      destruct (latestLoop_first _ _ _ Hrun)
        as [[Heq Hall]|[before [after [-> [Hlt [Hb Ha]]]]]].
      * inversion Heq; subst. exists [], s0, rest. cbn [app].
        split; [reflexivity|]. split; [reflexivity|].
        split; [reflexivity|]. split; [constructor|exact Hall].
      * exists ((id0, s0) :: before), s, after. cbn [app snd] in *.
        split; [reflexivity|]. split; [reflexivity|].
        split; [reflexivity|]. split; [|exact Ha].
        constructor; [exact Hlt|exact Hb].
  - exfalso. clear Htable. revert id0 s0 Hrun.
    induction rest as [|[id1 s1] rest IH]; intros id0 s0 Hrun;
      [discriminate|].
    cbn [WebServer.latestLoop] in Hrun.
    destruct (startTime s1 >? startTime s0); eauto.
Qed.

End HandlerFacts.

(* ------------------------------------------------------------------ *)
(** ** The logger *)

Section LoggerFacts.
Import Logger.
Local Open Scope string_scope.

Lemma string_app_assoc (a b c : string) : (a ++ b) ++ c = a ++ b ++ c.
Proof. induction a as [|x a IH]; cbn; [reflexivity|now rewrite IH]. Qed.

Lemma string_app_nil_r (a : string) : a ++ "" = a.
Proof. induction a as [|x a IH]; cbn; [reflexivity|now rewrite IH]. Qed.

Lemma skipParameters_length (s : string) :
  (String.length (skipParameters s) <= String.length s)%nat.
Proof.
  induction s as [|c s IH]; cbn; [lia|].
  destruct (isParameter c); cbn; lia.
Qed.

Lemma matchColorCode_shorter (s rest : string) :
  matchColorCode s = Some rest ->
  (String.length rest < String.length s)%nat.
Proof.
  destruct s as [|c [|b s]]; try discriminate. unfold matchColorCode.
  destruct b as [[] [] [] [] [] [] [] []]; try discriminate.
  destruct (Ascii.eqb c ESC); [|discriminate].
  pose proof (skipParameters_length s) as Hlen.
  destruct (skipParameters s) as [|m rest']; [discriminate|].
  destruct m as [[] [] [] [] [] [] [] []]; try discriminate.
  intros [= <-]. cbn in *. lia.
Qed.

(** Fuel beyond the length of the text changes nothing. *)
Lemma replaceColorCodes_fuel (fuel1 : nat) :
  forall (fuel2 : nat) (text : string),
    (String.length text <= fuel1)%nat ->
    (String.length text <= fuel2)%nat ->
    replaceColorCodes fuel1 text = replaceColorCodes fuel2 text.
Proof.
  induction fuel1 as [|fuel1 IH]; intros fuel2 text H1 H2.
  - destruct text; [|cbn in H1; lia]. now destruct fuel2.
  - destruct fuel2 as [|fuel2].
    + destruct text; [reflexivity|cbn in H2; lia].
    + cbn [replaceColorCodes]. destruct text as [|c text]; [reflexivity|].
      destruct (matchColorCode (String c text)) as [rest|] eqn:Hm.
      * apply matchColorCode_shorter in Hm. apply IH; lia.
      * f_equal. cbn in H1, H2. apply IH; lia.
Qed.

Lemma removeColorCodes_cons (c : ascii) (text : string) :
  removeColorCodes (String c text) =
    match matchColorCode (String c text) with
    | Some rest => removeColorCodes rest
    | None => String c (removeColorCodes text)
    end.
Proof.
  unfold removeColorCodes. cbn [String.length replaceColorCodes].
  destruct (matchColorCode (String c text)) as [rest|] eqn:Hm.
  - apply matchColorCode_shorter in Hm. cbn in Hm.
    apply replaceColorCodes_fuel; lia.
  - reflexivity.
Qed.

(** Text without escape character passes unchanged, and the search goes
    on behind it. *)
Lemma removeColorCodes_plain_app (a b : string) :
  plain a = true -> removeColorCodes (a ++ b) = a ++ removeColorCodes b.
Proof.
  induction a as [|c a IH]; cbn [plain append]; [reflexivity|].
  intros H. apply andb_true_iff in H as [Hc Ha].
  rewrite removeColorCodes_cons, (IH Ha).
  unfold matchColorCode. destruct (a ++ b) as [|x rest]; [reflexivity|].
  destruct (Ascii.eqb c ESC); [discriminate|].
  now destruct x as [[] [] [] [] [] [] [] []].
Qed.

Lemma removeColorCodes_plain (a : string) :
  plain a = true -> removeColorCodes a = a.
Proof.
  intros H. rewrite <- (string_app_nil_r a) at 1.
  rewrite (removeColorCodes_plain_app a "" H). now rewrite string_app_nil_r.
Qed.

Lemma removeColorCodes_color (level : LogLevel) (b : string) :
  removeColorCodes (LOG_COLORS level ++ b) = removeColorCodes b.
Proof.
  destruct level; cbn [LOG_COLORS append]; try reflexivity;
    now rewrite removeColorCodes_cons.
Qed.

Lemma removeColorCodes_reset (b : string) :
  removeColorCodes (RESET_COLOR ++ b) = removeColorCodes b.
Proof. cbn [RESET_COLOR append]. now rewrite removeColorCodes_cons. Qed.

Lemma plain_app (a b : string) :
  plain (a ++ b) = plain a && plain b.
Proof.
  induction a as [|c a IH]; cbn; [reflexivity|].
  now rewrite IH, andb_assoc.
Qed.

Lemma plain_joinSpace (args : list string) :
  Forall (fun a => plain a = true) args -> plain (joinSpace args) = true.
Proof.
  induction 1 as [|a rest Ha Hrest IH]; [reflexivity|].
  cbn [joinSpace]. destruct rest as [|b rest]; [exact Ha|].
  rewrite !plain_app, Ha, IH. reflexivity.
Qed.

Ltac plain_parts :=
  repeat (progress (rewrite ?plain_app; cbn [append plain])).

Lemma plain_levelStr (level : LogLevel) :
  plain (padEnd 5 (toUpperCase (levelName level))) = true.
Proof. now destruct level. Qed.

(** The line without colours, whatever the mode. *)
Lemma removeColorCodes_formatMessage (timestamp : string) (level : LogLevel)
  (message : string) (args : list string) (this : t) :
  plain timestamp = true -> plain message = true ->
  Forall (fun a => plain a = true) args ->
  removeColorCodes (formatMessage timestamp level message args this) =
    formatMessage timestamp level message args (disableColors this).
Proof.
  intros Hts Hmsg Hargs. unfold formatMessage. cbn [disableColors colorsDisabled].
  pose proof (plain_levelStr level) as Hlevel.
  pose proof (plain_joinSpace args Hargs) as Hjoin.
  set (levelStr := padEnd 5 (toUpperCase (levelName level))) in *.
  assert (Hhead : plain ("[" ++ timestamp ++ "] " ++ levelStr) = true).
  { plain_parts. now rewrite Hts, Hlevel. }
  assert (Hline : forall tail, plain tail = true ->
    removeColorCodes
      (LOG_COLORS level ++ "[" ++ timestamp ++ "] " ++ levelStr
       ++ RESET_COLOR ++ tail) =
    "[" ++ timestamp ++ "] " ++ levelStr ++ tail).
  { intros tail Htail. rewrite removeColorCodes_color.
    replace ("[" ++ timestamp ++ "] " ++ levelStr ++ RESET_COLOR ++ tail)
      with (("[" ++ timestamp ++ "] " ++ levelStr) ++ RESET_COLOR ++ tail)
      by (cbn [append]; now rewrite !string_app_assoc).
    rewrite (removeColorCodes_plain_app _ _ Hhead), removeColorCodes_reset,
      (removeColorCodes_plain _ Htail).
    cbn [append]. now rewrite !string_app_assoc. }
  destruct (colorsDisabled this).
  - apply removeColorCodes_plain.
    destruct args; plain_parts; rewrite Hts, Hlevel, Hmsg, ?Hjoin;
      reflexivity.
  - destruct args as [|a rest].
    + apply (Hline (" " ++ message)). plain_parts. exact Hmsg.
    + rewrite !string_app_assoc. cbn [append].
      rewrite ?string_app_assoc.
      apply (Hline (" " ++ message ++ " " ++ joinSpace (a :: rest))).
      plain_parts. now rewrite Hmsg, Hjoin.
Qed.

(** X21: which messages pass.  A message passes whenever a less severe
    one does; errors pass at every level but [silent]; level [silent]
    lets nothing pass, although it is the highest number of
    [LOG_LEVELS], and a message of level [silent] never passes; raising
    the level to another one than [silent] keeps what passed. *)
Theorem shouldLog_threshold (level level' : LogLevel) (this : t) :
  (shouldLog level this = true ->
   LOG_LEVELS level' <= LOG_LEVELS level ->
   shouldLog level' this = true) /\
  (shouldLog error this = true <-> currentLevel this <> silent) /\
  shouldLog level (setLevel silent this) = false /\
  shouldLog silent this = false /\
  (shouldLog level this = true ->
   level' <> silent ->
   LOG_LEVELS (currentLevel this) <= LOG_LEVELS level' ->
   shouldLog level (setLevel level' this) = true).
Proof.
  unfold shouldLog. cbn [setLevel currentLevel].
  destruct (currentLevel this), level, level'; cbn;
    repeat split; intros; try reflexivity; try discriminate;
    try congruence; try lia.
Qed.

(** X22: the log file gets the line without its colours.  For a time
    stamp, a message and arguments free of escape characters, what [log]
    appends to the file is the line that the logger prints once colours
    are disabled, followed by a line feed; and [log] prints and appends
    nothing at all for a message that does not pass [shouldLog]. *)
Theorem log_appends_colourless_line (timestamp : string) (level : LogLevel)
  (message : string) (args : list string) (this : t) :
  plain timestamp = true -> plain message = true ->
  Forall (fun a => plain a = true) args ->
  (shouldLog level this = false ->
   log timestamp level message args this = []) /\
  (forall file content,
     In (AppendFile file content) (log timestamp level message args this) ->
     logFile this = Some file /\
     content =
       formatMessage timestamp level message args (disableColors this)
       ++ String "010" "").
Proof.
  intros Hts Hmsg Hargs. unfold log. split.
  - now intros ->.
  - intros file content Hin.
    destruct (shouldLog level this); cbn [negb] in Hin; [|contradiction].
    destruct Hin as [Hin|Hin]; [now destruct level|].
    destruct (fileLoggingEnabled this); [|contradiction].
    unfold truthyString in Hin.
    destruct (logFile this) as [f|]; [|contradiction].
    destruct (String.eqb f ""); [contradiction|].
    destruct Hin as [Hin|[]]. inversion Hin; subst.
    split; [reflexivity|].
    now rewrite removeColorCodes_formatMessage.
Qed.

End LoggerFacts.

Lemma shouldLog_threshold_witness :
  Logger.shouldLog Logger.error (Logger.setLevel Logger.warn Logger.new)
    = true /\
  Logger.shouldLog Logger.warn (Logger.setLevel Logger.debug Logger.new)
    = true.
Proof.
  destruct (shouldLog_threshold Logger.warn Logger.error
              (Logger.setLevel Logger.warn Logger.new))
    as [Hdown _].
  destruct (shouldLog_threshold Logger.warn Logger.debug
              (Logger.setLevel Logger.warn Logger.new))
    as [_ [_ [_ [_ Hup]]]].
  split.
  - apply Hdown; [reflexivity|simpl; lia].
  - apply Hup; [reflexivity|discriminate|simpl; lia].
Defined.

Lemma log_appends_colourless_line_witness :
  let logger :=
    Logger.mk Logger.debug (Some "logs/mcp-debug.log"%string) true false in
  (Logger.removeColorCodes
     (Logger.formatMessage "2025-01-01T00:00:00.000Z" Logger.warn
        "port busy" ["5000"%string] logger)
   ++ String "010" "")%string =
  ("[2025-01-01T00:00:00.000Z] WARN  port busy 5000"
   ++ String "010" "")%string.
Proof.
  cbv zeta.
  destruct (log_appends_colourless_line "2025-01-01T00:00:00.000Z"
              Logger.warn "port busy" ["5000"%string]
              (Logger.mk Logger.debug (Some "logs/mcp-debug.log"%string)
                 true false))
    as [_ Hfile]; [reflexivity|reflexivity|repeat constructor|].
  destruct (Hfile "logs/mcp-debug.log"%string _
              (or_intror (or_introl eq_refl))) as [_ Hcontent].
  exact Hcontent.
Defined.

(* ------------------------------------------------------------------ *)
(** ** The image processor *)

Section ImageFacts.
Import ImageProcessor.
Context {sharp : Sharp}.
Local Open Scope string_scope.

Lemma splitDot_nonempty (s : string) : splitDot s <> [].
Proof.
  destruct s as [|c s]; cbn; [discriminate|].
  destruct (Ascii.eqb c "."); [discriminate|].
  destruct (splitDot s); discriminate.
Qed.

Lemma pop_cons (piece : string) (pieces : list string) :
  pieces <> [] -> pop (piece :: pieces) = pop pieces.
Proof. destruct pieces; [congruence|reflexivity]. Qed.

Lemma pop_cons_head (a b : string) (pieces : list string) :
  pieces <> [] -> pop (a :: pieces) = pop (b :: pieces).
Proof. intros H. now rewrite !pop_cons. Qed.

Lemma splitDot_dotless (e : string) : dotless e = true -> splitDot e = [e].
Proof.
  induction e as [|c e IH]; cbn; [reflexivity|].
  intros H. apply andb_true_iff in H as [Hc He].
  destruct (Ascii.eqb c "."); [discriminate|]. now rewrite (IH He).
Qed.

Lemma splitDot_app_length (a b : string) :
  (2 <= List.length (splitDot (a ++ "." ++ b)))%nat.
Proof.
  induction a as [|c a IH]; cbn [append splitDot].
  - cbn. pose proof (splitDot_nonempty b).
    destruct (splitDot b); [congruence|cbn; lia].
  - cbn [append] in IH.
    destruct (Ascii.eqb c "."); [cbn [List.length]; lia|].
    destruct (splitDot (a ++ String "." b)); cbn [List.length] in *; lia.
Qed.

(** The text behind the last dot is what [split('.').pop()] yields. *)
Lemma pop_splitDot_app (stem e : string) :
  dotless e = true -> pop (splitDot (stem ++ "." ++ e)) = Some e.
Proof.
  intros He. induction stem as [|c stem IH]; cbn [append splitDot].
  - cbn. rewrite (splitDot_dotless e He). reflexivity.
  - pose proof (splitDot_app_length stem e) as Hlen. cbn [append] in *.
    destruct (Ascii.eqb c ".").
    + rewrite pop_cons; [exact IH|apply splitDot_nonempty].
    + destruct (splitDot (stem ++ String "." e)) as [|piece pieces];
        [cbn in Hlen; lia|].
      destruct pieces as [|q qs]; [cbn in Hlen; lia|].
      rewrite <- IH. now apply pop_cons_head.
Qed.

(** What [split('.').pop()] yields has no dot, and is the whole text or
    what follows a dot of it. *)
Lemma pop_splitDot_inv (s : string) :
  exists e,
    pop (splitDot s) = Some e /\ dotless e = true /\
    (s = e \/ exists stem, s = stem ++ "." ++ e).
Proof.
  induction s as [|c s IH].
  - exists "". auto.
  - destruct IH as [e [Hpop [He Hs]]]. cbn [splitDot].
    destruct (Ascii.eqb c ".") eqn:Hc.
    + apply Ascii.eqb_eq in Hc. subst c. exists e.
      rewrite pop_cons by apply splitDot_nonempty.
      split; [exact Hpop|]. split; [exact He|]. right.
      destruct Hs as [->|[stem ->]]; [now exists ""|].
      now exists (String "." stem).
    + destruct Hs as [->|[stem ->]].
      * rewrite (splitDot_dotless e He). exists (String c e).
        split; [reflexivity|]. split; [cbn; now rewrite Hc|now left].
      * pose proof (splitDot_app_length stem e) as Hlen.
        destruct (splitDot (stem ++ "." ++ e)) as [|piece pieces];
          [cbn in Hlen; lia|].
        destruct pieces as [|q qs]; [cbn in Hlen; lia|].
        exists e. split; [exact Hpop|]. split; [exact He|]. right.
        now exists (String c stem).
Qed.

Lemma supported_dotless (ext : string) :
  In ext SUPPORTED_FORMATS -> dotless ext = true /\ ext <> "".
Proof.
  intros Hin. cbn in Hin.
  repeat (destruct Hin as [<-|Hin]; [split; [reflexivity|discriminate]|]).
  contradiction.
Qed.

Lemma existsb_eqb_In (x : string) (l : list string) :
  existsb (String.eqb x) l = true <-> In x l.
Proof.
  rewrite existsb_exists. split.
  - intros [y [Hin Heq]]. apply String.eqb_eq in Heq. now subst.
  - intros Hin. exists x. split; [exact Hin|apply String.eqb_refl].
Qed.

(** X23: [validateImageFormat] accepts exactly when the MIME type, in
    lower case, is one of the seven listed and the name, in lower case,
    is a supported extension or ends with a dot and a supported
    extension.  Only the text behind the last dot counts, a name without
    dot counts as its own extension, and the extension and the MIME type
    need not agree. *)
Theorem validateImageFormat_accepts (filename mimeType : string) :
  validateImageFormat filename mimeType = true <->
  (exists ext,
     In ext SUPPORTED_FORMATS /\
     (ProcessManager.toLowerCase filename = ext \/
      exists stem, ProcessManager.toLowerCase filename = stem ++ "." ++ ext))
  /\ In (ProcessManager.toLowerCase mimeType) validMimeTypes.
Proof.
  unfold validateImageFormat. split.
  - destruct (pop_splitDot_inv (ProcessManager.toLowerCase filename))
      as [e [Hpop [He Hs]]].
    rewrite Hpop. destruct (String.eqb e ""); [discriminate|]. cbn [orb].
    destruct (existsb (String.eqb e) SUPPORTED_FORMATS) eqn:Hext;
      [|discriminate].
    cbn [negb]. intros Hmime. apply existsb_eqb_In in Hext, Hmime.
    split; [now exists e|exact Hmime].
  - intros [[ext [Hext Hname]] Hmime].
    destruct (supported_dotless ext Hext) as [Hdot Hne].
    assert (Hpop : pop (splitDot (ProcessManager.toLowerCase filename))
                   = Some ext).
    { destruct Hname as [->|[stem ->]].
      - now rewrite (splitDot_dotless ext Hdot).
      - now apply pop_splitDot_app. }
    rewrite Hpop. apply String.eqb_neq in Hne. rewrite Hne. cbn [orb].
    apply existsb_eqb_In in Hext. rewrite Hext. cbn [negb].
    now apply existsb_eqb_In.
Qed.

(** An image that [validateAndProcessImage] returns. *)
Lemma validateAndProcessImage_returns (image result : ImageData) (this : t) :
  validateAndProcessImage image this = inr result ->
  img_name result = img_name image /\
  img_name image <> "" /\ img_data image <> "" /\ img_type image <> "" /\
  validateImageFormat (img_name image) (img_type image) = true /\
  0 < img_size image <= maxFileSize this /\
  (result = image \/
   exists encoded,
     img_data result = "data:image/jpeg;base64," ++ encoded /\
     jpeg (stripDataUrl (img_data image)) (maxWidth this) (maxHeight this) 85
       = Some encoded).
Proof.
  unfold validateAndProcessImage.
  destruct (String.eqb (img_name image) "") eqn:Hn; [discriminate|].
  destruct (String.eqb (img_data image) "") eqn:Hd; [discriminate|].
  destruct (String.eqb (img_type image) "") eqn:Ht; [discriminate|].
  cbn [orb].
  destruct (validateImageFormat _ _) eqn:Hf; [|discriminate]. cbn [negb].
  destruct (validateImageSize _ _) eqn:Hs; [|discriminate]. cbn [negb].
  apply String.eqb_neq in Hn, Hd, Ht.
  unfold validateImageSize in Hs. apply andb_true_iff in Hs as [Hpos Hmax].
  rewrite Z.gtb_ltb in Hpos. apply Z.ltb_lt in Hpos. apply Z.leb_le in Hmax.
  destruct (getImageInfoFromBase64 (img_data image)) as [e|info];
    [discriminate|].
  destruct (_ || _).
  - unfold compressImage.
    destruct (jpeg _ _ _ _) as [encoded|] eqn:Hj; [|discriminate].
    destruct (getImageInfoFromBase64 _) as [e|compressedInfo];
      [discriminate|].
    intros [= <-]. cbn [img_name img_data].
    repeat (split; [assumption || reflexivity || lia|]).
    right. now exists encoded.
  - intros [= <-]. repeat (split; [assumption || reflexivity || lia|]).
    now left.
Qed.

Lemma processLoop_run (images : list ImageData) (this : t) :
  forall results : list ImageData,
    match processLoop images results this with
    | inr all =>
        exists processed,
          all = (results ++ processed)%list /\
          Forall2 (fun image result =>
                     validateAndProcessImage image this = inr result)
            images processed
    | inl e =>
        exists before image after,
          images = (before ++ image :: after)%list /\
          Forall (fun i => exists r, validateAndProcessImage i this = inr r)
            before /\
          validateAndProcessImage image this = inl e
    end.
Proof.
  induction images as [|image rest IH]; intros results; cbn [processLoop].
  - exists []. now rewrite app_nil_r.
  - destruct (validateAndProcessImage image this) as [e|r] eqn:Hone.
    + exists [], image, rest. auto.
    + specialize (IH (results ++ [r])%list).
      destruct (processLoop rest (results ++ [r])%list this) as [e|all].
      * destruct IH as [before [failing [after [-> [Hbefore Hfail]]]]].
        exists (image :: before), failing, after.
        split; [reflexivity|]. split; [|exact Hfail].
        constructor; [now exists r|exact Hbefore].
      * destruct IH as [processed [-> Hall]]. exists (r :: processed).
        rewrite <- app_assoc. split; [reflexivity|]. now constructor.
Qed.

(** X24: [processImages] returns all images or none.  When it returns,
    there is one image a given image, in the order given; each has the
    name of its original, whose name, data and type were not empty,
    whose format [validateImageFormat] accepted and whose declared size
    was positive and within the limit, and is the original untouched or
    carries the JPEG that [sharp] encoded.  When it throws, the error is
    that of the first image that [validateAndProcessImage] refuses, and
    what was processed before is dropped. *)
Theorem processImages_all_or_nothing (images : list ImageData) (this : t) :
  match processImages images this with
  | inr results =>
      Forall2
        (fun image result =>
           img_name result = img_name image /\
           img_name image <> "" /\ img_data image <> "" /\
           img_type image <> "" /\
           validateImageFormat (img_name image) (img_type image) = true /\
           0 < img_size image <= maxFileSize this /\
           (result = image \/
            exists encoded,
              img_data result = "data:image/jpeg;base64," ++ encoded))
        images results
  | inl e =>
      exists before image after,
        images = (before ++ image :: after)%list /\
        Forall (fun i => exists r, validateAndProcessImage i this = inr r)
          before /\
        validateAndProcessImage image this = inl e
  end.
Proof.
  unfold processImages. pose proof (processLoop_run images this []) as Hrun.
  destruct (processLoop images [] this) as [e|results]; [exact Hrun|].
  destruct Hrun as [processed [-> Hall]]. cbn [app].
  induction Hall as [|image result rest processed Hone Hrest IH];
    constructor; [|exact IH].
  destruct (validateAndProcessImage_returns _ _ _ Hone)
    as [H1 [H2 [H3 [H4 [H5 [H6 H7]]]]]].
  repeat (split; [assumption|]).
  destruct H7 as [->|[encoded [Henc _]]]; [now left|right; now exists encoded].
Qed.




End ImageFacts.


(* ------------------------------------------------------------------ *)
(** ** The performance monitor *)

Section MonitorFacts.
Import PerformanceMonitor.

Lemma sliceLast_length {A : Type} (n : nat) (l : list A) :
  List.length (sliceLast n l) = Nat.min (List.length l) n.
Proof. unfold sliceLast. rewrite length_skipn. lia. Qed.

Lemma sliceLast_short {A : Type} (n : nat) (l : list A) :
  (List.length l <= n)%nat -> sliceLast n l = l.
Proof.
  intros H. unfold sliceLast.
  replace (List.length l - n)%nat with 0%nat by lia. reflexivity.
Qed.

(** Cutting before the push as well changes nothing. *)
Lemma sliceLast_push {A : Type} (n : nat) (l : list A) (x : A) :
  (1 <= n)%nat ->
  sliceLast n (sliceLast n l ++ [x]) = sliceLast n (l ++ [x]).
Proof.
  intros Hn. destruct (Nat.le_gt_cases (List.length l) n) as [Hle|Hgt].
  - now rewrite (sliceLast_short n l Hle).
  - unfold sliceLast at 1 3. rewrite !length_app, sliceLast_length.
    cbn [List.length]. unfold sliceLast.
    replace (Nat.min (List.length l) n + 1 - n)%nat with 1%nat by lia.
    replace (List.length l + 1 - n)%nat
      with (1 + (List.length l - n))%nat by lia.
    rewrite <- skipn_skipn. f_equal.
    rewrite skipn_app.
    replace (List.length l - n - List.length l)%nat with 0%nat by lia.
    reflexivity.
Qed.

Lemma recordRequest_window (responseTime : Z) (success : bool) (this : t) :
  responseTimes (recordRequest responseTime success this) =
    sliceLast 1000 (responseTimes this ++ [responseTime]).
Proof.
  cbn [recordRequest responseTimes].
  destruct (1000 <? _)%nat eqn:Hlong; [reflexivity|].
  apply Nat.ltb_ge in Hlong. now rewrite sliceLast_short.
Qed.

Lemma balanced_new (now : Z) : Balanced (new now).
Proof. unfold Balanced. cbn. lia. Qed.

Lemma balanced_apply (op : Op) (m : t) : Balanced m -> Balanced (apply op m).
Proof.
  unfold Balanced. intros H.
  destruct op as [responseTime success| | |direction| | | |now];
    cbn [apply]; try (cbn; lia).
  - pose proof (recordRequest_window responseTime success m) as Hw.
    pose proof (sliceLast_length 1000 (responseTimes m ++ [responseTime]))
      as Hlen.
    rewrite <- Hw, length_app in Hlen. cbn [List.length] in Hlen.
    destruct success; cbn [recordRequest total successful failed
      activeConnections totalConnections messagesReceived messagesSent
      activeSessions totalSessions completedSessions timeoutSessions] in *;
      lia.
  - destruct direction; cbn; lia.
Qed.

(** X26: the counters of a monitor agree with each other after any
    calls, resets included.  Every request is counted as successful or
    failed and as nothing else; the response times kept are as many as
    the requests, up to 1000; active connections and active sessions are
    never negative and never more than were opened, whatever the number
    of disconnections, completions and timeouts reported; and every
    session opened is active, completed or timed out. *)
Theorem monitor_counters_balanced (now : Z) (ops : list Op) :
  let m := run ops (new now) in
  total m = successful m + failed m /\
  0 <= successful m /\ 0 <= failed m /\
  Z.of_nat (List.length (responseTimes m)) = Z.min (total m) 1000 /\
  0 <= activeConnections m <= totalConnections m /\
  0 <= messagesReceived m /\ 0 <= messagesSent m /\
  0 <= activeSessions m <= totalSessions m /\
  0 <= completedSessions m /\ 0 <= timeoutSessions m /\
  totalSessions m
    <= activeSessions m + completedSessions m + timeoutSessions m.
Proof.
  cbv zeta. change (Balanced (run ops (new now))).
  pose proof (balanced_new now) as Hm. revert Hm.
  generalize (new now) as m.
  induction ops as [|op ops IH]; intros m Hm; [exact Hm|].
  cbn [run fold_left]. apply IH. now apply balanced_apply.
Qed.

(** X27: the response times a monitor keeps are those of the last 1000
    requests since the last reset, oldest first. *)
Theorem monitor_keeps_last_thousand (now : Z) (ops : list Op) :
  responseTimes (run ops (new now)) = sliceLast 1000 (requested ops []).
Proof.
  assert (Hstart : responseTimes (new now) = sliceLast 1000 []) by reflexivity.
  revert Hstart. generalize (new now) as m. generalize (@nil Z) as earlier.
  induction ops as [|op ops IH]; intros earlier m Hm; [exact Hm|].
  cbn [run fold_left].
  destruct op; cbn [requested]; apply IH; cbn [apply]; try exact Hm.
  - rewrite recordRequest_window, Hm. apply sliceLast_push. lia.
  - reflexivity.
Qed.

End MonitorFacts.

(* ------------------------------------------------------------------ *)
(** ** Port cleanup at start *)

Section StartCleanupFacts.
Import Os.
Context {W : Type} {os : Facilities W} {clock : Timed.Clock W}.

Lemma any_of_safe {A : Type} (m : M W A) :
  Traces m signalsOnlySafe -> Traces m anyCalls.
Proof. apply traces_weaken. intros tr _. exact I. Qed.

(** What a computation has called stays called whatever follows. *)
Lemma begins_bind {A B : Type} (m : M W A) (k : A -> M W B)
  (s : Sys W) (pre : list OsCall) :
  (forall a, Traces (k a) anyCalls) ->
  Begins m s pre -> Begins (bind m k) s pre.
Proof.
  intros Hk [mid Hm]. unfold Begins, bind.
  destruct (m s) as [[a|e] s1]; cbn [snd] in *.
  - destruct (Hk a s1) as [rest [Hrest _]]. exists (mid ++ rest).
    now rewrite Hrest, Hm, <- !app_assoc.
  - now exists mid.
Qed.

Lemma begins_tryCatch {A : Type} (m : M W A) (h : MCPError -> M W A)
  (s : Sys W) (pre : list OsCall) :
  (forall e, Traces (h e) anyCalls) ->
  Begins m s pre -> Begins (Timed.tryCatch m h) s pre.
Proof.
  intros Hh [mid Hm]. unfold Begins, Timed.tryCatch.
  destruct (m s) as [[a|e] s1]; cbn [snd] in *.
  - now exists mid.
  - destruct (Hh e s1) as [rest [Hrest _]]. exists (mid ++ rest).
    now rewrite Hrest, Hm, <- !app_assoc.
Qed.

(** X28: the cleanup at start signals, whatever
    [killProcessOnPortConflict] says.  With [cleanupPortOnStart] on,
    in forced mode or with a preferred port other than 0, a [start] of
    a server that is not running begins with the inquiry for the
    configured port, and when that reports a process that
    [isSafeToKill] accepts, the graceful signal to that process is the
    next thing it does. *)
Theorem start_cleanup_signals_occupant
  (fuel : nat) (config : Timed.StartConfig) (listenResult : option MCPError)
  (this : WebServer.t) (s : Sys W) (occupant : ProcessInfo) :
  WebServer.isServerRunning this = false ->
  Timed.cleanupPortOnStart config = true ->
  Timed.forcePort config = true \/ Timed.webPort config <> 0 ->
  fst (portProcess (Timed.webPort config) (world s)) = Some occupant ->
  ProcessManager.isSafeToKill occupant = true ->
  exists done rest,
    calls (snd (Timed.start fuel config listenResult this s)) =
      calls s
      ++ CPortProcess (Timed.webPort config) (Some occupant)
         :: CKill (pid occupant) false done :: rest.
Proof.
  intros Hstopped Hclean Hmode Howner Hsafe.
  destruct (cleanupPort_run fuel (Timed.webPort config) s)
    as [_ [tr [Htr Hshape]]].
  rewrite Howner, Hsafe in Hshape.
  destruct Hshape as [done [rest [-> _]]].
  assert (Hbegin : Begins (Timed.start fuel config listenResult this) s
    [CPortProcess (Timed.webPort config) (Some occupant);
     CKill (pid occupant) false done]).
  { unfold Timed.start. rewrite Hstopped.
    apply begins_bind.
    { intros [[p|]|e]; try apply (traces_ret anyCalls I).
      destruct listenResult; apply (traces_ret anyCalls I). }
    apply begins_tryCatch; [intros e; apply (traces_ret anyCalls I)|].
    apply begins_bind; [intros chosen; apply (traces_ret anyCalls I)|].
    unfold Timed.choosePort. rewrite Hclean.
    destruct (Timed.forcePort config).
    - apply begins_bind; [|now exists rest].
      intros [[]|]; [|apply (traces_ret anyCalls I)].
      apply any_of_safe. apply (traces_bind _ safe_app);
        [apply safe_forcePort|intros p; apply (traces_ret _ safe_nil)].
    - destruct Hmode as [Hforce|Hport]; [discriminate|].
      apply Z.eqb_neq in Hport. rewrite Hport. cbn [andb negb].
      apply begins_bind; [|now exists rest].
      intros [[]|]; [|apply (traces_ret anyCalls I)].
      apply any_of_safe. apply (traces_bind _ safe_app);
        [|intros p; apply (traces_ret _ safe_nil)].
      apply (traces_weaken _ quiet); [apply safe_of_quiet|].
      apply quiet_findAvailablePort. }
  destruct Hbegin as [more Hmore]. exists done, more. exact Hmore.
Qed.

End StartCleanupFacts.

Lemma start_cleanup_signals_occupant_witness :
  let node := Machine.proc 4711 "node" "node server.js" 5000 in
  let held := Machine.mk [(5000, node)] [] [] in
  let config :=
    {| Timed.webPort := 5000; Timed.forcePort := false;
       Timed.killProcessOnPortConflict := false;
       Timed.cleanupPortOnStart := true |} in
  let server := WebServer.mk (SessionStorage.new 60000) false 0 [] in
  exists done rest,
    Os.calls (snd (Timed.start 30 config None server
                     (TimedMachine.boot held 0))) =
      [] ++ Os.CPortProcess 5000 (Some node)
            :: Os.CKill 4711 false done :: rest.
Proof.
  cbv zeta.
  apply (start_cleanup_signals_occupant 30
           {| Timed.webPort := 5000; Timed.forcePort := false;
              Timed.killProcessOnPortConflict := false;
              Timed.cleanupPortOnStart := true |}
           None (WebServer.mk (SessionStorage.new 60000) false 0 [])
           (TimedMachine.boot
              (Machine.mk
                 [(5000, Machine.proc 4711 "node" "node server.js" 5000)]
                 [] []) 0)
           (Machine.proc 4711 "node" "node server.js" 5000)).
  - reflexivity.
  - reflexivity.
  - right. discriminate.
  - reflexivity.
  - reflexivity.
Defined.

(* ------------------------------------------------------------------ *)
(** ** The content handed to the tool's caller *)

Section ContentFacts.
Import MCPServer.

Lemma attachments_app (a b : list Content) :
  attachments (a ++ b) = attachments a ++ attachments b.
Proof. apply flat_map_app. Qed.

Lemma answersInWords_app (a b : list Content) :
  answersInWords (a ++ b) = answersInWords a ++ answersInWords b.
Proof. apply flat_map_app. Qed.

Lemma titles_app (a b : list Content) :
  titles (a ++ b) = titles a ++ titles b.
Proof. apply flat_map_app. Qed.

Lemma imagesLoop_run (imgs : list ImageData) :
  forall (imgIndex : Z) (content : list Content),
    let out := imagesLoop imgs imgIndex content in
    attachments out =
      attachments content
      ++ flat_map (fun img =>
                     if String.eqb (img_data img) "" then []
                     else [(ImageProcessor.stripDataUrl (img_data img),
                            img_type img)]) imgs /\
    answersInWords out = answersInWords content /\
    titles out = titles content.
Proof.
  induction imgs as [|img rest IH]; intros imgIndex content; cbv zeta.
  - cbn. now rewrite app_nil_r.
  - cbn [imagesLoop flat_map].
    destruct (IH (imgIndex + 1)
      (if String.eqb (img_data img) ""
       then content ++ [TextContent (ImageLine (imgIndex + 1) (img_name img)
                                       (img_type img) (img_size img))]
       else (content ++ [TextContent (ImageLine (imgIndex + 1) (img_name img)
                                        (img_type img) (img_size img))])
            ++ [ImageContent (ImageProcessor.stripDataUrl (img_data img))
                  (img_type img)]))
      as [Himg [Hwords Htitles]].
    cbv zeta in *. rewrite Himg, Hwords, Htitles.
    destruct (String.eqb (img_data img) "");
      rewrite ?attachments_app, ?answersInWords_app, ?titles_app; cbn;
      rewrite ?app_nil_r, <- ?app_assoc; auto.
Qed.

Lemma formatItem_run (item : FeedbackData) (index : Z)
  (content : list Content) :
  let out := formatItem item index content in
  attachments out = attachments content ++ attachedImages item /\
  answersInWords out = answersInWords content ++ words item /\
  titles out = titles content ++ [index + 1].
Proof.
  cbv zeta. unfold formatItem, attachedImages, words.
  rewrite attachments_app, answersInWords_app, titles_app. cbn [attachments
    answersInWords titles flat_map app]. rewrite !app_nil_r.
  set (content2 :=
    match truthyString (text item) with
    | Some text =>
        (content ++ [TextContent (FeedbackTitle (index + 1))])
        ++ [TextContent (TextFeedback text)]
    | None => content ++ [TextContent (FeedbackTitle (index + 1))]
    end).
  assert (H2 : attachments content2 = attachments content /\
               answersInWords content2 =
                 answersInWords content
                 ++ match truthyString (text item) with
                    | Some text => [text]
                    | None => []
                    end /\
               titles content2 = titles content ++ [index + 1]).
  { subst content2. destruct (truthyString (text item));
      rewrite ?attachments_app, ?answersInWords_app, ?titles_app; cbn;
      rewrite ?app_nil_r; auto. }
  destruct H2 as [Himg [Hwords Htitles]].
  destruct (images item) as [[|img rest]|].
  - cbn. rewrite app_nil_r. auto.
  - destruct (imagesLoop_run (img :: rest) 0
      (content2 ++ [TextContent
         (NumberOfImages (Z.of_nat (List.length (img :: rest))))]))
      as [Himg' [Hwords' Htitles']].
    cbv zeta in *. rewrite Himg', Hwords', Htitles'.
    rewrite attachments_app, answersInWords_app, titles_app. cbn [attachments
      answersInWords titles flat_map app]. rewrite !app_nil_r.
    rewrite Himg, Hwords, Htitles. auto.
  - rewrite app_nil_r. auto.
Qed.

Lemma itemsLoop_run (feedback : list FeedbackData) :
  forall (index : Z) (content : list Content),
    let out := itemsLoop feedback index content in
    attachments out = attachments content ++ flat_map attachedImages feedback
    /\ answersInWords out = answersInWords content ++ flat_map words feedback
    /\ titles out =
         titles content ++ zseq (index + 1) (List.length feedback).
Proof.
  induction feedback as [|item rest IH]; intros index content; cbv zeta.
  - cbn. now rewrite !app_nil_r.
  - cbn [itemsLoop flat_map List.length zseq].
    destruct (IH (index + 1) (formatItem item index content))
      as [Himg [Hwords Htitles]].
    destruct (formatItem_run item index content) as [Himg1 [Hwords1 Htitles1]].
    cbv zeta in *. rewrite Himg, Hwords, Htitles, Himg1, Hwords1, Htitles1.
    rewrite <- !app_assoc. auto.
Qed.

(** X30: what the caller of the tool gets.  The content is never empty.
    The images in it are those of the answers that carry data, each
    once, in the order of the answers and of their images, with the
    prefix of a data URL stripped from the data and the MIME type as
    the image declares it; an image without data is announced but not
    attached.  The answers in words are there in order, empty ones left
    out, and the answers are numbered from 1 without a gap. *)
Theorem formatFeedbackForMCP_content (feedback : list FeedbackData) :
  let content := formatFeedbackForMCP feedback in
  content <> [] /\
  attachments content = flat_map attachedImages feedback /\
  answersInWords content = flat_map words feedback /\
  titles content = zseq 1 (List.length feedback).
Proof.
  cbv zeta. unfold formatFeedbackForMCP.
  destruct feedback as [|item rest]; [repeat split; discriminate|].
  destruct (itemsLoop_run (item :: rest) 0
    [TextContent (ReceivedItems (Z.of_nat (List.length (item :: rest))))])
    as [Himg [Hwords Htitles]].
  cbv zeta in *. split; [|now rewrite Himg, Hwords, Htitles].
  intros Hempty. rewrite Hempty in Htitles. discriminate.
Qed.

End ContentFacts.
